(** * i2cget: a shallow embedding of tools/i2cget.c

    The program reads one register (or a run of raw bytes) of a device on
    an I2C/SMBus adapter.  Everything it does is in [main] and three static
    helpers ([check_funcs], [confirm], [writeaddr]); the rest (libc, the
    kernel, i2cbusses.c, util.c) is outside the file and appears here as the
    fields of an environment record, except [user_ack], which is modelled
    on what the user typed.

    A run of the program is a pair: the list of observable events it
    produced, in order, and how it ended. *)

From Stdlib Require Import ZArith List String Ascii Bool Lia.
From Stdlib.Strings Require Import Byte.
Import ListNotations.
Local Open Scope Z_scope.

(** ** C integers *)

(** [int] is 32 bits wide.  A [long] (or [ssize_t], [__s32]) stored into an
    [int] keeps its low 32 bits, read as two's complement. *)
Definition INT_BITS : Z := 32.
Definition INT_MIN : Z := - 2 ^ 31.
Definition INT_MAX : Z := 2 ^ 31 - 1.

Definition to_int (z : Z) : Z := (z + 2 ^ 31) mod 2 ^ 32 - 2 ^ 31.

(** [x >> n] on an [int]: C defines it only for [0 <= n < 32]
    (C11 6.5.7p3); [None] is the undefined case. *)
Definition int_shr (x n : Z) : option Z :=
  if (0 <=? n) && (n <? INT_BITS) then Some (Z.shiftr x n) else None.

(** [size_t] is 64 bits wide; an [int] passed where a [size_t] is expected
    is reduced modulo [2^64]. *)
Definition SIZE_MAX : Z := 2 ^ 64 - 1.
Definition to_size_t (z : Z) : Z := z mod 2 ^ 64.
Definition sizeof_int : Z := 4.

(** ** C strings *)

Definition NUL : ascii := Ascii.zero.

(** [s[n]] for a NUL-terminated string: the terminator is read at the end. *)
Definition char_at (s : string) (n : nat) : ascii :=
  match String.get n s with
  | Some c => c
  | None => NUL
  end.

(** [s + n] *)
Fixpoint str_drop (n : nat) (s : string) : string :=
  match n, s with
  | O, _ => s
  | S n', String _ s' => str_drop n' s'
  | S _, EmptyString => EmptyString
  end.

Arguments str_drop n s : simpl never.

(** [!*end] *)
Definition at_end (s : string) : bool := Ascii.eqb (char_at s 0) NUL.

(** ** Constants of <linux/i2c.h> and <linux/i2c-dev.h>

    Kernel UAPI values; the headers are not part of the repository. *)
Definition I2C_SMBUS_BYTE : Z := 1.
Definition I2C_SMBUS_BYTE_DATA : Z := 2.
Definition I2C_SMBUS_WORD_DATA : Z := 3.

Definition I2C_FUNC_I2C : Z := 0x00000001.
Definition I2C_FUNC_SMBUS_PEC : Z := 0x00000008.
Definition I2C_FUNC_SMBUS_READ_BYTE : Z := 0x00020000.
Definition I2C_FUNC_SMBUS_WRITE_BYTE : Z := 0x00040000.
Definition I2C_FUNC_SMBUS_READ_BYTE_DATA : Z := 0x00080000.
Definition I2C_FUNC_SMBUS_READ_WORD_DATA : Z := 0x00200000.

(** ** Observable events *)

(** The diagnostics written to stderr, one constructor per message. *)
Inductive diag : Type :=
| Usage
| Err_length_not_specified
| Err_unsupported_option (arg : string)
| Version_banner
| Err_data_address_invalid
| Err_invalid_mode
| Err_no_functionality_matrix
| Missing_func (what : string)
| Warn_no_pec_support
| Warn_confuse_bus
| Stop_eeprom
| Warn_write_byte_pec
| Will_read (address daddress : Z) (kind : string)
| Pec_checking_enabled
| Continue_prompt (default_yes : bool)
| Aborting_on_user_request
| Err_could_not_set_pec
| Err_alloc
| Warn_write_failed
| Err_read_failed.

Inductive event : Type :=
| Stderr (d : diag)
| Stdout (s : string)
| Open_i2c_dev (i2cbus : Z)
| Ioctl_FUNCS (file : Z)
| Set_slave_addr (file address : Z) (force : bool)
| User_ack (def : bool)
| Ioctl_PEC (file : Z)
| Calloc (nmemb size : Z)
| Sys_write (file : Z) (buf : list byte)
| Sys_read (file count : Z)
| Smbus_read_byte (file : Z)
| Smbus_read_word_data (file command : Z)
| Smbus_read_byte_data (file command : Z)
| Close (file : Z)
| Free.

(** ** The environment *)

(** What the user types at the "Continue?" prompt. *)
Inductive answer : Type := Affirmative | Negative | Other_answer.

(** The C implementation and the outside world: what each external call
    returns.  Every external function is called at most once per run with
    a given request, so a function of the arguments is enough. *)
Record env : Type := {
  (** whether plain [char] is a signed type (it is on x86, not on ARM) *)
  char_is_signed : bool;
  (** [strtol(s, &end, 0)]: the value and the unparsed rest *)
  strtol : string -> Z * string;
  lookup_i2c_bus : string -> Z;
  parse_i2c_address : string -> Z;
  open_i2c_dev : Z -> Z;
  (** [ioctl(file, I2C_FUNCS, &funcs)]: return value and [funcs] *)
  ioctl_FUNCS : Z -> Z * Z;
  set_slave_addr : Z -> Z -> bool -> Z;
  typed : answer;
  (** [ioctl(file, I2C_PEC, 1)] *)
  ioctl_PEC : Z -> Z;
  out_of_memory : bool;
  write : Z -> list byte -> Z;
  (** [read(file, buf, count)]: [None] is the error return -1, [Some d]
      returns the number of bytes of [d], stored at the start of [buf] *)
  read : Z -> Z -> option (list byte);
  i2c_smbus_read_byte : Z -> Z;
  i2c_smbus_read_word_data : Z -> Z -> Z;
  i2c_smbus_read_byte_data : Z -> Z -> Z
}.

(** ** Runs *)

Inductive result (A : Type) : Type :=
| Ret (a : A)          (* the computation goes on with [a] *)
| Exit (status : Z)    (* [exit(status)] was called *)
| Undefined.           (* the C standard gives the step no meaning *)
Arguments Ret {A} a.
Arguments Exit {A} status.
Arguments Undefined {A}.

Definition M (A : Type) : Type := (list event * result A)%type.

Definition ret {A} (a : A) : M A := ([], Ret a).

Definition bind {A B} (m : M A) (f : A -> M B) : M B :=
  match snd m with
  | Ret a => (fst m ++ fst (f a), snd (f a))
  | Exit n => (fst m, Exit n)
  | Undefined => (fst m, Undefined)
  end.

Definition emit (ev : event) : M unit := ([ev], Ret tt).
Definition call {A} (ev : event) (answer : A) : M A := ([ev], Ret answer).
Definition exit {A} (status : Z) : M A := ([], Exit status).
Definition undefined {A} : M A := ([], Undefined).
Definition fprintf_stderr (d : diag) : M unit := emit (Stderr d).
Definition printf (s : string) : M unit := emit (Stdout s).

Declare Scope run_scope.
Delimit Scope run_scope with run.
Notation "x <- m ;; k" := (bind m (fun x => k))
  (at level 100, m at next level, right associativity) : run_scope.
Notation "m ;; k" := (bind m (fun _ => k))
  (at level 100, right associativity) : run_scope.
Local Open Scope run_scope.

(** ** help (lines 41-53) *)

Definition help {A} : M A :=
  fprintf_stderr Usage ;; exit 1.

(** ** Option flags (main, lines 185-212) *)

Record flags_t : Type := {
  version : bool;
  force : bool;
  yes : bool;
  length : Z
}.

Definition no_flags : flags_t :=
  {| version := false; force := false; yes := false; length := 0 |}.

(** The check at lines 200-203, after [length] and [end] were set. *)
Definition length_checked (length : Z) (end_ : string) : M unit :=
  if negb (at_end end_) || (length =? 0)
  then fprintf_stderr Err_length_not_specified ;; exit 1
  else ret tt.

(** The loop over [argv[1+flags]]: [args] is what is left of [argv] from
    index [1+flags] on, so [1+flags < argc] reads "[args] is not empty"
    and [2+flags < argc] "[args] has a second element". *)
Fixpoint parse_flags (e : env) (args : list string) (f : flags_t)
  : M (flags_t * list string) :=
  match args with
  | [] => ret (f, [])
  | a :: rest =>
    if negb (Ascii.eqb (char_at a 0) "-") then ret (f, args) else
    let c := char_at a 1 in
    if Ascii.eqb c "V" then
      parse_flags e rest {| version := true; force := force f;
                            yes := yes f; length := length f |}
    else if Ascii.eqb c "f" then
      parse_flags e rest {| version := version f; force := true;
                            yes := yes f; length := length f |}
    else if Ascii.eqb c "y" then
      parse_flags e rest {| version := version f; force := force f;
                            yes := true; length := length f |}
    else if Ascii.eqb c "l" then
      let r := strtol e (str_drop 2 a) in
      let len := to_int (fst r) in
      match rest with
      | b :: rest' =>
        if at_end (snd r) && (len =? 0) then
          let r' := strtol e b in
          let len' := to_int (fst r') in
          length_checked len' (snd r') ;;
          parse_flags e rest' {| version := version f; force := force f;
                                 yes := yes f; length := len' |}
        else
          length_checked len (snd r) ;;
          parse_flags e rest {| version := version f; force := force f;
                                yes := yes f; length := len |}
      | [] =>
        length_checked len (snd r) ;;
        ret ({| version := version f; force := force f;
                yes := yes f; length := len |}, [])
      end
    else
      fprintf_stderr (Err_unsupported_option a) ;; help
  end.

(** ** Positional arguments (main, lines 219-256) *)

(** The loop [while (daddress >> (8 * daddrlen)) ++daddrlen;] of lines
    234-235.  At [daddrlen = 4] the shift count is 32, the width of [int],
    and the expression has no defined value. *)
Inductive width_result : Type :=
| Width (daddrlen : Z)
| Shift_undefined
| Out_of_fuel.

Fixpoint infer_daddrlen (fuel : nat) (daddress daddrlen : Z) : width_result :=
  match int_shr daddress (8 * daddrlen) with
  | None => Shift_undefined
  | Some v =>
    if v =? 0 then Width daddrlen
    else match fuel with
         | O => Out_of_fuel
         | S fuel' => infer_daddrlen fuel' daddress (daddrlen + 1)
         end
  end.

(** Lines 230-244: [rest] is [argv] from index [flags+3] on.  The result is
    [(size, daddress, daddrlen)]. *)
Definition parse_daddress (e : env) (rest : list string) : M (Z * Z * Z) :=
  match rest with
  | d :: _ =>
    let r := strtol e d in
    let daddress := to_int (fst r) in
    if at_end (snd r) && (0 <=? daddress) then
      match infer_daddrlen 4 daddress 0 with
      | Width daddrlen => ret (I2C_SMBUS_BYTE_DATA, daddress, daddrlen)
      | Shift_undefined => undefined
      | Out_of_fuel => undefined
      end
    else
      fprintf_stderr Err_data_address_invalid ;; help
  | [] => ret (I2C_SMBUS_BYTE, -1, 0)
  end.

(** Lines 246-256: the result is [(size, pec)]. *)
Definition parse_mode (rest : list string) (size : Z) : M (Z * bool) :=
  match rest with
  | _ :: m :: _ =>
    let pec := Ascii.eqb (char_at m 1) "p" in
    if Ascii.eqb (char_at m 0) "b" then ret (I2C_SMBUS_BYTE_DATA, pec)
    else if Ascii.eqb (char_at m 0) "w" then ret (I2C_SMBUS_WORD_DATA, pec)
    else if Ascii.eqb (char_at m 0) "c" then ret (I2C_SMBUS_BYTE, pec)
    else fprintf_stderr Err_invalid_mode ;; help
  | _ => ret (size, false)
  end.

Record request : Type := {
  i2cbus : Z;
  address : Z;
  size : Z;
  daddress : Z;
  daddrlen : Z;
  pec : bool
}.

(** [pos] is [argv] from index [flags+1] on. *)
Definition parse_positional (e : env) (pos : list string) : M request :=
  match pos with
  | bus_arg :: addr_arg :: rest =>
    let i2cbus := lookup_i2c_bus e bus_arg in
    if i2cbus <? 0 then help else
    let address := parse_i2c_address e addr_arg in
    if address <? 0 then help else
    sd <- parse_daddress e rest ;;
    sp <- parse_mode rest (fst (fst sd)) ;;
    ret {| i2cbus := i2cbus; address := address; size := fst sp;
           daddress := snd (fst sd); daddrlen := snd sd; pec := snd sp |}
  | _ => help
  end.

(** ** check_funcs (lines 55-101) *)

(** [funcs & flag] as a truth value *)
Definition has_func (funcs flag : Z) : bool := negb (Z.land funcs flag =? 0).

(** Lines 94-100 *)
Definition check_funcs_pec (funcs : Z) (pec : bool) : M Z :=
  (if pec && negb (has_func funcs (Z.lor I2C_FUNC_SMBUS_PEC I2C_FUNC_I2C))
   then fprintf_stderr Warn_no_pec_support else ret tt) ;;
  ret 0.

Definition check_funcs (e : env) (file size daddress : Z) (pec : bool) : M Z :=
  r <- call (Ioctl_FUNCS file) (ioctl_FUNCS e file) ;;
  if fst r <? 0 then
    fprintf_stderr Err_no_functionality_matrix ;; ret (-1)
  else
  let funcs := snd r in
  if size =? I2C_SMBUS_BYTE then
    if negb (has_func funcs I2C_FUNC_SMBUS_READ_BYTE) then
      fprintf_stderr (Missing_func "SMBus receive byte") ;; ret (-1)
    else if (0 <=? daddress)
            && negb (has_func funcs I2C_FUNC_SMBUS_WRITE_BYTE) then
      fprintf_stderr (Missing_func "SMBus send byte") ;; ret (-1)
    else check_funcs_pec funcs pec
  else if size =? I2C_SMBUS_BYTE_DATA then
    if negb (has_func funcs I2C_FUNC_SMBUS_READ_BYTE_DATA) then
      fprintf_stderr (Missing_func "SMBus read byte") ;; ret (-1)
    else check_funcs_pec funcs pec
  else if size =? I2C_SMBUS_WORD_DATA then
    if negb (has_func funcs I2C_FUNC_SMBUS_READ_WORD_DATA) then
      fprintf_stderr (Missing_func "SMBus read word") ;; ret (-1)
    else check_funcs_pec funcs pec
  else check_funcs_pec funcs pec.

(** ** confirm (lines 103-151) *)

(** Modelled from the spec: [user_ack] (util.c) is called by [confirm] but
    is not among the sources.  The spec has it solicit a yes/no answer
    with a default: an affirmative answer proceeds, a negative one aborts,
    and anything else (the empty line too) takes the default. *)
Definition user_ack (def : bool) (a : answer) : bool :=
  match a with
  | Affirmative => true
  | Negative => false
  | Other_answer => def
  end.

(** The transaction named in the message of lines 135-139 *)
Definition using_what (size daddress : Z) : string :=
  if size =? I2C_SMBUS_BYTE then
    (if daddress <? 0 then "read byte" else "write byte/read byte")
  else if size =? I2C_SMBUS_BYTE_DATA then "read byte data"
  else "read word data".

Definition confirm (e : env) (address size daddress : Z) (pec : bool) : M Z :=
  fprintf_stderr Warn_confuse_bus ;;
  if (0x50 <=? address) && (address <=? 0x57) && pec then
    fprintf_stderr Stop_eeprom ;; ret 0
  else
  let dont : Z :=
    if (size =? I2C_SMBUS_BYTE) && (0 <=? daddress) && pec then 1 else 0 in
  (if negb (dont =? 0) then fprintf_stderr Warn_write_byte_pec else ret tt) ;;
  fprintf_stderr (Will_read address daddress (using_what size daddress)) ;;
  (if pec then fprintf_stderr Pec_checking_enabled else ret tt) ;;
  fprintf_stderr (Continue_prompt (dont =? 0)) ;;
  ack <- call (User_ack (dont =? 0)) (user_ack (dont =? 0) (typed e)) ;;
  if negb ack then
    fprintf_stderr Aborting_on_user_request ;; ret 0
  else ret 1.

(** ** writeaddr (lines 153-170) *)

Definition MAX_ADDR_LEN : Z := 2.

Definition byte_of_Z (z : Z) : byte :=
  match Byte.of_N (Z.to_N (z mod 256)) with
  | Some b => b
  | None => x00
  end.

(** The [for] loop of lines 164-165, [n] iterations from index [i] on.
    [len] is at most 2 there, so the shift count is 0 or 8. *)
Fixpoint fill_buf (n : nat) (adr len i : Z) : list byte :=
  match n with
  | O => []
  | S n' =>
    byte_of_Z (Z.land (Z.shiftr adr (8 * (len - 1 - i))) 0xff)
    :: fill_buf n' adr len (i + 1)
  end.

(** [main] only passes [len >= 0]; a negative [len] would make [write]
    read past [buf]. *)
Definition writeaddr (e : env) (file adr len : Z) : M unit :=
  if 0 <=? adr then
    let len := if len >? MAX_ADDR_LEN then MAX_ADDR_LEN else len in
    if len <? 0 then undefined else
    let buf := fill_buf (Z.to_nat len) adr len 0 in
    r <- call (Sys_write file buf) (write e file buf) ;;
    if negb (r =? len) then fprintf_stderr Warn_write_failed else ret tt
  else ret tt.

(** ** The transaction (main, lines 274-296) *)

(** [calloc(nmemb, size)]: NULL when the product does not fit a [size_t]
    or memory is short, else a zeroed block. *)
Definition calloc (e : env) (nmemb size : Z) : M (option (list byte)) :=
  call (Calloc nmemb size)
       (if (nmemb * size >? SIZE_MAX) || out_of_memory e then None
        else Some (repeat x00 (Z.to_nat (nmemb * size)))).

(** The block after [read] stored the bytes [d] at its start *)
Definition store (d buf : list byte) : list byte :=
  d ++ skipn (List.length d) buf.

(** The result is [(res, resbufptr)]; the block is only used on the raw
    path. *)
Definition transaction (e : env) (file length size daddress daddrlen : Z)
  : M (Z * list byte) :=
  if negb (length =? 0) then
    p <- calloc e (to_size_t length) sizeof_int ;;
    match p with
    | None =>
      fprintf_stderr Err_alloc ;;
      emit (Close file) ;;
      exit 1
    | Some buf =>
      writeaddr e file daddress daddrlen ;;
      r <- call (Sys_read file (to_size_t length))
                (read e file (to_size_t length)) ;;
      match r with
      | None => ret (to_int (-1), buf)
      | Some d => ret (to_int (Z.of_nat (List.length d)), store d buf)
      end
    end
  else if size =? I2C_SMBUS_BYTE then
    writeaddr e file daddress daddrlen ;;
    res <- call (Smbus_read_byte file) (i2c_smbus_read_byte e file) ;;
    ret (to_int res, [])
  else if size =? I2C_SMBUS_WORD_DATA then
    res <- call (Smbus_read_word_data file (daddress mod 256))
                (i2c_smbus_read_word_data e file (daddress mod 256)) ;;
    ret (to_int res, [])
  else
    res <- call (Smbus_read_byte_data file (daddress mod 256))
                (i2c_smbus_read_byte_data e file (daddress mod 256)) ;;
    ret (to_int res, []).

(** ** Output (main, lines 300-333) *)

Definition hex_digit (upper : bool) (d : Z) : ascii :=
  if d <? 10 then ascii_of_nat (Z.to_nat (48 + d))
  else ascii_of_nat (Z.to_nat ((if upper then 55 else 87) + d)).

(** The digits of [n], most significant first, in front of [acc] *)
Fixpoint hex_digits (fuel : nat) (upper : bool) (n : Z) (acc : string)
  : string :=
  match fuel with
  | O => acc
  | S fuel' =>
    let acc' := String (hex_digit upper (n mod 16)) acc in
    if n / 16 =? 0 then acc' else hex_digits fuel' upper (n / 16) acc'
  end.

Fixpoint zeros (n : nat) : string :=
  match n with
  | O => EmptyString
  | S n' => String "0" (zeros n')
  end.

(** [%0<width>x] and [%0<width>X] of an [unsigned int] (at most 8 digits) *)
Definition fmt_hex (upper : bool) (width : nat) (n : Z) : string :=
  let s := hex_digits 8 upper n EmptyString in
  String.append (zeros (width - String.length s)) s.

(** The value of a [char] holding the byte [b], promoted to [int] *)
Definition char_value (e : env) (b : byte) : Z :=
  let v := Z.of_N (Byte.to_N b) in
  if char_is_signed e && (128 <=? v) then v - 256 else v.

(** [printf("%02X", c)] for a [char] [c]: the promoted [int] is read as
    an [unsigned int] *)
Definition fmt_02X (e : env) (b : byte) : string :=
  fmt_hex true 2 (char_value e b mod 2 ^ 32).

(** Lines 309-310: [n] iterations from index [i] on *)
Fixpoint print_packed (e : env) (buf : list byte) (n i : nat) : M unit :=
  match n with
  | O => ret tt
  | S n' =>
    printf (fmt_02X e (nth i buf x00)) ;;
    print_packed e buf n' (S i)
  end.

(** Lines 315-319 *)
Fixpoint print_separate (e : env) (buf : list byte) (n i : nat) : M unit :=
  match n with
  | O => ret tt
  | S n' =>
    (if (0 <? i)%nat then printf " " else ret tt) ;;
    printf (String.append "0x" (fmt_02X e (nth i buf x00))) ;;
    print_separate e buf n' (S i)
  end.

Definition newline : string := String (ascii_of_nat 10) EmptyString.

Definition report (e : env) (length size res : Z) (resbufptr : list byte)
  : M Z :=
  if negb (length =? 0) then
    if negb (length =? res) then
      fprintf_stderr Err_read_failed ;; exit 2
    else
      (if (length =? 1) || (length =? 2) || (length =? 4) || (length =? 8)
       then
         printf "0x" ;;
         print_packed e resbufptr (Z.to_nat length) 0 ;;
         printf newline
       else
         print_separate e resbufptr (Z.to_nat length) 0 ;;
         printf newline) ;;
      emit Free ;;
      ret 0
  else
    if res <? 0 then
      fprintf_stderr Err_read_failed ;; exit 2
    else
      printf (String.append "0x"
                (String.append
                   (fmt_hex false
                      (if size =? I2C_SMBUS_WORD_DATA then 4 else 2) res)
                   newline)) ;;
      ret 0.

(** ** main (lines 172-334) *)

(** Lines 258-262: the result is the file descriptor. *)
Definition open_device (e : env) (f : flags_t) (rq : request) : M Z :=
  file <- call (Open_i2c_dev (i2cbus rq)) (open_i2c_dev e (i2cbus rq)) ;;
  if file <? 0 then exit 1 else
  c <- check_funcs e file (size rq) (daddress rq) (pec rq) ;;
  if negb (c =? 0) then exit 1 else
  s <- call (Set_slave_addr file (address rq) (force f))
            (set_slave_addr e file (address rq) (force f)) ;;
  if negb (s =? 0) then exit 1 else ret file.

(** Lines 264-265 *)
Definition ask (e : env) (f : flags_t) (rq : request) : M unit :=
  if negb (yes f) then
    c <- confirm e (address rq) (size rq) (daddress rq) (pec rq) ;;
    if c =? 0 then exit 0 else ret tt
  else ret tt.

(** Lines 267-272 *)
Definition enable_pec (e : env) (rq : request) (file : Z) : M unit :=
  if pec rq then
    r <- call (Ioctl_PEC file) (ioctl_PEC e file) ;;
    if r <? 0 then
      fprintf_stderr Err_could_not_set_pec ;;
      emit (Close file) ;;
      exit 1
    else ret tt
  else ret tt.

(** Lines 258-272: open the device, check it, ask, enable PEC. *)
Definition open_and_check (e : env) (f : flags_t) (rq : request) : M Z :=
  file <- open_device e f rq ;;
  ask e f rq ;;
  enable_pec e rq file ;;
  ret file.

(** Lines 274-333: read, close the handle, print. *)
Definition read_and_report (e : env) (f : flags_t) (rq : request) (file : Z)
  : M Z :=
  t <- transaction e file (length f) (size rq) (daddress rq) (daddrlen rq) ;;
  emit (Close file) ;;
  report e (length f) (size rq) (fst t) (snd t).

(** Everything after the option flags *)
Definition run (e : env) (f : flags_t) (pos : list string) : M Z :=
  (if version f then fprintf_stderr Version_banner ;; exit 0 else ret tt) ;;
  rq <- parse_positional e pos ;;
  file <- open_and_check e f rq ;;
  read_and_report e f rq file.

(** [argv] with the program name first *)
Definition main (e : env) (argv : list string) : M Z :=
  fp <- parse_flags e (tl argv) no_flags ;;
  run e (fst fp) (snd fp).

(** ** What a run did *)

Definition trace_of {A} (m : M A) : list event := fst m.
Definition outcome_of {A} (m : M A) : result A := snd m.

(** Everything printed on stdout, in order *)
Fixpoint stdout_of (t : list event) : string :=
  match t with
  | [] => EmptyString
  | Stdout s :: t' => String.append s (stdout_of t')
  | _ :: t' => stdout_of t'
  end.

Definition is_read (ev : event) : bool :=
  match ev with
  | Sys_read _ _ | Smbus_read_byte _
  | Smbus_read_word_data _ _ | Smbus_read_byte_data _ _ => true
  | _ => false
  end.

(** The read transactions issued on the bus, in order *)
Definition reads_of (t : list event) : list event := filter is_read t.

Definition is_write (ev : event) : bool :=
  match ev with
  | Sys_write _ _ => true
  | _ => false
  end.

Definition is_prompt (ev : event) : bool :=
  match ev with
  | User_ack _ => true
  | _ => false
  end.

Definition prompts_of (t : list event) : list event := filter is_prompt t.

Definition is_close (ev : event) : bool :=
  match ev with
  | Close _ => true
  | _ => false
  end.

(** ** A concrete environment

    A C library and an adapter to run the model on: [strtol] with base 0
    for arguments without leading blanks whose value fits a [long], the
    two argument parsers of the tool, and a device that returns the bytes
    it is given. *)
Module Sample.

Definition digit_val (c : ascii) : option Z :=
  let n := Z.of_nat (nat_of_ascii c) in
  if (48 <=? n) && (n <=? 57) then Some (n - 48)
  else if (97 <=? n) && (n <=? 102) then Some (n - 87)
  else if (65 <=? n) && (n <=? 70) then Some (n - 55)
  else None.

Definition is_digit (base : Z) (c : ascii) : bool :=
  match digit_val c with
  | Some d => d <? base
  | None => false
  end.

Fixpoint digits (base : Z) (s : string) (acc : Z) : Z * string :=
  match s with
  | String c s' =>
    match digit_val c with
    | Some d => if d <? base then digits base s' (acc * base + d) else (acc, s)
    | None => (acc, s)
    end
  | EmptyString => (acc, s)
  end.

Definition unsigned_part (s : string) : option (Z * string) :=
  match s with
  | String c0 (String c1 s') =>
    if Ascii.eqb c0 "0" then
      if (Ascii.eqb c1 "x" || Ascii.eqb c1 "X") && is_digit 16 (char_at s' 0)
      then Some (digits 16 s' 0)
      else Some (digits 8 (String c1 s') 0)
    else if is_digit 10 c0 then Some (digits 10 s 0) else None
  | String c0 EmptyString =>
    if is_digit 10 c0 then Some (digits 10 s 0) else None
  | EmptyString => None
  end.

Definition libc_strtol (s : string) : Z * string :=
  let body := if Ascii.eqb (char_at s 0) "-" || Ascii.eqb (char_at s 0) "+"
              then str_drop 1 s else s in
  match unsigned_part body with
  | Some (v, rest) =>
    (if Ascii.eqb (char_at s 0) "-" then - v else v, rest)
  | None => (0, s)
  end.

Definition bus_number (s : string) : Z :=
  let r := libc_strtol s in
  if at_end (snd r) && negb (at_end s) && (0 <=? fst r) && (fst r <=? 0xfffff)
  then fst r else -1.

Definition chip_address (s : string) : Z :=
  let r := libc_strtol s in
  if negb (at_end (snd r)) || at_end s then -1
  else if (fst r <? 0x03) || (0x77 <? fst r) then -2
  else fst r.

(** An adapter with the functionality [funcs], a device that answers a raw
    read with [data] and a structured read with [value], a user who types
    [a], on a C implementation whose plain [char] is signed or not. *)
Definition world (signed : bool) (funcs : Z) (a : answer)
           (data : option (list byte)) (value : Z) : env :=
  {| char_is_signed := signed;
     strtol := libc_strtol;
     lookup_i2c_bus := bus_number;
     parse_i2c_address := chip_address;
     open_i2c_dev := fun _ => 3;
     ioctl_FUNCS := fun _ => (0, funcs);
     set_slave_addr := fun _ _ _ => 0;
     typed := a;
     ioctl_PEC := fun _ => 0;
     out_of_memory := false;
     write := fun _ buf => Z.of_nat (List.length buf);
     read := fun _ _ => data;
     i2c_smbus_read_byte := fun _ => value;
     i2c_smbus_read_word_data := fun _ _ => value;
     i2c_smbus_read_byte_data := fun _ _ => value |}.

(** Every SMBus and I2C function *)
Definition all_funcs : Z := 0x0eff0009.

End Sample.

(** ** Vocabulary of the statements *)

Inductive plan : Type :=
| RawRead (len : Z)
| CurrentByte
| ByteData
| WordData.

Definition plan_of_event (ev : event) : option plan :=
  match ev with
  | Sys_read _ count => Some (RawRead count)
  | Smbus_read_byte _ => Some CurrentByte
  | Smbus_read_byte_data _ _ => Some ByteData
  | Smbus_read_word_data _ _ => Some WordData
  | _ => None
  end.

(** The read transactions of a trace, by kind *)
Fixpoint plans_of (t : list event) : list plan :=
  match t with
  | [] => []
  | ev :: t' =>
    match plan_of_event ev with
    | Some p => p :: plans_of t'
    | None => plans_of t'
    end
  end.

(** Address bytes and reads, in the order they went to the bus *)
Definition is_traffic (ev : event) : bool := is_write ev || is_read ev.
Definition traffic_of (t : list event) : list event := filter is_traffic t.

Definition is_stdout (ev : event) : bool :=
  match ev with
  | Stdout _ => true
  | _ => false
  end.

(** The bytes [writeaddr] hands to [write]: the width is capped at 2. *)
Definition encoded (adr len : Z) : list byte :=
  let len' := if len >? MAX_ADDR_LEN then MAX_ADDR_LEN else len in
  fill_buf (Z.to_nat len') adr len' 0.

(** What [read] left in [res] and in the block *)
Definition read_result (e : env) (file count : Z) (buf : list byte)
  : Z * list byte :=
  match read e file count with
  | None => (to_int (-1), buf)
  | Some d => (to_int (Z.of_nat (List.length d)), store d buf)
  end.


(** The flags [check_funcs] wants for a size: the [switch] of lines
    66-92 as a truth value. *)
Definition required_funcs_present (funcs size daddress : Z) : bool :=
  if size =? I2C_SMBUS_BYTE then
    has_func funcs I2C_FUNC_SMBUS_READ_BYTE
    && ((daddress <? 0) || has_func funcs I2C_FUNC_SMBUS_WRITE_BYTE)
  else if size =? I2C_SMBUS_BYTE_DATA then
    has_func funcs I2C_FUNC_SMBUS_READ_BYTE_DATA
  else if size =? I2C_SMBUS_WORD_DATA then
    has_func funcs I2C_FUNC_SMBUS_READ_WORD_DATA
  else true.

(** Two upper-case hex digits of a byte *)
Definition hex2 (b : byte) : string :=
  let v := Z.of_N (Byte.to_N b) in
  String (hex_digit true (v / 16)) (String (hex_digit true (v mod 16)) "").

(** The output the raw path is meant to give *)
Definition packed_numeral (d : list byte) : string :=
  String.append "0x" (String.append (String.concat "" (map hex2 d)) newline).

Definition separate_numerals (d : list byte) : string :=
  String.append
    (String.concat " " (map (fun b => String.append "0x" (hex2 b)) d))
    newline.

Definition packed_length (length : Z) : bool :=
  (length =? 1) || (length =? 2) || (length =? 4) || (length =? 8).

(** The bytes [buf[i]], ..., [buf[i+n-1]] *)
Definition bytes_from (buf : list byte) (i n : nat) : list byte :=
  map (fun k => nth k buf x00) (seq i n).

(** The number a byte sequence stands for, most significant byte first *)
Definition decode_be (bytes : list byte) : Z :=
  fold_left (fun acc b => acc * 256 + Z.of_N (Byte.to_N b)) bytes 0.

(** The handle is closed when the run ends: the trace has a [Close] of
    the descriptor after the [Open_i2c_dev] that returned it. *)
Definition closes (file : Z) (t : list event) : bool :=
  existsb (fun ev => match ev with
                     | Close fd => fd =? file
                     | _ => false
                     end) t.



Definition is_pec_call (ev : event) : bool :=
  match ev with
  | Ioctl_PEC _ => true
  | _ => false
  end.

Definition pec_calls_of (t : list event) : list event :=
  filter is_pec_call t.



(** The [switch] of lines 247-253 on the first character of the mode
    argument: whether it has a [case], and the size that case selects. *)
Definition mode_known (m : string) : bool :=
  Ascii.eqb (char_at m 0) "b" || Ascii.eqb (char_at m 0) "w"
  || Ascii.eqb (char_at m 0) "c".

Definition mode_size (m : string) : Z :=
  if Ascii.eqb (char_at m 0) "b" then I2C_SMBUS_BYTE_DATA
  else if Ascii.eqb (char_at m 0) "w" then I2C_SMBUS_WORD_DATA
  else I2C_SMBUS_BYTE.

(** ** Vocabulary of the further properties *)

Definition is_stderr (ev : event) : bool :=
  match ev with
  | Stderr _ => true
  | _ => false
  end.

Definition not_stderr (ev : event) : bool := negb (is_stderr ev).

(** The life of the bus handle: not yet opened, opened, closed. *)
Inductive handle_state : Type := Not_open | Opened | Closed.

(** What an event does to the handle [file], and whether it may happen
    in the state [s] at all: the device is opened once, every call on it
    names [file] and falls between the opening and the one closing; the
    prompt and the allocation fall there too; the result is printed and
    the block freed only after the closing.  Diagnostics may come at any
    time. *)
Definition handle_step (file : Z) (s : handle_state) (ev : event)
  : option handle_state :=
  match ev, s with
  | Stderr _, _ => Some s
  | Open_i2c_dev _, Not_open => Some Opened
  | Ioctl_FUNCS fd, Opened
  | Set_slave_addr fd _ _, Opened
  | Ioctl_PEC fd, Opened
  | Sys_write fd _, Opened
  | Sys_read fd _, Opened
  | Smbus_read_byte fd, Opened
  | Smbus_read_word_data fd _, Opened
  | Smbus_read_byte_data fd _, Opened =>
    if fd =? file then Some Opened else None
  | User_ack _, Opened => Some Opened
  | Calloc _ _, Opened => Some Opened
  | Close fd, Opened => if fd =? file then Some Closed else None
  | Stdout _, Closed => Some Closed
  | Free, Closed => Some Closed
  | _, _ => None
  end.

Fixpoint handle_run (file : Z) (s : handle_state) (t : list event)
  : option handle_state :=
  match t with
  | [] => Some s
  | ev :: t' =>
    match handle_step file s ev with
    | Some s' => handle_run file s' t'
    | None => None
    end
  end.

(** The value of a hexadecimal digit, either case *)
Definition hex_digit_value (c : ascii) : option Z :=
  let n := Z.of_nat (nat_of_ascii c) in
  if (48 <=? n) && (n <=? 57) then Some (n - 48)
  else if (97 <=? n) && (n <=? 102) then Some (n - 87)
  else if (65 <=? n) && (n <=? 70) then Some (n - 55)
  else None.

(** The number a string of hexadecimal digits stands for, after [acc] *)
Fixpoint hex_value (s : string) (acc : Z) : option Z :=
  match s with
  | EmptyString => Some acc
  | String c s' =>
    match hex_digit_value c with
    | Some d => hex_value s' (acc * 16 + d)
    | None => None
    end
  end.

(** What the raw path prints for one byte: two hex digits, after the sign
    extension where plain [char] is signed and the byte is 0x80 or more *)
Definition printed_byte (e : env) (b : byte) : string :=
  if char_is_signed e && (128 <=? Z.of_N (Byte.to_N b))
  then String.append "FFFFFF" (hex2 b)
  else hex2 b.

(** The count [writeaddr] passes to [write] *)
Definition capped (len : Z) : Z :=
  if len >? MAX_ADDR_LEN then MAX_ADDR_LEN else len.

(** An environment like [e] where switching PEC on fails *)
Definition with_pec_failure (e : env) : env :=
  {| char_is_signed := char_is_signed e;
     strtol := strtol e;
     lookup_i2c_bus := lookup_i2c_bus e;
     parse_i2c_address := parse_i2c_address e;
     open_i2c_dev := open_i2c_dev e;
     ioctl_FUNCS := ioctl_FUNCS e;
     set_slave_addr := set_slave_addr e;
     typed := typed e;
     ioctl_PEC := fun _ => -1;
     out_of_memory := out_of_memory e;
     write := write e;
     read := read e;
     i2c_smbus_read_byte := i2c_smbus_read_byte e;
     i2c_smbus_read_word_data := i2c_smbus_read_word_data e;
     i2c_smbus_read_byte_data := i2c_smbus_read_byte_data e |}.

(** An environment like [e] where memory is short *)
Definition with_no_memory (e : env) : env :=
  {| char_is_signed := char_is_signed e;
     strtol := strtol e;
     lookup_i2c_bus := lookup_i2c_bus e;
     parse_i2c_address := parse_i2c_address e;
     open_i2c_dev := open_i2c_dev e;
     ioctl_FUNCS := ioctl_FUNCS e;
     set_slave_addr := set_slave_addr e;
     typed := typed e;
     ioctl_PEC := ioctl_PEC e;
     out_of_memory := true;
     write := write e;
     read := read e;
     i2c_smbus_read_byte := i2c_smbus_read_byte e;
     i2c_smbus_read_word_data := i2c_smbus_read_word_data e;
     i2c_smbus_read_byte_data := i2c_smbus_read_byte_data e |}.

(** What the structured read primitive selected by [size] returned, as
    stored in [res] (lines 285-295) *)
Definition structured_result (e : env) (file size daddress : Z) : Z :=
  if size =? I2C_SMBUS_BYTE then to_int (i2c_smbus_read_byte e file)
  else if size =? I2C_SMBUS_WORD_DATA
  then to_int (i2c_smbus_read_word_data e file (daddress mod 256))
  else to_int (i2c_smbus_read_byte_data e file (daddress mod 256)).

(** * Properties *)

(** The arithmetic stays folded while runs are simplified. *)
Arguments to_int z : simpl never.
Arguments to_size_t z : simpl never.
Arguments int_shr x n : simpl never.
Arguments infer_daddrlen fuel daddress daddrlen : simpl never.
Arguments fill_buf n adr len i : simpl never.
Arguments fmt_hex upper width n : simpl never.
Arguments fmt_02X e b : simpl never.
Arguments has_func funcs flag : simpl never.

(** ** Runs: sequencing *)

Lemma bind_Ret {A B} (m : M A) (f : A -> M B) (a : A) :
  outcome_of m = Ret a ->
  bind m f = (trace_of m ++ trace_of (f a), outcome_of (f a)).
Proof. unfold bind, outcome_of, trace_of. intros ->. reflexivity. Qed.

Lemma bind_Exit {A B} (m : M A) (f : A -> M B) (n : Z) :
  outcome_of m = Exit n -> bind m f = (trace_of m, Exit n).
Proof. unfold bind, outcome_of, trace_of. intros ->. reflexivity. Qed.

Lemma bind_Undefined {A B} (m : M A) (f : A -> M B) :
  outcome_of m = Undefined -> bind m f = (trace_of m, Undefined).
Proof. unfold bind, outcome_of, trace_of. intros ->. reflexivity. Qed.

Lemma bind_pair_Ret {A B} (t : list event) (a : A) (f : A -> M B) :
  bind (t, Ret a) f = (t ++ trace_of (f a), outcome_of (f a)).
Proof. reflexivity. Qed.

Lemma run_eta {A} (m : M A) : m = (trace_of m, outcome_of m).
Proof. destruct m; reflexivity. Qed.

Lemma bind_ret_l {A B} (a : A) (f : A -> M B) : bind (ret a) f = f a.
Proof. unfold bind, ret. cbn [fst snd app]. now destruct (f a). Qed.


(** A filter of the trace of a sequence, when the first part contributes
    nothing to it and the second nothing either. *)
Lemma filter_bind_nil {A B} (p : event -> bool) (m : M A) (f : A -> M B) :
  filter p (trace_of m) = [] ->
  (forall a, filter p (trace_of (f a)) = []) ->
  filter p (trace_of (bind m f)) = [].
Proof.
  intros Hm Hf. unfold bind, trace_of in *.
  destruct (snd m); simpl; auto.
  rewrite filter_app, Hm, Hf. reflexivity.
Qed.

Ltac break_if :=
  match goal with
  | |- context [if ?c then _ else _] => destruct c eqn:?
  end.

Ltac break_match :=
  match goal with
  | |- context [match ?c with _ => _ end] => destruct c eqn:?
  end.

(** ** C integers *)

Lemma to_int_range (z : Z) : INT_MIN <= to_int z <= INT_MAX.
Proof.
  unfold to_int, INT_MIN, INT_MAX.
  pose proof (Z.mod_pos_bound (z + 2 ^ 31) (2 ^ 32) ltac:(lia)). lia.
Qed.

Lemma to_int_id (z : Z) : INT_MIN <= z <= INT_MAX -> to_int z = z.
Proof.
  unfold to_int, INT_MIN, INT_MAX. intros H.
  rewrite Z.mod_small by lia. lia.
Qed.

Lemma to_size_t_id (z : Z) : 0 <= z <= INT_MAX -> to_size_t z = z.
Proof.
  unfold to_size_t, INT_MAX. intros H. apply Z.mod_small. lia.
Qed.

(** ** Option flags *)


Lemma length_checked_cases (len : Z) (s : string) :
  length_checked len s = ([], Ret tt) \/
  length_checked len s = ([Stderr Err_length_not_specified], Exit 1).
Proof.
  unfold length_checked.
  destruct (negb (at_end s) || (len =? 0)); [right|left]; reflexivity.
Qed.

Ltac check_length :=
  match goal with
  | |- context [length_checked ?l ?s] =>
    let E := fresh "E" in
    destruct (length_checked_cases l s) as [E|E]; rewrite E
  end.

(** A successful parse of the flags prints nothing, and the length it
    yields is an [int]. *)
Lemma parse_flags_ret (e : env) (args : list string) :
  forall (f0 f : flags_t) (pos : list string),
    outcome_of (parse_flags e args f0) = Ret (f, pos) ->
    trace_of (parse_flags e args f0) = [] /\
    (INT_MIN <= length f0 <= INT_MAX -> INT_MIN <= length f <= INT_MAX).
Proof.
  induction args as [args IH] using
    (well_founded_induction
       (Wf_nat.well_founded_ltof _ (@List.length string))).
  intros f0 f pos. destruct args as [|a rest]; simpl.
  - intros H. inversion H; subst. auto.
  - destruct (negb (Ascii.eqb (char_at a 0) "-")).
    { simpl. intros H. inversion H; subst. auto. }
    assert (Hrest : Wf_nat.ltof _ (@List.length string) rest (a :: rest))
      by (unfold Wf_nat.ltof; simpl; lia).
    destruct (Ascii.eqb (char_at a 1) "V").
    { intros H. apply (IH _ Hrest) in H. simpl in H. exact H. }
    destruct (Ascii.eqb (char_at a 1) "f").
    { intros H. apply (IH _ Hrest) in H. simpl in H. exact H. }
    destruct (Ascii.eqb (char_at a 1) "y").
    { intros H. apply (IH _ Hrest) in H. simpl in H. exact H. }
    destruct (Ascii.eqb (char_at a 1) "l").
    2:{ simpl. discriminate. }
    destruct rest as [|b rest'].
    + check_length; simpl.
      * intros H. inversion H; subst. simpl.
        split; [reflexivity|]. intros _. apply to_int_range.
      * discriminate.
    + destruct (at_end (snd (strtol e (str_drop 2 a)))
                && (to_int (fst (strtol e (str_drop 2 a))) =? 0)).
      * check_length.
        -- rewrite bind_pair_Ret. unfold outcome_of, trace_of. simpl.
           intros H.
           assert (Hr : Wf_nat.ltof _ (@List.length string) rest'
                          (a :: b :: rest'))
             by (unfold Wf_nat.ltof; simpl; lia).
           apply (IH _ Hr) in H. simpl in H. destruct H as [H1 H2].
           split; [exact H1|]. intros _. apply H2. apply to_int_range.
        -- simpl. discriminate.
      * check_length.
        -- rewrite bind_pair_Ret. unfold outcome_of, trace_of.
           cbn [fst snd app].
           intros H. apply (IH _ Hrest) in H. cbn [length] in H.
           destruct H as [H1 H2].
           split; [exact H1|]. intros _. apply H2. apply to_int_range.
        -- simpl. discriminate.
Qed.

(** [main] after a successful parse of the flags is [run]. *)
Lemma main_run (e : env) (argv : list string) (f : flags_t)
      (pos : list string) :
  outcome_of (parse_flags e (tl argv) no_flags) = Ret (f, pos) ->
  main e argv = run e f pos.
Proof.
  intros H. unfold main.
  rewrite (bind_Ret _ _ _ H).
  destruct (parse_flags_ret e _ _ _ _ H) as [-> _]. simpl.
  symmetry. apply run_eta.
Qed.

Lemma main_length_int (e : env) (argv : list string) (f : flags_t)
      (pos : list string) :
  outcome_of (parse_flags e (tl argv) no_flags) = Ret (f, pos) ->
  INT_MIN <= length f <= INT_MAX.
Proof.
  intros H. apply (parse_flags_ret e _ _ _ _ H).
  unfold INT_MIN, INT_MAX; simpl; lia.
Qed.

(** ** The inferred address width *)

Lemma shr_zero_iff (d k : Z) :
  0 <= d -> 0 <= k -> (Z.shiftr d k =? 0) = (d <? 2 ^ k).
Proof.
  intros Hd Hk. rewrite Z.shiftr_div_pow2 by assumption.
  assert (0 < 2 ^ k) by (apply Z.pow_pos_nonneg; lia).
  destruct (d <? 2 ^ k) eqn:E.
  - apply Z.ltb_lt in E. apply Z.eqb_eq. apply Z.div_small. lia.
  - apply Z.ltb_ge in E. apply Z.eqb_neq. intros C.
    apply Z.div_small_iff in C; lia.
Qed.

(** The loop in closed form: the width is the number of bytes of
    [daddress] up to 3, and from [2^24] on the loop reaches the shift by 32
    bits. *)
Lemma infer_daddrlen_eq (d : Z) :
  0 <= d ->
  infer_daddrlen 4 d 0 =
  if d <? 2 ^ 0 then Width 0
  else if d <? 2 ^ 8 then Width 1
  else if d <? 2 ^ 16 then Width 2
  else if d <? 2 ^ 24 then Width 3
  else Shift_undefined.
Proof.
  intros Hd. unfold infer_daddrlen, int_shr.
  change (8 * 0) with 0. change (8 * (0 + 1)) with 8.
  change (8 * (0 + 1 + 1)) with 16. change (8 * (0 + 1 + 1 + 1)) with 24.
  change (8 * (0 + 1 + 1 + 1 + 1)) with 32.
  change ((0 <=? 0) && (0 <? INT_BITS)) with true.
  change ((0 <=? 8) && (8 <? INT_BITS)) with true.
  change ((0 <=? 16) && (16 <? INT_BITS)) with true.
  change ((0 <=? 24) && (24 <? INT_BITS)) with true.
  change ((0 <=? 32) && (32 <? INT_BITS)) with false.
  cbv iota.
  rewrite !shr_zero_iff by lia.
  change (0 + 1) with 1. change (1 + 1) with 2. change (2 + 1) with 3.
  destruct (d <? 2 ^ 0); [reflexivity|].
  destruct (d <? 2 ^ 8); [reflexivity|].
  destruct (d <? 2 ^ 16); [reflexivity|].
  destruct (d <? 2 ^ 24); reflexivity.
Qed.

(** Four rounds of fuel are all the loop can use. *)
Lemma infer_daddrlen_fuel (d : Z) :
  0 <= d -> infer_daddrlen 4 d 0 <> Out_of_fuel.
Proof.
  intros Hd. rewrite infer_daddrlen_eq by assumption.
  repeat break_if; discriminate.
Qed.

Lemma infer_daddrlen_width (d n : Z) :
  0 <= d ->
  infer_daddrlen 4 d 0 = Width n ->
  0 <= n <= 3 /\ d < 2 ^ 24 /\ d < 2 ^ (8 * n) /\
  (forall m, 0 <= m < n -> 2 ^ (8 * m) <= d).
Proof.
  intros Hd. rewrite infer_daddrlen_eq by assumption.
  destruct (d <? 2 ^ 0) eqn:E0; [|apply Z.ltb_ge in E0].
  { apply Z.ltb_lt in E0. intros H; inversion H; subst.
    repeat split; try lia. }
  destruct (d <? 2 ^ 8) eqn:E1; [|apply Z.ltb_ge in E1].
  { apply Z.ltb_lt in E1. intros H; inversion H; subst.
    repeat split; try lia. intros m Hm. replace m with 0 by lia. exact E0. }
  destruct (d <? 2 ^ 16) eqn:E2; [|apply Z.ltb_ge in E2].
  { apply Z.ltb_lt in E2. intros H; inversion H; subst.
    repeat split; try lia. intros m Hm.
    assert (m = 0 \/ m = 1) as [->| ->] by lia; assumption. }
  destruct (d <? 2 ^ 24) eqn:E3; [|discriminate].
  apply Z.ltb_lt in E3. intros H; inversion H; subst.
  repeat split; try lia. intros m Hm.
  assert (m = 0 \/ m = 1 \/ m = 2) as [->|[->| ->]] by lia; assumption.
Qed.

(** ** Positional arguments *)


(** A register address that was accepted: what [parse_daddress] returned. *)
Lemma parse_daddress_ret (e : env) (rest : list string) (sz da dl : Z) :
  outcome_of (parse_daddress e rest) = Ret (sz, da, dl) ->
  parse_daddress e rest = ([], Ret (sz, da, dl)) /\
  ((rest = [] /\ sz = I2C_SMBUS_BYTE /\ da = -1 /\ dl = 0) \/
   (exists d rest', rest = d :: rest' /\ sz = I2C_SMBUS_BYTE_DATA /\
      da = to_int (fst (strtol e d)) /\ at_end (snd (strtol e d)) = true /\
      0 <= da /\ infer_daddrlen 4 da 0 = Width dl)).
Proof.
  unfold parse_daddress. destruct rest as [|d rest'].
  - simpl. intros H; inversion H; subst. split; [reflexivity|]. left. auto.
  - destruct (at_end (snd (strtol e d))) eqn:Eend; simpl.
    2:{ discriminate. }
    destruct (0 <=? to_int (fst (strtol e d))) eqn:Ege; simpl.
    2:{ discriminate. }
    apply Z.leb_le in Ege.
    destruct (infer_daddrlen 4 (to_int (fst (strtol e d))) 0) eqn:Ew;
      simpl; try discriminate.
    intros H; inversion H; subst. split; [reflexivity|].
    right. exists d, rest'. repeat split; auto.
Qed.

Lemma parse_mode_ret (rest : list string) (sz size' : Z) (pec' : bool) :
  outcome_of (parse_mode rest sz) = Ret (size', pec') ->
  parse_mode rest sz = ([], Ret (size', pec')) /\
  ((size' = sz /\ pec' = false /\
    (rest = [] \/ exists d, rest = [d])) \/
   (exists d m more, rest = d :: m :: more /\
      pec' = Ascii.eqb (char_at m 1) "p" /\
      ((char_at m 0 = "b"%char /\ size' = I2C_SMBUS_BYTE_DATA) \/
       (char_at m 0 = "w"%char /\ size' = I2C_SMBUS_WORD_DATA) \/
       (char_at m 0 = "c"%char /\ size' = I2C_SMBUS_BYTE)))).
Proof.
  unfold parse_mode. destruct rest as [|d [|m more]].
  - simpl. intros H; inversion H; subst. split; [reflexivity|]. left. auto.
  - simpl. intros H; inversion H; subst. split; [reflexivity|].
    left. repeat split; auto. right. now exists d.
  - destruct (Ascii.eqb (char_at m 0) "b") eqn:Eb.
    { simpl. intros H; inversion H; subst. split; [reflexivity|].
      right. exists d, m, more. apply Ascii.eqb_eq in Eb. auto. }
    destruct (Ascii.eqb (char_at m 0) "w") eqn:Ew.
    { simpl. intros H; inversion H; subst. split; [reflexivity|].
      right. exists d, m, more. apply Ascii.eqb_eq in Ew. auto 6. }
    destruct (Ascii.eqb (char_at m 0) "c") eqn:Ec.
    { simpl. intros H; inversion H; subst. split; [reflexivity|].
      right. exists d, m, more. apply Ascii.eqb_eq in Ec. auto 6. }
    simpl. discriminate.
Qed.

(** Accepted positional arguments: nothing was printed, and the request is
    made of the results of the two steps. *)
Lemma parse_positional_ret (e : env) (pos : list string) (rq : request) :
  outcome_of (parse_positional e pos) = Ret rq ->
  parse_positional e pos = ([], Ret rq) /\
  exists bus_arg addr_arg rest sz,
    pos = bus_arg :: addr_arg :: rest /\
    i2cbus rq = lookup_i2c_bus e bus_arg /\ 0 <= i2cbus rq /\
    address rq = parse_i2c_address e addr_arg /\ 0 <= address rq /\
    parse_daddress e rest = ([], Ret (sz, daddress rq, daddrlen rq)) /\
    parse_mode rest sz = ([], Ret (size rq, pec rq)).
Proof.
  unfold parse_positional.
  destruct pos as [|bus_arg [|addr_arg rest]]; try (simpl; discriminate).
  destruct (lookup_i2c_bus e bus_arg <? 0) eqn:Eb; [simpl; discriminate|].
  destruct (parse_i2c_address e addr_arg <? 0) eqn:Ea;
    [simpl; discriminate|].
  apply Z.ltb_ge in Eb, Ea.
  destruct (outcome_of (parse_daddress e rest)) as [[[sz da] dl]| |] eqn:Ed.
  2:{ rewrite (bind_Exit _ _ _ Ed). simpl. discriminate. }
  2:{ rewrite (bind_Undefined _ _ Ed). simpl. discriminate. }
  destruct (parse_daddress_ret _ _ _ _ _ Ed) as [Ed' _].
  rewrite Ed'. rewrite bind_pair_Ret. cbn [fst snd app].
  destruct (outcome_of (parse_mode rest sz)) as [[size' pec']| |] eqn:Em.
  2:{ unfold trace_of, outcome_of. rewrite (bind_Exit _ _ _ Em).
      simpl. discriminate. }
  2:{ unfold trace_of, outcome_of. rewrite (bind_Undefined _ _ Em).
      simpl. discriminate. }
  destruct (parse_mode_ret _ _ _ _ Em) as [Em' _].
  rewrite Em'. simpl. intros H; inversion H; subst; simpl.
  split; [reflexivity|].
  exists bus_arg, addr_arg, rest, sz. repeat split; auto.
Qed.

(** The width that comes with an accepted request keeps [writeaddr]
    within its [len >= 0] domain. *)
Lemma request_daddrlen (e : env) (pos : list string) (rq : request) :
  outcome_of (parse_positional e pos) = Ret rq ->
  0 <= daddrlen rq <= 3 /\
  (daddress rq = 0 -> daddrlen rq = 0) /\
  INT_MIN <= daddress rq <= INT_MAX.
Proof.
  intros H. destruct (parse_positional_ret _ _ _ H)
    as (_ & b & a & rest & sz & _ & _ & _ & _ & _ & Hd & _).
  assert (Hd' : outcome_of (parse_daddress e rest)
                = Ret (sz, daddress rq, daddrlen rq)) by now rewrite Hd.
  destruct (parse_daddress_ret _ _ _ _ _ Hd')
    as [_ [(_ & _ & Hda & Hdl)|(d & rest' & _ & _ & Hda & _ & Hge & Hw)]].
  - rewrite Hda, Hdl. unfold INT_MIN, INT_MAX. repeat split; lia.
  - pose proof (infer_daddrlen_width _ _ Hge Hw) as (Hn & _ & _ & Hmin).
    repeat split; try lia.
    + intros Hz. rewrite Hz in *.
      destruct (Z.eq_dec (daddrlen rq) 0) as [|Hne]; [assumption|].
      specialize (Hmin 0 ltac:(lia)). simpl in Hmin. lia.
    + rewrite Hda. apply to_int_range.
    + rewrite Hda. apply to_int_range.
Qed.

(** ** Which events a step can produce *)

Section Filters.
Variable p : event -> bool.

Lemma filter_ret_nil {A} (a : A) : filter p (trace_of (ret a)) = [].
Proof. reflexivity. Qed.

Lemma filter_exit_nil {A} (n : Z) : filter p (trace_of (@exit A n)) = [].
Proof. reflexivity. Qed.

Lemma filter_call_nil {A} (ev : event) (a : A) :
  p ev = false -> filter p (trace_of (call ev a)) = [].
Proof. intros H. simpl. now rewrite H. Qed.

Lemma filter_emit_nil (ev : event) :
  p ev = false -> filter p (trace_of (emit ev)) = [].
Proof. intros H. simpl. now rewrite H. Qed.

Hypothesis p_stderr : forall d, p (Stderr d) = false.

Lemma filter_stderr_nil (d : diag) :
  filter p (trace_of (fprintf_stderr d)) = [].
Proof. apply filter_emit_nil, p_stderr. Qed.

Lemma filter_help_nil {A} : filter p (trace_of (@help A)) = [].
Proof. simpl. now rewrite p_stderr. Qed.

Ltac quiet :=
  repeat first
    [ reflexivity
    | apply filter_stderr_nil
    | apply filter_ret_nil
    | apply filter_exit_nil
    | apply filter_bind_nil; [|intros ?]
    | solve [apply filter_call_nil; auto]
    | solve [apply filter_emit_nil; auto]
    | break_if ].

Lemma check_funcs_pec_quiet (funcs : Z) (pec : bool) :
  filter p (trace_of (check_funcs_pec funcs pec)) = [].
Proof. unfold check_funcs_pec. quiet. Qed.

Lemma check_funcs_quiet (e : env) (file size daddress : Z) (pec : bool) :
  (forall fd, p (Ioctl_FUNCS fd) = false) ->
  filter p (trace_of (check_funcs e file size daddress pec)) = [].
Proof.
  intros H. unfold check_funcs.
  apply filter_bind_nil; [apply filter_call_nil, H|intros r].
  repeat first
    [ apply check_funcs_pec_quiet
    | apply filter_bind_nil; [|intros ?]
    | apply filter_stderr_nil
    | apply filter_ret_nil
    | break_if ].
Qed.

Lemma confirm_quiet (e : env) (address size daddress : Z) (pec : bool) :
  (forall d, p (User_ack d) = false) ->
  filter p (trace_of (confirm e address size daddress pec)) = [].
Proof. intros H. unfold confirm. quiet. Qed.

Lemma open_device_quiet (e : env) (f : flags_t) (rq : request) :
  (forall b, p (Open_i2c_dev b) = false) ->
  (forall fd, p (Ioctl_FUNCS fd) = false) ->
  (forall fd a fo, p (Set_slave_addr fd a fo) = false) ->
  filter p (trace_of (open_device e f rq)) = [].
Proof.
  intros H1 H2 H3. unfold open_device.
  apply filter_bind_nil; [apply filter_call_nil, H1|intros file].
  break_if; [apply filter_exit_nil|].
  apply filter_bind_nil; [apply check_funcs_quiet, H2|intros c].
  quiet.
Qed.

Lemma ask_quiet (e : env) (f : flags_t) (rq : request) :
  (forall d, p (User_ack d) = false) ->
  filter p (trace_of (ask e f rq)) = [].
Proof.
  intros H. unfold ask. break_if; [|apply filter_ret_nil].
  apply filter_bind_nil; [apply confirm_quiet, H|intros c]. quiet.
Qed.

Lemma enable_pec_quiet (e : env) (rq : request) (file : Z) :
  (forall fd, p (Ioctl_PEC fd) = false) ->
  (forall fd, p (Close fd) = false) ->
  filter p (trace_of (enable_pec e rq file)) = [].
Proof. intros H1 H2. unfold enable_pec. quiet. Qed.

(** Opening, checking, asking and enabling PEC produce only the events
    of those steps. *)
Lemma open_and_check_quiet (e : env) (f : flags_t) (rq : request) :
  (forall b, p (Open_i2c_dev b) = false) ->
  (forall fd, p (Ioctl_FUNCS fd) = false) ->
  (forall fd a fo, p (Set_slave_addr fd a fo) = false) ->
  (forall d, p (User_ack d) = false) ->
  (forall fd, p (Ioctl_PEC fd) = false) ->
  (forall fd, p (Close fd) = false) ->
  filter p (trace_of (open_and_check e f rq)) = [].
Proof.
  intros. unfold open_and_check.
  apply filter_bind_nil; [now apply open_device_quiet|intros file].
  apply filter_bind_nil; [now apply ask_quiet|intros _].
  apply filter_bind_nil; [now apply enable_pec_quiet|intros _].
  apply filter_ret_nil.
Qed.

Lemma writeaddr_quiet (e : env) (file adr len : Z) :
  (forall fd b, p (Sys_write fd b) = false) ->
  filter p (trace_of (writeaddr e file adr len)) = [].
Proof. intros H. unfold writeaddr. quiet. Qed.

Lemma print_packed_quiet (e : env) (buf : list byte) (n : nat) :
  (forall s, p (Stdout s) = false) ->
  forall i, filter p (trace_of (print_packed e buf n i)) = [].
Proof.
  intros H. induction n as [|n IH]; intros i; simpl print_packed.
  - reflexivity.
  - apply filter_bind_nil; [apply filter_emit_nil, H|intros _]. apply IH.
Qed.

Lemma print_separate_quiet (e : env) (buf : list byte) (n : nat) :
  (forall s, p (Stdout s) = false) ->
  forall i, filter p (trace_of (print_separate e buf n i)) = [].
Proof.
  intros H. induction n as [|n IH]; intros i; simpl print_separate.
  - reflexivity.
  - apply filter_bind_nil.
    { break_if; [apply filter_emit_nil, H|reflexivity]. }
    intros _.
    apply filter_bind_nil; [apply filter_emit_nil, H|intros _]. apply IH.
Qed.

Lemma report_quiet (e : env) (length size res : Z) (buf : list byte) :
  (forall s, p (Stdout s) = false) ->
  p Free = false ->
  filter p (trace_of (report e length size res buf)) = [].
Proof.
  intros H1 H2. unfold report.
  repeat first
    [ apply print_packed_quiet; assumption
    | apply print_separate_quiet; assumption
    | apply filter_stderr_nil
    | apply filter_ret_nil
    | apply filter_exit_nil
    | apply filter_bind_nil; [|intros ?]
    | solve [apply filter_emit_nil; auto]
    | break_if ].
Qed.

End Filters.

(** ** The plan a run executed *)

Lemma plans_of_reads (t : list event) : plans_of t = plans_of (reads_of t).
Proof.
  induction t as [|ev t IH]; [reflexivity|].
  destruct ev; simpl; rewrite <- ?IH; reflexivity.
Qed.

Lemma stdout_of_filter (t : list event) :
  filter is_stdout t = [] -> stdout_of t = EmptyString.
Proof.
  induction t as [|ev t IH]; [reflexivity|].
  destruct ev; simpl; try exact IH. discriminate.
Qed.

Lemma stdout_of_app (t1 t2 : list event) :
  stdout_of (t1 ++ t2) = String.append (stdout_of t1) (stdout_of t2).
Proof.
  induction t1 as [|ev t1 IH]; [reflexivity|].
  destruct ev; simpl; try exact IH.
  rewrite IH. clear IH. induction s as [|c s IHs]; simpl; [reflexivity|].
  now rewrite IHs.
Qed.

(** ** Sequencing and filters *)

Lemma trace_bind_Ret {A B} (m : M A) (f : A -> M B) (a : A) :
  outcome_of m = Ret a ->
  trace_of (bind m f) = trace_of m ++ trace_of (f a).
Proof. intros H. now rewrite (bind_Ret _ _ _ H). Qed.

Lemma outcome_bind_Ret {A B} (m : M A) (f : A -> M B) (a : A) :
  outcome_of m = Ret a -> outcome_of (bind m f) = outcome_of (f a).
Proof. intros H. now rewrite (bind_Ret _ _ _ H). Qed.

Lemma filter_bind_r {A B} (p : event -> bool) (m : M A) (f : A -> M B)
      (a : A) :
  outcome_of m = Ret a ->
  filter p (trace_of m) = [] ->
  filter p (trace_of (bind m f)) = filter p (trace_of (f a)).
Proof.
  intros H Hm. rewrite (trace_bind_Ret _ _ _ H), filter_app, Hm. reflexivity.
Qed.

Lemma filter_bind_l {A B} (p : event -> bool) (m : M A) (f : A -> M B) :
  (forall a, filter p (trace_of (f a)) = []) ->
  filter p (trace_of (bind m f)) = filter p (trace_of m).
Proof.
  intros Hf. unfold bind, trace_of in *. destruct (snd m); simpl; auto.
  rewrite filter_app, Hf, app_nil_r. reflexivity.
Qed.

(** ** writeaddr *)


Lemma writeaddr_eq (e : env) (file adr len : Z) :
  0 <= adr -> 0 <= len ->
  writeaddr e file adr len =
  (Sys_write file (encoded adr len)
     :: (if write e file (encoded adr len)
            =? (if len >? MAX_ADDR_LEN then MAX_ADDR_LEN else len)
         then [] else [Stderr Warn_write_failed]),
   Ret tt).
Proof.
  intros Ha Hl. unfold writeaddr, encoded.
  apply Z.leb_le in Ha. rewrite Ha.
  set (len' := if len >? MAX_ADDR_LEN then MAX_ADDR_LEN else len).
  assert (Hl' : (len' <? 0) = false).
  { apply Z.ltb_ge. unfold len', MAX_ADDR_LEN. destruct (len >? 2); lia. }
  rewrite Hl'.
  set (buf := fill_buf (Z.to_nat len') adr len' 0).
  unfold bind, call. cbn [fst snd].
  destruct (write e file buf =? len'); reflexivity.
Qed.

Lemma writeaddr_absent (e : env) (file adr len : Z) :
  adr < 0 -> writeaddr e file adr len = ([], Ret tt).
Proof.
  intros Ha. unfold writeaddr. apply Z.leb_gt in Ha. now rewrite Ha.
Qed.

Lemma writeaddr_ret (e : env) (file adr len : Z) :
  0 <= len -> outcome_of (writeaddr e file adr len) = Ret tt.
Proof.
  intros Hl. destruct (Z.le_gt_cases 0 adr) as [Ha|Ha].
  - now rewrite writeaddr_eq.
  - now rewrite writeaddr_absent by lia.
Qed.

Lemma writeaddr_traffic (e : env) (file adr len : Z) :
  0 <= len ->
  traffic_of (trace_of (writeaddr e file adr len)) =
  if 0 <=? adr then [Sys_write file (encoded adr len)] else [].
Proof.
  intros Hl. destruct (0 <=? adr) eqn:Ha.
  - apply Z.leb_le in Ha. rewrite writeaddr_eq by assumption.
    unfold traffic_of. simpl. break_if; reflexivity.
  - apply Z.leb_gt in Ha. now rewrite writeaddr_absent by lia.
Qed.

(** ** The transaction *)

(** The raw path with memory at hand: one [calloc], the address bytes,
    one [read] of [length] bytes. *)
Lemma transaction_raw (e : env) (file length size daddress daddrlen : Z) :
  0 < length <= INT_MAX -> out_of_memory e = false -> 0 <= daddrlen ->
  transaction e file length size daddress daddrlen =
  (Calloc length sizeof_int
     :: (trace_of (writeaddr e file daddress daddrlen)
         ++ [Sys_read file length]),
   Ret (read_result e file length
          (repeat x00 (Z.to_nat (length * sizeof_int))))).
Proof.
  intros Hlen Hmem Hdl. unfold transaction.
  assert (E : (length =? 0) = false) by (apply Z.eqb_neq; lia).
  rewrite E. cbn [negb].
  rewrite to_size_t_id by lia.
  unfold calloc. rewrite Hmem.
  assert (E2 : (length * sizeof_int >? SIZE_MAX) = false).
  { unfold INT_MAX, sizeof_int, SIZE_MAX in *.
    destruct (length * 4 >? 2 ^ 64 - 1) eqn:C; [|reflexivity].
    apply Z.gtb_lt in C. lia. }
  rewrite E2. cbn [orb].
  unfold call at 1. rewrite bind_pair_Ret. cbn [trace_of outcome_of fst snd].
  rewrite (bind_Ret _ _ _ (writeaddr_ret e file daddress daddrlen Hdl)).
  cbn [fst snd app]. unfold call, bind, read_result. cbn [fst snd].
  destruct (read e file length); reflexivity.
Qed.

(** The raw path without memory: the handle is closed and the run ends. *)
Lemma transaction_no_memory (e : env) (file length size daddress daddrlen : Z) :
  length <> 0 ->
  (to_size_t length * sizeof_int >? SIZE_MAX) || out_of_memory e = true ->
  transaction e file length size daddress daddrlen =
  ([Calloc (to_size_t length) sizeof_int; Stderr Err_alloc; Close file],
   Exit 1).
Proof.
  intros Hlen Hmem. unfold transaction.
  apply Z.eqb_neq in Hlen. rewrite Hlen. cbn [negb].
  unfold calloc. rewrite Hmem. reflexivity.
Qed.

(** A negative length asks [calloc] for more than a [size_t] can count. *)
Lemma negative_length_no_memory (length : Z) :
  INT_MIN <= length < 0 ->
  (to_size_t length * sizeof_int >? SIZE_MAX) = true.
Proof.
  unfold INT_MIN, to_size_t, sizeof_int, SIZE_MAX. intros H.
  apply Z.gtb_lt.
  replace (length mod 2 ^ 64) with (length + 2 ^ 64).
  - lia.
  - symmetry. rewrite <- (Z.mod_small (length + 2 ^ 64) (2 ^ 64)) by lia.
    rewrite <- Z.add_mod_idemp_r by lia.
    rewrite Z.mod_same by lia. now rewrite Z.add_0_r.
Qed.


(** The structured paths ([length = 0]): the address bytes go out first
    only for [I2C_SMBUS_BYTE]. *)
Lemma transaction_structured (e : env) (file size daddress daddrlen : Z) :
  0 <= daddrlen ->
  transaction e file 0 size daddress daddrlen =
  if size =? I2C_SMBUS_BYTE then
    (trace_of (writeaddr e file daddress daddrlen) ++ [Smbus_read_byte file],
     Ret (to_int (i2c_smbus_read_byte e file), []))
  else if size =? I2C_SMBUS_WORD_DATA then
    ([Smbus_read_word_data file (daddress mod 256)],
     Ret (to_int (i2c_smbus_read_word_data e file (daddress mod 256)), []))
  else
    ([Smbus_read_byte_data file (daddress mod 256)],
     Ret (to_int (i2c_smbus_read_byte_data e file (daddress mod 256)), [])).
Proof.
  intros Hdl. unfold transaction. cbn [Z.eqb negb].
  destruct (size =? I2C_SMBUS_BYTE).
  - rewrite (bind_Ret _ _ _ (writeaddr_ret e file daddress daddrlen Hdl)).
    reflexivity.
  - destruct (size =? I2C_SMBUS_WORD_DATA); reflexivity.
Qed.

(** ** run, step by step *)

Lemma run_version (e : env) (f : flags_t) (pos : list string) :
  version f = true -> run e f pos = ([Stderr Version_banner], Exit 0).
Proof. intros H. unfold run. rewrite H. reflexivity. Qed.

Lemma run_eq (e : env) (f : flags_t) (pos : list string) (rq : request) :
  version f = false ->
  outcome_of (parse_positional e pos) = Ret rq ->
  run e f pos = (file <- open_and_check e f rq ;; read_and_report e f rq file).
Proof.
  intros Hv Hp. unfold run. rewrite Hv. rewrite bind_ret_l.
  destruct (parse_positional_ret _ _ _ Hp) as [-> _].
  apply (bind_ret_l rq).
Qed.

Lemma run_rejected (e : env) (f : flags_t) (pos : list string) (n : Z) :
  version f = false ->
  outcome_of (parse_positional e pos) = Exit n ->
  run e f pos = (trace_of (parse_positional e pos), Exit n).
Proof.
  intros Hv Hp. unfold run. rewrite Hv. rewrite bind_ret_l.
  now rewrite (bind_Exit _ _ _ Hp).
Qed.

(** Once the device is open, checked and confirmed, the rest of the run
    is the transaction and the report. *)
Lemma run_after_setup (e : env) (f : flags_t) (pos : list string)
      (rq : request) (file : Z) :
  version f = false ->
  outcome_of (parse_positional e pos) = Ret rq ->
  outcome_of (open_and_check e f rq) = Ret file ->
  run e f pos =
  (trace_of (open_and_check e f rq) ++ trace_of (read_and_report e f rq file),
   outcome_of (read_and_report e f rq file)).
Proof.
  intros Hv Hp Ho. rewrite (run_eq _ _ _ _ Hv Hp).
  apply (bind_Ret _ _ _ Ho).
Qed.

Lemma run_setup_exit (e : env) (f : flags_t) (pos : list string)
      (rq : request) (n : Z) :
  version f = false ->
  outcome_of (parse_positional e pos) = Ret rq ->
  outcome_of (open_and_check e f rq) = Exit n ->
  run e f pos = (trace_of (open_and_check e f rq), Exit n).
Proof.
  intros Hv Hp Ho. rewrite (run_eq _ _ _ _ Hv Hp).
  apply (bind_Exit _ _ _ Ho).
Qed.

(** The setup never leaves the C semantics: it continues or exits. *)
Lemma check_funcs_outcome (e : env) (file size daddress : Z) (pec : bool) :
  outcome_of (check_funcs e file size daddress pec) = Ret 0 \/
  outcome_of (check_funcs e file size daddress pec) = Ret (-1).
Proof.
  unfold check_funcs, check_funcs_pec, bind, call, fprintf_stderr, emit, ret,
    outcome_of.
  cbn [fst snd]. repeat (break_if; cbn [fst snd]); auto.
Qed.

Lemma confirm_outcome (e : env) (address size daddress : Z) (pec : bool) :
  outcome_of (confirm e address size daddress pec) = Ret 0 \/
  outcome_of (confirm e address size daddress pec) = Ret 1.
Proof.
  unfold confirm, bind, call, fprintf_stderr, emit, ret, outcome_of.
  cbn [fst snd]. repeat (break_if; cbn [fst snd]); auto.
Qed.

Lemma open_device_outcome (e : env) (f : flags_t) (rq : request) :
  outcome_of (open_device e f rq) = Exit 1 \/
  outcome_of (open_device e f rq) = Ret (open_i2c_dev e (i2cbus rq)).
Proof.
  unfold open_device. unfold call. rewrite bind_pair_Ret.
  cbn [trace_of outcome_of fst snd].
  destruct (open_i2c_dev e (i2cbus rq) <? 0); [left; reflexivity|].
  destruct (check_funcs_outcome e (open_i2c_dev e (i2cbus rq)) (size rq)
              (daddress rq) (pec rq)) as [H|H];
    rewrite (bind_Ret _ _ _ H); cbn [fst snd trace_of outcome_of].
  - cbn [Z.eqb negb]. unfold bind. cbn [fst snd].
    break_if; auto.
  - left. reflexivity.
Qed.

Lemma ask_outcome (e : env) (f : flags_t) (rq : request) :
  outcome_of (ask e f rq) = Exit 0 \/ outcome_of (ask e f rq) = Ret tt.
Proof.
  unfold ask. destruct (negb (yes f)); [|right; reflexivity].
  destruct (confirm_outcome e (address rq) (size rq) (daddress rq) (pec rq))
    as [H|H]; rewrite (bind_Ret _ _ _ H); [left|right]; reflexivity.
Qed.

Lemma enable_pec_outcome (e : env) (rq : request) (file : Z) :
  outcome_of (enable_pec e rq file) = Exit 1 \/
  outcome_of (enable_pec e rq file) = Ret tt.
Proof.
  unfold enable_pec, bind, call, fprintf_stderr, emit, ret, exit, outcome_of.
  cbn [fst snd]. repeat (break_if; cbn [fst snd]); auto.
Qed.

Lemma open_and_check_outcome (e : env) (f : flags_t) (rq : request) :
  outcome_of (open_and_check e f rq) = Exit 0 \/
  outcome_of (open_and_check e f rq) = Exit 1 \/
  outcome_of (open_and_check e f rq) = Ret (open_i2c_dev e (i2cbus rq)).
Proof.
  unfold open_and_check.
  destruct (open_device_outcome e f rq) as [H|H].
  { rewrite (bind_Exit _ _ _ H). auto. }
  rewrite (bind_Ret _ _ _ H). cbn [outcome_of snd].
  destruct (ask_outcome e f rq) as [Ha|Ha].
  { rewrite (bind_Exit _ _ _ Ha). auto. }
  rewrite (bind_Ret _ _ _ Ha). cbn [outcome_of snd].
  destruct (enable_pec_outcome e rq (open_i2c_dev e (i2cbus rq))) as [He|He].
  { rewrite (bind_Exit _ _ _ He). auto. }
  rewrite (bind_Ret _ _ _ He). auto.
Qed.

(** When the setup lets the run through, each of its steps did. *)
Lemma open_and_check_ret (e : env) (f : flags_t) (rq : request) (file : Z) :
  outcome_of (open_and_check e f rq) = Ret file ->
  file = open_i2c_dev e (i2cbus rq) /\
  outcome_of (open_device e f rq) = Ret file /\
  outcome_of (ask e f rq) = Ret tt /\
  outcome_of (enable_pec e rq file) = Ret tt /\
  trace_of (open_and_check e f rq) =
  trace_of (open_device e f rq) ++ trace_of (ask e f rq)
  ++ trace_of (enable_pec e rq file).
Proof.
  unfold open_and_check.
  destruct (open_device_outcome e f rq) as [H|H].
  { rewrite (bind_Exit _ _ _ H). cbn. discriminate. }
  rewrite (bind_Ret _ _ _ H). cbn [outcome_of trace_of fst snd].
  destruct (ask_outcome e f rq) as [Ha|Ha].
  { rewrite (bind_Exit _ _ _ Ha). cbn. discriminate. }
  rewrite (bind_Ret _ _ _ Ha). cbn [outcome_of trace_of fst snd].
  destruct (enable_pec_outcome e rq (open_i2c_dev e (i2cbus rq))) as [He|He].
  { rewrite (bind_Exit _ _ _ He). cbn. discriminate. }
  rewrite (bind_Ret _ _ _ He). cbn [outcome_of trace_of fst snd ret].
  intros E. inversion E; subst. rewrite app_nil_r. auto.
Qed.

(** Events of the bus itself (address bytes and reads) come only from the
    transaction. *)
Section Bus_events.
Variable p : event -> bool.
Hypothesis p_stderr : forall d, p (Stderr d) = false.
Hypothesis p_stdout : forall s, p (Stdout s) = false.
Hypothesis p_open : forall b, p (Open_i2c_dev b) = false.
Hypothesis p_funcs : forall fd, p (Ioctl_FUNCS fd) = false.
Hypothesis p_slave : forall fd a fo, p (Set_slave_addr fd a fo) = false.
Hypothesis p_ack : forall d, p (User_ack d) = false.
Hypothesis p_pec : forall fd, p (Ioctl_PEC fd) = false.
Hypothesis p_close : forall fd, p (Close fd) = false.
Hypothesis p_free : p Free = false.

Lemma read_and_report_filter (e : env) (f : flags_t) (rq : request)
      (file : Z) :
  filter p (trace_of (read_and_report e f rq file)) =
  filter p (trace_of (transaction e file (length f) (size rq)
                        (daddress rq) (daddrlen rq))).
Proof.
  unfold read_and_report. apply filter_bind_l. intros t.
  apply filter_bind_nil; [apply filter_emit_nil, p_close|intros _].
  now apply report_quiet.
Qed.

Lemma run_filter (e : env) (f : flags_t) (pos : list string)
      (rq : request) (file : Z) :
  version f = false ->
  outcome_of (parse_positional e pos) = Ret rq ->
  outcome_of (open_and_check e f rq) = Ret file ->
  filter p (trace_of (run e f pos)) =
  filter p (trace_of (transaction e file (length f) (size rq)
                        (daddress rq) (daddrlen rq))).
Proof.
  intros Hv Hp Ho. rewrite (run_after_setup _ _ _ _ _ Hv Hp Ho).
  cbn [trace_of fst]. rewrite filter_app.
  rewrite open_and_check_quiet by assumption.
  apply read_and_report_filter.
Qed.

Lemma parse_positional_quiet (e : env) (pos : list string) :
  filter p (trace_of (parse_positional e pos)) = [].
Proof.
  unfold parse_positional, parse_daddress, parse_mode.
  repeat first
    [ reflexivity
    | apply filter_help_nil; assumption
    | apply filter_stderr_nil; assumption
    | apply filter_bind_nil; [|intros ?]
    | break_if
    | break_match ].
Qed.

(** The events of a whole run: those of the transaction if the run gets
    that far, none otherwise. *)
Lemma run_filter_total (e : env) (f : flags_t) (pos : list string) :
  filter p (trace_of (run e f pos)) =
  if version f then [] else
  match outcome_of (parse_positional e pos) with
  | Ret rq =>
    match outcome_of (open_and_check e f rq) with
    | Ret file =>
      filter p (trace_of (transaction e file (length f) (size rq)
                            (daddress rq) (daddrlen rq)))
    | _ => []
    end
  | _ => []
  end.
Proof.
  destruct (version f) eqn:Hv.
  { rewrite (run_version _ _ _ Hv). simpl. now rewrite p_stderr. }
  destruct (outcome_of (parse_positional e pos)) as [rq| |] eqn:Hp.
  - destruct (outcome_of (open_and_check e f rq)) as [file| |] eqn:Ho.
    + now apply run_filter.
    + rewrite (run_setup_exit _ _ _ _ _ Hv Hp Ho).
      now apply open_and_check_quiet.
    + rewrite (run_eq _ _ _ _ Hv Hp). rewrite (bind_Undefined _ _ Ho).
      now apply open_and_check_quiet.
  - rewrite (run_rejected _ _ _ _ Hv Hp). apply parse_positional_quiet.
  - unfold run. rewrite Hv, bind_ret_l. rewrite (bind_Undefined _ _ Hp).
    apply parse_positional_quiet.
Qed.

End Bus_events.

Lemma run_reads (e : env) (f : flags_t) (pos : list string)
      (rq : request) (file : Z) :
  version f = false ->
  outcome_of (parse_positional e pos) = Ret rq ->
  outcome_of (open_and_check e f rq) = Ret file ->
  reads_of (trace_of (run e f pos)) =
  reads_of (trace_of (transaction e file (length f) (size rq)
                        (daddress rq) (daddrlen rq))).
Proof.
  intros. unfold reads_of. apply run_filter; auto.
Qed.

Lemma run_traffic (e : env) (f : flags_t) (pos : list string)
      (rq : request) (file : Z) :
  version f = false ->
  outcome_of (parse_positional e pos) = Ret rq ->
  outcome_of (open_and_check e f rq) = Ret file ->
  traffic_of (trace_of (run e f pos)) =
  traffic_of (trace_of (transaction e file (length f) (size rq)
                          (daddress rq) (daddrlen rq))).
Proof.
  intros. unfold traffic_of. apply run_filter; auto.
Qed.

(** ** What the positional arguments select *)

Lemma request_of_args (e : env) (pos : list string) (rq : request) :
  outcome_of (parse_positional e pos) = Ret rq ->
  (forall bus addr, pos = [bus; addr] ->
     size rq = I2C_SMBUS_BYTE /\ daddress rq = -1 /\ pec rq = false) /\
  (forall bus addr d, pos = [bus; addr; d] ->
     size rq = I2C_SMBUS_BYTE_DATA /\ 0 <= daddress rq /\ pec rq = false) /\
  (forall bus addr d m more, pos = bus :: addr :: d :: m :: more ->
     0 <= daddress rq /\
     pec rq = Ascii.eqb (char_at m 1) "p" /\
     ((char_at m 0 = "b"%char /\ size rq = I2C_SMBUS_BYTE_DATA) \/
      (char_at m 0 = "w"%char /\ size rq = I2C_SMBUS_WORD_DATA) \/
      (char_at m 0 = "c"%char /\ size rq = I2C_SMBUS_BYTE))).
Proof.
  intros H. destruct (parse_positional_ret _ _ _ H)
    as (_ & b & a & rest & sz & Hpos & _ & _ & _ & _ & Hd & Hm).
  assert (Hd' : outcome_of (parse_daddress e rest)
                = Ret (sz, daddress rq, daddrlen rq)) by now rewrite Hd.
  assert (Hm' : outcome_of (parse_mode rest sz) = Ret (size rq, pec rq))
    by now rewrite Hm.
  apply parse_daddress_ret in Hd'. apply parse_mode_ret in Hm'.
  destruct Hd' as [_ Hd']. destruct Hm' as [_ Hm'].
  split; [|split].
  - intros bus addr E. rewrite E in Hpos. inversion Hpos; subst.
    destruct Hm' as [(-> & -> & _)|(? & ? & ? & C & _)]; [|discriminate].
    destruct Hd' as [(_ & -> & -> & _)|(? & ? & C & _)]; [auto|discriminate].
  - intros bus addr d E. rewrite E in Hpos. inversion Hpos; subst.
    destruct Hm' as [(-> & -> & _)|(? & ? & ? & C & _)]; [|discriminate].
    destruct Hd' as [(C & _)|(? & ? & _ & -> & _ & _ & Hge & _)];
      [discriminate|auto].
  - intros bus addr d m more E. rewrite E in Hpos. inversion Hpos; subst.
    destruct Hm' as [(_ & _ & [C|[? C]])|(? & ? & ? & C & Hpec & Hc)];
      try discriminate.
    inversion C; subst.
    destruct Hd' as [(C' & _)|(? & ? & _ & _ & _ & _ & Hge & _)];
      [discriminate|auto].
Qed.


Lemma raw_plans (e : env) (file length size daddress daddrlen : Z) :
  0 < length <= INT_MAX -> out_of_memory e = false -> 0 <= daddrlen ->
  reads_of (trace_of (transaction e file length size daddress daddrlen)) =
  [Sys_read file length].
Proof.
  intros Hl Hm Hdl. rewrite transaction_raw by assumption.
  cbn [trace_of fst]. unfold reads_of. cbn [filter is_read].
  rewrite filter_app. rewrite writeaddr_quiet by reflexivity. reflexivity.
Qed.


(** A negative raw length takes the raw branch as well: the allocation
    fails there, the handle is closed and the run ends with status 1
    without a read. *)
Lemma negative_length_run (e : env) (argv : list string) (f : flags_t)
      (pos : list string) (rq : request) (file : Z) :
  outcome_of (parse_flags e (tl argv) no_flags) = Ret (f, pos) ->
  version f = false ->
  outcome_of (parse_positional e pos) = Ret rq ->
  outcome_of (open_and_check e f rq) = Ret file ->
  length f < 0 ->
  plans_of (trace_of (main e argv)) = [] /\
  outcome_of (main e argv) = Exit 1.
Proof.
  intros Hflags Hv Hp Ho Hlen.
  pose proof (main_length_int _ _ _ _ Hflags) as [Hmin _].
  rewrite (main_run _ _ _ _ Hflags).
  assert (Ht : transaction e file (length f) (size rq) (daddress rq)
                 (daddrlen rq) =
               ([Calloc (to_size_t (length f)) sizeof_int; Stderr Err_alloc;
                 Close file], Exit 1)).
  { apply transaction_no_memory; [lia|].
    rewrite negative_length_no_memory by lia. reflexivity. }
  split.
  - rewrite plans_of_reads, (run_reads _ _ _ _ _ Hv Hp Ho), Ht. reflexivity.
  - rewrite (run_after_setup _ _ _ _ _ Hv Hp Ho).
    unfold read_and_report. rewrite Ht. reflexivity.
Qed.

(** * The claims *)




(** ** The safety gate *)

Lemma confirm_eeprom (e : env) (address size daddress : Z) :
  0x50 <= address <= 0x57 ->
  confirm e address size daddress true =
  ([Stderr Warn_confuse_bus; Stderr Stop_eeprom], Ret 0).
Proof.
  intros [H1 H2]. unfold confirm.
  apply Z.leb_le in H1, H2. rewrite H1, H2. reflexivity.
Qed.

Lemma ask_eeprom (e : env) (f : flags_t) (rq : request) :
  yes f = false -> 0x50 <= address rq <= 0x57 -> pec rq = true ->
  ask e f rq = ([Stderr Warn_confuse_bus; Stderr Stop_eeprom], Exit 0).
Proof.
  intros Hy Ha Hp. unfold ask. rewrite Hy, Hp. cbn [negb].
  now rewrite confirm_eeprom.
Qed.

Lemma ask_yes (e : env) (f : flags_t) (rq : request) :
  yes f = true -> ask e f rq = ([], Ret tt).
Proof. intros Hy. unfold ask. now rewrite Hy. Qed.

(** When the safety gate ends the run, the run is the opening followed
    by what the gate printed. *)
Lemma open_and_check_gate_exit (e : env) (f : flags_t) (rq : request)
      (t : list event) (n : Z) :
  ask e f rq = (t, Exit n) ->
  open_and_check e f rq =
  match outcome_of (open_device e f rq) with
  | Ret _ => (trace_of (open_device e f rq) ++ t, Exit n)
  | _ => (trace_of (open_device e f rq), Exit 1)
  end.
Proof.
  intros Ha. unfold open_and_check.
  destruct (open_device_outcome e f rq) as [H|H]; rewrite H.
  - apply (bind_Exit _ _ _ H).
  - rewrite (bind_Ret _ _ _ H). rewrite Ha. reflexivity.
Qed.

(** C2, as amended.  For every invocation whose device address lies in
    0x50..0x57 and that requests PEC: without the assume-yes flag the
    run ends before any address byte or read goes to the bus and without
    a prompt, with status 0 once the device was opened and checked (the
    refusal itself) and status 1 if opening or checking failed first;
    with the assume-yes flag the safety gate is skipped altogether, so
    nothing is refused. *)
Theorem eeprom_pec_refused (e : env) (argv : list string) (f : flags_t)
        (pos : list string) (rq : request) :
  outcome_of (parse_flags e (tl argv) no_flags) = Ret (f, pos) ->
  version f = false ->
  outcome_of (parse_positional e pos) = Ret rq ->
  0x50 <= address rq <= 0x57 ->
  pec rq = true ->
  (yes f = false ->
   traffic_of (trace_of (main e argv)) = [] /\
   reads_of (trace_of (main e argv)) = [] /\
   prompts_of (trace_of (main e argv)) = [] /\
   main e argv =
   match outcome_of (open_device e f rq) with
   | Ret _ => (trace_of (open_device e f rq)
               ++ [Stderr Warn_confuse_bus; Stderr Stop_eeprom], Exit 0)
   | _ => (trace_of (open_device e f rq), Exit 1)
   end) /\
  (yes f = true -> ask e f rq = ([], Ret tt)).
Proof.
  intros Hflags Hv Hp Haddr Hpec. rewrite (main_run _ _ _ _ Hflags).
  split; [|apply ask_yes].
  intros Hy.
  pose proof (open_and_check_gate_exit _ _ _ _ _
                (ask_eeprom e f rq Hy Haddr Hpec)) as Hoc.
  assert (Hrun : run e f pos = open_and_check e f rq).
  { destruct (open_device_outcome e f rq) as [H|H]; rewrite H in Hoc.
    - rewrite (run_setup_exit e f pos rq 1 Hv Hp); now rewrite Hoc.
    - rewrite (run_setup_exit e f pos rq 0 Hv Hp); now rewrite Hoc. }
  rewrite Hrun.
  assert (Hq : forall p : event -> bool,
             (forall d, p (Stderr d) = false) ->
             (forall b, p (Open_i2c_dev b) = false) ->
             (forall fd, p (Ioctl_FUNCS fd) = false) ->
             (forall fd a fo, p (Set_slave_addr fd a fo) = false) ->
             filter p (trace_of (open_and_check e f rq)) = []).
  { intros p H1 H2 H3 H4. rewrite Hoc.
    pose proof (open_device_quiet p H1 e f rq H2 H3 H4) as Hod.
    destruct (outcome_of (open_device e f rq)); cbn [trace_of fst];
      try exact Hod.
    rewrite filter_app, Hod. cbn [filter app]. now rewrite !H1. }
  repeat split; try (apply Hq; reflexivity).
  exact Hoc.
Qed.

(** C2 as stated fails for [i2cget -y 1 0x50 0 bp]: the address is in the
    EEPROM range and PEC is requested, yet with the assume-yes flag the
    register is read. *)
Lemma eeprom_pec_read_with_yes :
  let e := Sample.world false Sample.all_funcs Other_answer None 0xab in
  let argv := ["i2cget"; "-y"; "1"; "0x50"; "0"; "bp"]%string in
  outcome_of (parse_positional e ["1"; "0x50"; "0"; "bp"]%string)
  = Ret {| i2cbus := 1; address := 0x50; size := I2C_SMBUS_BYTE_DATA;
           daddress := 0; daddrlen := 0; pec := true |} /\
  reads_of (trace_of (main e argv)) <> [] /\
  main e argv =
  ([Open_i2c_dev 1; Ioctl_FUNCS 3; Set_slave_addr 3 0x50 false;
    Ioctl_PEC 3; Smbus_read_byte_data 3 0; Close 3;
    Stdout (String.append "0xab" newline)], Ret 0).
Proof. vm_compute. repeat split; try reflexivity. discriminate. Qed.

Lemma eeprom_pec_refused_witness :
  let e := Sample.world false Sample.all_funcs Affirmative None 0xab in
  let argv := ["i2cget"; "1"; "0x50"; "0"; "bp"]%string in
  reads_of (trace_of (main e argv)) = [] /\
  prompts_of (trace_of (main e argv)) = [] /\
  main e argv =
  ([Open_i2c_dev 1; Ioctl_FUNCS 3; Set_slave_addr 3 0x50 false;
    Stderr Warn_confuse_bus; Stderr Stop_eeprom], Exit 0).
Proof.
  intros e argv.
  destruct (eeprom_pec_refused e argv no_flags
              ["1"; "0x50"; "0"; "bp"]%string
              {| i2cbus := 1; address := 0x50; size := I2C_SMBUS_BYTE_DATA;
                 daddress := 0; daddrlen := 0; pec := true |})
    as [A _].
  - vm_compute. reflexivity.
  - reflexivity.
  - vm_compute. reflexivity.
  - cbn [address]. lia.
  - reflexivity.
  - destruct (A eq_refl) as (_ & R & P & E).
    split; [exact R|]. split; [exact P|]. exact E.
Defined.

(** ** The capability check *)

Lemma check_funcs_pec_ret (funcs : Z) (pec : bool) :
  outcome_of (check_funcs_pec funcs pec) = Ret 0.
Proof. unfold check_funcs_pec. break_if; reflexivity. Qed.

Lemma check_funcs_ok_iff (e : env) (file size daddress : Z) (pec : bool) :
  outcome_of (check_funcs e file size daddress pec) = Ret 0 <->
  0 <= fst (ioctl_FUNCS e file) /\
  required_funcs_present (snd (ioctl_FUNCS e file)) size daddress = true.
Proof.
  unfold check_funcs, required_funcs_present.
  unfold call. rewrite bind_pair_Ret. cbn [trace_of outcome_of fst snd].
  destruct (fst (ioctl_FUNCS e file) <? 0) eqn:Eq.
  { apply Z.ltb_lt in Eq. cbn. split; [discriminate|lia]. }
  apply Z.ltb_ge in Eq.
  destruct (size =? I2C_SMBUS_BYTE).
  { destruct (has_func (snd (ioctl_FUNCS e file)) I2C_FUNC_SMBUS_READ_BYTE);
      cbn [negb andb].
    2:{ cbn. split; [discriminate|intros [_ C]; discriminate]. }
    replace (0 <=? daddress) with (negb (daddress <? 0))
      by (destruct (daddress <? 0) eqn:C; symmetry;
          [apply Z.leb_gt; now apply Z.ltb_lt in C
          |apply Z.leb_le; now apply Z.ltb_ge in C]).
    destruct (daddress <? 0); cbn [negb andb orb].
    - rewrite check_funcs_pec_ret. tauto.
    - destruct (has_func (snd (ioctl_FUNCS e file))
                  I2C_FUNC_SMBUS_WRITE_BYTE); cbn [negb].
      + rewrite check_funcs_pec_ret. tauto.
      + cbn. split; [discriminate|intros [_ C]; discriminate]. }
  destruct (size =? I2C_SMBUS_BYTE_DATA).
  { destruct (has_func (snd (ioctl_FUNCS e file))
                I2C_FUNC_SMBUS_READ_BYTE_DATA); cbn [negb].
    - rewrite check_funcs_pec_ret. tauto.
    - cbn. split; [discriminate|intros [_ C]; discriminate]. }
  destruct (size =? I2C_SMBUS_WORD_DATA).
  { destruct (has_func (snd (ioctl_FUNCS e file))
                I2C_FUNC_SMBUS_READ_WORD_DATA); cbn [negb].
    - rewrite check_funcs_pec_ret. tauto.
    - cbn. split; [discriminate|intros [_ C]; discriminate]. }
  rewrite check_funcs_pec_ret. tauto.
Qed.

Lemma open_device_check_fails (e : env) (f : flags_t) (rq : request) :
  outcome_of (check_funcs e (open_i2c_dev e (i2cbus rq)) (size rq)
                (daddress rq) (pec rq)) <> Ret 0 ->
  outcome_of (open_device e f rq) = Exit 1.
Proof.
  intros H. unfold open_device, call. rewrite bind_pair_Ret.
  cbn [trace_of outcome_of fst snd].
  destruct (open_i2c_dev e (i2cbus rq) <? 0); [reflexivity|].
  destruct (check_funcs_outcome e (open_i2c_dev e (i2cbus rq)) (size rq)
              (daddress rq) (pec rq)) as [C|C]; [contradiction|].
  rewrite (bind_Ret _ _ _ C). reflexivity.
Qed.

Lemma open_and_check_device_exit (e : env) (f : flags_t) (rq : request) :
  outcome_of (open_device e f rq) = Exit 1 ->
  open_and_check e f rq = (trace_of (open_device e f rq), Exit 1).
Proof. intros H. unfold open_and_check. apply (bind_Exit _ _ _ H). Qed.

(** C3, as amended.  When a raw length is requested the capability check
    is the same as without one: the length is not among its inputs and
    nothing specific to the raw transfer is required, but the SMBus
    capability of the size chosen by the positional arguments still is.
    With the handle open, the check passes exactly when the functionality
    query succeeds and the flags of that size are present; when it does
    not pass, the run ends with status 1 before any address byte or read
    goes to the bus. *)
Theorem raw_read_capability_check (e : env) (argv : list string)
        (f : flags_t) (pos : list string) (rq : request) :
  outcome_of (parse_flags e (tl argv) no_flags) = Ret (f, pos) ->
  version f = false ->
  outcome_of (parse_positional e pos) = Ret rq ->
  0 < length f ->
  0 <= open_i2c_dev e (i2cbus rq) ->
  let file := open_i2c_dev e (i2cbus rq) in
  let checked := check_funcs e file (size rq) (daddress rq) (pec rq) in
  (outcome_of checked = Ret 0 <->
   0 <= fst (ioctl_FUNCS e file) /\
   required_funcs_present (snd (ioctl_FUNCS e file)) (size rq)
     (daddress rq) = true) /\
  (outcome_of checked <> Ret 0 ->
   outcome_of (main e argv) = Exit 1 /\
   traffic_of (trace_of (main e argv)) = [] /\
   reads_of (trace_of (main e argv)) = []).
Proof.
  intros Hflags Hv Hp Hlen Hfile file checked.
  split; [apply check_funcs_ok_iff|].
  intros Hc. rewrite (main_run _ _ _ _ Hflags).
  pose proof (open_device_check_fails e f rq Hc) as Hod.
  pose proof (open_and_check_device_exit e f rq Hod) as Hoc.
  assert (Ho : outcome_of (open_and_check e f rq) = Exit 1)
    by now rewrite Hoc.
  rewrite (run_setup_exit e f pos rq 1 Hv Hp Ho).
  repeat split; apply open_and_check_quiet; reflexivity.
Qed.

(** C3 as stated fails for [i2cget -y -l 1 1 0x48] on an adapter without
    the SMBus receive-byte function: the handle is open and a raw read
    of one byte is requested, yet the run ends with status 1 on the
    missing SMBus flag.  With that one flag added the same invocation
    reads and prints the byte. *)
Lemma raw_read_fails_on_smbus_flag :
  let e := Sample.world false I2C_FUNC_I2C Other_answer (Some [x01]) 0 in
  let e' := Sample.world false (Z.lor I2C_FUNC_I2C I2C_FUNC_SMBUS_READ_BYTE)
              Other_answer (Some [x01]) 0 in
  let argv := ["i2cget"; "-y"; "-l"; "1"; "1"; "0x48"]%string in
  outcome_of (parse_flags e (tl argv) no_flags)
  = Ret ({| version := false; force := false; yes := true; length := 1 |},
         ["1"; "0x48"]%string) /\
  0 <= open_i2c_dev e 1 /\
  main e argv =
  ([Open_i2c_dev 1; Ioctl_FUNCS 3;
    Stderr (Missing_func "SMBus receive byte")], Exit 1) /\
  plans_of (trace_of (main e argv)) <> [RawRead 1] /\
  plans_of (trace_of (main e' argv)) = [RawRead 1] /\
  outcome_of (main e' argv) = Ret 0.
Proof. vm_compute. repeat split; try reflexivity; discriminate. Qed.

Lemma raw_read_capability_check_witness :
  let e := Sample.world false I2C_FUNC_I2C Other_answer (Some [x01]) 0 in
  let argv := ["i2cget"; "-y"; "-l"; "1"; "1"; "0x48"]%string in
  outcome_of (main e argv) = Exit 1 /\
  reads_of (trace_of (main e argv)) = [].
Proof.
  intros e argv.
  destruct (raw_read_capability_check e argv
              {| version := false; force := false; yes := true;
                 length := 1 |}
              ["1"; "0x48"]%string
              {| i2cbus := 1; address := 0x48; size := I2C_SMBUS_BYTE;
                 daddress := -1; daddrlen := 0; pec := false |})
    as [_ B].
  - vm_compute. reflexivity.
  - reflexivity.
  - vm_compute. reflexivity.
  - cbn [length]. lia.
  - vm_compute. discriminate.
  - destruct B as (X & _ & R).
    + vm_compute. discriminate.
    + split; [exact X|exact R].
Defined.

(** ** The raw output *)


(** A byte below 0x80, or any byte where plain [char] is unsigned, prints
    as its two hex digits. *)
Lemma fmt_02X_two_digits (e : env) (b : byte) :
  char_is_signed e = false \/ Z.of_N (Byte.to_N b) < 128 ->
  fmt_02X e b = hex2 b.
Proof.
  unfold fmt_02X, char_value. intros [H|H].
  - rewrite H. cbn [andb]. destruct b; vm_compute; reflexivity.
  - apply Z.ltb_lt in H. rewrite Z.ltb_antisym in H.
    apply negb_true_iff in H. rewrite H, andb_false_r.
    destruct b; vm_compute; reflexivity.
Qed.

(** Where plain [char] is signed, a byte from 0x80 on prints as eight hex
    digits: the sign extension comes first. *)
Lemma fmt_02X_sign_extended (e : env) (b : byte) :
  char_is_signed e = true -> 128 <= Z.of_N (Byte.to_N b) ->
  fmt_02X e b = String.append "FFFFFF" (hex2 b).
Proof.
  unfold fmt_02X, char_value. intros H Hb.
  apply Z.leb_le in Hb. rewrite H, Hb. cbn [andb].
  destruct b; vm_compute in Hb; try discriminate; vm_compute; reflexivity.
Qed.

Lemma append_nil_r (s : string) : String.append s "" = s.
Proof. induction s as [|c s IH]; cbn; [reflexivity|now rewrite IH]. Qed.

Lemma append_assoc (s1 s2 s3 : string) :
  String.append (String.append s1 s2) s3
  = String.append s1 (String.append s2 s3).
Proof. induction s1 as [|c s1 IH]; cbn; [reflexivity|now rewrite IH]. Qed.

Lemma concat_empty_cons (x : string) (xs : list string) :
  String.concat "" (x :: xs) = String.append x (String.concat "" xs).
Proof.
  destruct xs; cbn [String.concat]; [now rewrite append_nil_r|reflexivity].
Qed.

Lemma stdout_of_bind_printf {A} (s : string) (k : M A) :
  stdout_of (trace_of (bind (printf s) (fun _ => k))) =
  String.append s (stdout_of (trace_of k)).
Proof. reflexivity. Qed.

Lemma print_packed_stdout (e : env) (buf : list byte) (n : nat) :
  forall i,
    outcome_of (print_packed e buf n i) = Ret tt /\
    stdout_of (trace_of (print_packed e buf n i)) =
    String.concat "" (map (fmt_02X e) (bytes_from buf i n)).
Proof.
  induction n as [|n IH]; intros i; [split; reflexivity|].
  destruct (IH (S i)) as [IHo IHs].
  cbn [print_packed]. split.
  - unfold printf, emit. rewrite bind_pair_Ret. exact IHo.
  - rewrite stdout_of_bind_printf, IHs.
    unfold bytes_from. cbn [seq map]. now rewrite concat_empty_cons.
Qed.

Lemma concat_sep_cons (sep x : string) (xs : list string) :
  String.concat sep (x :: xs) =
  String.append x
    (String.concat "" (map (fun y => String.append sep y) xs)).
Proof.
  revert x. induction xs as [|y ys IH]; intros x.
  - cbn. now rewrite append_nil_r.
  - change (String.concat sep (x :: y :: ys))
      with (String.append x (String.append sep (String.concat sep (y :: ys)))).
    rewrite IH. cbn [map]. rewrite concat_empty_cons.
    now rewrite append_assoc.
Qed.

(** From the second byte on, each byte is printed after a blank. *)
Lemma print_separate_stdout_tail (e : env) (buf : list byte) (n : nat) :
  forall i, (0 < i)%nat ->
    outcome_of (print_separate e buf n i) = Ret tt /\
    stdout_of (trace_of (print_separate e buf n i)) =
    String.concat ""
      (map (fun y => String.append " " y)
           (map (fun b => String.append "0x" (fmt_02X e b))
                (bytes_from buf i n))).
Proof.
  induction n as [|n IH]; intros i Hi; [split; reflexivity|].
  destruct (IH (S i) ltac:(lia)) as [IHo IHs].
  cbn [print_separate].
  assert (E : (0 <? i)%nat = true) by now apply Nat.ltb_lt.
  rewrite E. split.
  - unfold printf, emit. rewrite !bind_pair_Ret. exact IHo.
  - rewrite !stdout_of_bind_printf, IHs.
    unfold bytes_from. cbn [seq map]. rewrite concat_empty_cons.
    reflexivity.
Qed.

Lemma print_separate_stdout (e : env) (buf : list byte) (n : nat) :
  outcome_of (print_separate e buf n 0) = Ret tt /\
  stdout_of (trace_of (print_separate e buf n 0)) =
  String.concat " "
    (map (fun b => String.append "0x" (fmt_02X e b)) (bytes_from buf 0 n)).
Proof.
  destruct n as [|n]; [split; reflexivity|].
  destruct (print_separate_stdout_tail e buf n 1 ltac:(lia)) as [To Ts].
  cbn [print_separate]. cbn [Nat.ltb Nat.leb]. rewrite bind_ret_l. split.
  - unfold printf, emit. rewrite bind_pair_Ret. exact To.
  - rewrite stdout_of_bind_printf, Ts.
    unfold bytes_from. cbn [seq map]. now rewrite concat_sep_cons.
Qed.

(** The block holds the bytes that were read at its start. *)
Lemma bytes_from_store (d rest : list byte) :
  bytes_from (store d rest) 0 (List.length d) = d.
Proof.
  unfold bytes_from, store.
  apply (nth_ext _ _ x00 x00).
  - now rewrite length_map, length_seq.
  - intros k Hk. rewrite length_map, length_seq in Hk.
    rewrite (nth_indep _ _ (nth 0 (d ++ skipn (List.length d) rest) x00))
      by now rewrite length_map, length_seq.
    rewrite (map_nth (fun k => nth k (d ++ skipn (List.length d) rest) x00)).
    rewrite seq_nth by assumption. cbn [Nat.add].
    now apply app_nth1.
Qed.

Lemma printf_ret (s : string) : outcome_of (printf s) = Ret tt.
Proof. reflexivity. Qed.

Lemma stdout_bind_Ret {A B} (m : M A) (f : A -> M B) (a : A) :
  outcome_of m = Ret a ->
  stdout_of (trace_of (bind m f)) =
  String.append (stdout_of (trace_of m)) (stdout_of (trace_of (f a))).
Proof. intros H. now rewrite (trace_bind_Ret _ _ _ H), stdout_of_app. Qed.

(** What the raw path prints when the read returned [length] bytes *)
Lemma report_raw_stdout (e : env) (length size : Z) (buf : list byte) :
  0 < length ->
  outcome_of (report e length size length buf) = Ret 0 /\
  stdout_of (trace_of (report e length size length buf)) =
  if packed_length length then
    String.append "0x"
      (String.append
         (String.concat ""
            (map (fmt_02X e) (bytes_from buf 0 (Z.to_nat length))))
         newline)
  else
    String.append
      (String.concat " "
         (map (fun b => String.append "0x" (fmt_02X e b))
              (bytes_from buf 0 (Z.to_nat length))))
      newline.
Proof.
  intros Hlen. unfold report, packed_length.
  assert (E0 : (length =? 0) = false) by (apply Z.eqb_neq; lia).
  rewrite E0, Z.eqb_refl. cbn [negb].
  destruct ((length =? 1) || (length =? 2) || (length =? 4) || (length =? 8)).
  - destruct (print_packed_stdout e buf (Z.to_nat length) 0%nat) as [Po Ps].
    assert (Ho : outcome_of
                   (printf "0x" ;;
                    print_packed e buf (Z.to_nat length) 0 ;;
                    printf newline) = Ret tt).
    { rewrite (outcome_bind_Ret _ _ tt (printf_ret _)).
      now rewrite (outcome_bind_Ret _ _ tt Po). }
    split.
    + now rewrite (outcome_bind_Ret _ _ tt Ho).
    + rewrite (stdout_bind_Ret _ _ tt Ho).
      rewrite (stdout_bind_Ret _ _ tt (printf_ret _)).
      rewrite (stdout_bind_Ret _ _ tt Po), Ps.
      cbn [stdout_of trace_of fst printf emit bind snd app ret].
      now rewrite !append_nil_r.
  - destruct (print_separate_stdout e buf (Z.to_nat length)) as [Po Ps].
    assert (Ho : outcome_of
                   (print_separate e buf (Z.to_nat length) 0 ;;
                    printf newline) = Ret tt).
    { now rewrite (outcome_bind_Ret _ _ tt Po). }
    split.
    + now rewrite (outcome_bind_Ret _ _ tt Ho).
    + rewrite (stdout_bind_Ret _ _ tt Ho).
      rewrite (stdout_bind_Ret _ _ tt Po), Ps.
      cbn [stdout_of trace_of fst printf emit bind snd app ret].
      now rewrite !append_nil_r.
Qed.

(** C4 holds where no sign extension can occur: if plain [char] is
    unsigned, or all bytes read are below 0x80, the raw path prints two
    hex digits per byte, packed into one numeral for the lengths 1, 2, 4
    and 8 and as separate numerals otherwise, in read order. *)
Lemma raw_output_two_digits (e : env) (length size : Z)
      (d block : list byte) :
  0 < length ->
  Z.of_nat (List.length d) = length ->
  char_is_signed e = false
  \/ Forall (fun b => Z.of_N (Byte.to_N b) < 128) d ->
  outcome_of (report e length size length (store d block)) = Ret 0 /\
  stdout_of (trace_of (report e length size length (store d block))) =
  if packed_length length then packed_numeral d else separate_numerals d.
Proof.
  intros Hlen Hd Hsafe.
  destruct (report_raw_stdout e length size (store d block) Hlen) as [Ro Rs].
  split; [exact Ro|]. rewrite Rs.
  replace (Z.to_nat length) with (List.length d) by lia.
  rewrite bytes_from_store.
  assert (Hfmt : forall b, In b d -> fmt_02X e b = hex2 b).
  { intros b Hb. apply fmt_02X_two_digits.
    destruct Hsafe as [H|H]; [now left|right].
    rewrite Forall_forall in H. now apply H. }
  unfold packed_numeral, separate_numerals.
  rewrite (map_ext_in _ _ _ Hfmt).
  rewrite (map_ext_in (fun b => String.append "0x" (fmt_02X e b))
                      (fun b => String.append "0x" (hex2 b))).
  - reflexivity.
  - intros b Hb. now rewrite Hfmt.
Qed.

(** C4 at its failing input: [i2cget -y -l 1 1 0x48] where plain [char] is
    signed and the device returns the byte 0x80.  The claim has 0x80 on
    stdout; the program prints 0xFFFFFF80. *)
Theorem raw_output_signed_char :
  let e := Sample.world true Sample.all_funcs Other_answer (Some [x80]) 0 in
  let argv := ["i2cget"; "-y"; "-l"; "1"; "1"; "0x48"]%string in
  outcome_of (main e argv) = Ret 0 /\
  reads_of (trace_of (main e argv)) = [Sys_read 3 1] /\
  stdout_of (trace_of (main e argv)) = String.append "0xFFFFFF80" newline /\
  packed_numeral [x80] = String.append "0x80" newline.
Proof. vm_compute. repeat split; reflexivity. Qed.

(** ** The address encoder *)

Lemma byte_of_Z_value (z : Z) : Z.of_N (Byte.to_N (byte_of_Z z)) = z mod 256.
Proof.
  unfold byte_of_Z.
  pose proof (Z.mod_pos_bound z 256 ltac:(lia)) as Hm.
  destruct (Byte.of_N (Z.to_N (z mod 256))) as [b|] eqn:E.
  - apply Byte.to_of_N in E. rewrite E. lia.
  - apply Byte.of_N_None_iff in E. lia.
Qed.

Lemma low_byte (a k : Z) :
  0 <= k ->
  Z.of_N (Byte.to_N (byte_of_Z (Z.land (Z.shiftr a k) 0xff)))
  = (a / 2 ^ k) mod 256.
Proof.
  intros Hk. rewrite byte_of_Z_value.
  change 0xff with (Z.ones 8). rewrite Z.land_ones by lia.
  rewrite Z.shiftr_div_pow2 by assumption.
  change (2 ^ 8) with 256. apply Z.mod_mod. lia.
Qed.

Lemma encoded_0 (a : Z) : encoded a 0 = [].
Proof. reflexivity. Qed.

Lemma encoded_1 (a : Z) : decode_be (encoded a 1) = a mod 256 /\
                          List.length (encoded a 1) = 1%nat.
Proof.
  split; [|reflexivity].
  unfold encoded. cbn [Z.gtb Z.compare MAX_ADDR_LEN Pos.compare
                         Pos.compare_cont].
  change (fill_buf (Z.to_nat 1) a 1 0)
    with [byte_of_Z (Z.land (Z.shiftr a 0) 0xff)].
  unfold decode_be. cbn [fold_left]. rewrite low_byte by lia.
  rewrite Z.pow_0_r, Z.div_1_r. lia.
Qed.

Lemma encoded_capped (a len : Z) :
  2 <= len ->
  decode_be (encoded a len) = a mod 2 ^ 16 /\
  List.length (encoded a len) = 2%nat.
Proof.
  intros Hlen. unfold encoded, MAX_ADDR_LEN.
  assert (E : (if len >? 2 then 2 else len) = 2).
  { destruct (len >? 2) eqn:C; [reflexivity|]. rewrite Z.gtb_ltb in C.
    apply Z.ltb_ge in C. lia. }
  rewrite E. split; [|reflexivity].
  change (fill_buf (Z.to_nat 2) a 2 0)
    with [byte_of_Z (Z.land (Z.shiftr a 8) 0xff);
          byte_of_Z (Z.land (Z.shiftr a 0) 0xff)].
  unfold decode_be. cbn [fold_left]. rewrite !low_byte by lia.
  rewrite Z.pow_0_r, Z.div_1_r.
  change (2 ^ 16) with (256 * 256). change (2 ^ 8) with 256.
  rewrite (Z.rem_mul_r a 256 256) by lia. lia.
Qed.

(** C5 below [2^24]: for a register address the width loop accepts, the
    encoder emits [min width 2] bytes, most significant first, that
    decode to the address modulo [2^(8 * min width 2)]; an address below
    [2^16] is reproduced exactly and no smaller width would do; an
    address from [2^16] on is cut to its two low-order bytes. *)
Lemma encoder_minimal_width (a n : Z) :
  0 <= a ->
  infer_daddrlen 4 a 0 = Width n ->
  Z.of_nat (List.length (encoded a n)) = Z.min n 2 /\
  decode_be (encoded a n) = a mod 2 ^ (8 * Z.min n 2) /\
  (a < 2 ^ 16 ->
   decode_be (encoded a n) = a /\
   forall w, 0 <= w < n -> a mod 2 ^ (8 * w) <> a) /\
  (2 ^ 16 <= a ->
   List.length (encoded a n) = 2%nat /\
   decode_be (encoded a n) = a mod 2 ^ 16).
Proof.
  intros Ha Hw.
  destruct (infer_daddrlen_width a n Ha Hw) as (Hn & H24 & Hlt & Hmin).
  assert (Hsmall : forall w, 0 <= w < n -> a mod 2 ^ (8 * w) <> a).
  { intros w Hw' C. specialize (Hmin w Hw').
    assert (0 < 2 ^ (8 * w)) by (apply Z.pow_pos_nonneg; lia).
    pose proof (Z.mod_pos_bound a (2 ^ (8 * w)) ltac:(lia)). lia. }
  assert (n = 0 \/ n = 1 \/ n = 2 \/ n = 3) as [->|[->|[->| ->]]] by lia.
  - rewrite encoded_0. cbn [List.length decode_be fold_left].
    change (2 ^ (8 * Z.min 0 2)) with 1. rewrite Z.mod_1_r.
    change (2 ^ (8 * 0)) with 1 in Hlt.
    repeat split; intros; try lia.
  - destruct (encoded_1 a) as [D L]. rewrite D, L.
    change (2 ^ (8 * Z.min 1 2)) with 256.
    change (2 ^ (8 * 1)) with 256 in Hlt.
    repeat split; intros; try lia; try (rewrite Z.mod_small; lia).
    now apply Hsmall.
  - destruct (encoded_capped a 2 ltac:(lia)) as [D L]. rewrite D, L.
    change (2 ^ (8 * Z.min 2 2)) with (2 ^ 16).
    change (2 ^ (8 * 2)) with (2 ^ 16) in Hlt.
    repeat split; intros; try lia; try (rewrite Z.mod_small; lia).
    now apply Hsmall.
  - destruct (encoded_capped a 3 ltac:(lia)) as [D L]. rewrite D, L.
    change (2 ^ (8 * Z.min 3 2)) with (2 ^ 16).
    specialize (Hmin 2 ltac:(lia)). change (2 ^ (8 * 2)) with (2 ^ 16) in Hmin.
    repeat split; intros; try lia; try (rewrite Z.mod_small; lia).
Qed.

(** From [2^24] on the width loop reaches the shift by 32 bits. *)
Lemma wide_address_undefined (e : env) (d : string) (rest : list string) :
  at_end (snd (strtol e d)) = true ->
  2 ^ 24 <= to_int (fst (strtol e d)) ->
  parse_daddress e (d :: rest) = ([], Undefined).
Proof.
  intros Hend Hwide. unfold parse_daddress. rewrite Hend.
  assert (E : (0 <=? to_int (fst (strtol e d))) = true)
    by (apply Z.leb_le; lia).
  rewrite E. cbn [andb].
  rewrite infer_daddrlen_eq by lia.
  assert (forall k, k <= 24 -> (to_int (fst (strtol e d)) <? 2 ^ k) = false).
  { intros k Hk. apply Z.ltb_ge.
    transitivity (2 ^ 24); [|assumption].
    apply Z.pow_le_mono_r; lia. }
  rewrite !H by lia. reflexivity.
Qed.

(** C5 at its failing input: [i2cget -y 1 0x48 0x1000000].  The claim has
    the address cut to its two low-order bytes; the width loop shifts the
    32-bit [daddress] by 32 bits, which C leaves undefined, and the run
    has no defined behaviour from there: no width, no address bytes. *)
Theorem wide_address_shift_by_32 :
  let e := Sample.world false Sample.all_funcs Other_answer None 0 in
  let argv := ["i2cget"; "-y"; "1"; "0x48"; "0x1000000"]%string in
  to_int (fst (strtol e "0x1000000")) = 2 ^ 24 /\
  int_shr (2 ^ 24) (8 * 4) = None /\
  infer_daddrlen 4 (2 ^ 24) 0 = Shift_undefined /\
  main e argv = ([], Undefined) /\
  decode_be (encoded (2 ^ 24) 2) = 2 ^ 24 mod 2 ^ 16.
Proof. vm_compute. repeat split; reflexivity. Qed.

(** ** The raw read *)

Lemma read_and_report_raw (e : env) (f : flags_t) (rq : request) (file : Z) :
  0 < length f <= INT_MAX -> out_of_memory e = false -> 0 <= daddrlen rq ->
  let rr := read_result e file (length f)
              (repeat x00 (Z.to_nat (length f * sizeof_int))) in
  read_and_report e f rq file =
  ((Calloc (length f) sizeof_int
      :: (trace_of (writeaddr e file (daddress rq) (daddrlen rq))
          ++ [Sys_read file (length f)]))
     ++ Close file
     :: trace_of (report e (length f) (size rq) (fst rr) (snd rr)),
   outcome_of (report e (length f) (size rq) (fst rr) (snd rr))).
Proof.
  intros Hlen Hmem Hdl rr. unfold read_and_report.
  rewrite (transaction_raw e file (length f) (size rq) (daddress rq)
             (daddrlen rq) Hlen Hmem Hdl).
  rewrite bind_pair_Ret. fold rr.
  unfold emit. rewrite bind_pair_Ret. reflexivity.
Qed.

Lemma report_raw_failure (e : env) (length size res : Z) (buf : list byte) :
  length <> 0 -> length <> res ->
  report e length size res buf = ([Stderr Err_read_failed], Exit 2).
Proof.
  intros H0 Hr. unfold report.
  apply Z.eqb_neq in H0, Hr. now rewrite H0, Hr.
Qed.

(** What [read] left in [res] equals the requested length exactly when
    the call returned that many bytes. *)
Lemma read_result_exact (e : env) (file length : Z) (block : list byte) :
  0 < length <= INT_MAX ->
  (forall d, read e file length = Some d ->
             Z.of_nat (List.length d) <= length) ->
  fst (read_result e file length block) = length <->
  exists d, read e file length = Some d /\ Z.of_nat (List.length d) = length.
Proof.
  intros Hlen Hread. unfold read_result.
  destruct (read e file length) as [d|] eqn:E; cbn [fst].
  - specialize (Hread d eq_refl).
    rewrite to_int_id by (unfold INT_MIN, INT_MAX in *; lia).
    split.
    + intros H. now exists d.
    + intros (d' & Hd' & Hl). now inversion Hd'; subst.
  - rewrite to_int_id by (unfold INT_MIN, INT_MAX; lia).
    split; [lia|]. intros (d' & Hd' & _). discriminate.
Qed.

(** C6.  For every run that reaches a raw read (raw length above 0,
    arguments accepted, device opened, checked and confirmed, memory at
    hand), with [read] returning at most the count it was asked for: the
    run issues exactly one read call, of the requested length; it
    succeeds (status 0 from [main]) exactly when that call returned the
    requested number of bytes; on any other return (fewer bytes, or the
    error return) it ends with status 2 after the read-failure
    diagnostic, and nothing at all was printed on stdout. *)
Theorem raw_read_exact_length (e : env) (argv : list string) (f : flags_t)
        (pos : list string) (rq : request) (file : Z) :
  outcome_of (parse_flags e (tl argv) no_flags) = Ret (f, pos) ->
  version f = false ->
  outcome_of (parse_positional e pos) = Ret rq ->
  outcome_of (open_and_check e f rq) = Ret file ->
  0 < length f ->
  out_of_memory e = false ->
  (forall d, read e file (length f) = Some d ->
             Z.of_nat (List.length d) <= length f) ->
  let exact := exists d, read e file (length f) = Some d /\
                         Z.of_nat (List.length d) = length f in
  reads_of (trace_of (main e argv)) = [Sys_read file (length f)] /\
  (outcome_of (main e argv) = Ret 0 <-> exact) /\
  (~ exact ->
   outcome_of (main e argv) = Exit 2 /\
   In (Stderr Err_read_failed) (trace_of (main e argv)) /\
   stdout_of (trace_of (main e argv)) = EmptyString).
Proof.
  intros Hflags Hv Hp Ho Hlen Hmem Hread exact.
  pose proof (main_length_int _ _ _ _ Hflags) as [_ Hmax].
  pose proof (request_daddrlen _ _ _ Hp) as (Hdl & _ & _).
  rewrite (main_run _ _ _ _ Hflags).
  split.
  { rewrite (run_reads _ _ _ _ _ Hv Hp Ho).
    apply raw_plans; auto; lia. }
  rewrite (run_after_setup _ _ _ _ _ Hv Hp Ho).
  rewrite (read_and_report_raw e f rq file) by (auto; lia).
  cbn [outcome_of trace_of fst snd].
  set (block := repeat x00 (Z.to_nat (length f * sizeof_int))).
  pose proof (read_result_exact e file (length f) block
                ltac:(lia) Hread) as Hexact.
  fold exact in Hexact.
  destruct (Z.eq_dec (fst (read_result e file (length f) block)) (length f))
    as [Heq|Hne].
  - rewrite Heq.
    destruct (report_raw_stdout e (length f) (size rq)
                (snd (read_result e file (length f) block)) Hlen) as [Ro _].
    rewrite Ro. split.
    + split; [intros _; now apply Hexact|reflexivity].
    + intros Hn. exfalso. apply Hn. now apply Hexact.
  - rewrite (report_raw_failure e (length f) (size rq)) by lia.
    cbn [fst snd]. split.
    + split; [discriminate|]. intros Hx. exfalso. apply Hne.
      now apply Hexact.
    + intros _. split; [reflexivity|]. split.
      * apply in_or_app. right. apply in_or_app. right. cbn. auto.
      * apply stdout_of_filter. rewrite !filter_app.
        rewrite open_and_check_quiet by reflexivity.
        cbn [filter is_stdout app]. rewrite filter_app.
        rewrite writeaddr_quiet by reflexivity. reflexivity.
Qed.

Lemma raw_read_exact_length_witness :
  let e := Sample.world false Sample.all_funcs Other_answer
             (Some [x01; x02; x03]) 0 in
  let argv := ["i2cget"; "-y"; "-l"; "4"; "1"; "0x48"; "0x00"]%string in
  reads_of (trace_of (main e argv)) = [Sys_read 3 4] /\
  outcome_of (main e argv) = Exit 2 /\
  stdout_of (trace_of (main e argv)) = EmptyString.
Proof.
  intros e argv.
  destruct (raw_read_exact_length e argv
              {| version := false; force := false; yes := true;
                 length := 4 |}
              ["1"; "0x48"; "0x00"]%string
              {| i2cbus := 1; address := 0x48; size := I2C_SMBUS_BYTE_DATA;
                 daddress := 0; daddrlen := 0; pec := false |} 3)
    as (R & _ & F).
  - vm_compute. reflexivity.
  - reflexivity.
  - vm_compute. reflexivity.
  - vm_compute. reflexivity.
  - cbn [length]. lia.
  - reflexivity.
  - intros d H. cbn in H. inversion H; subst. cbn. lia.
  - destruct F as (X & _ & S).
    + intros (d & H & L). cbn in H. inversion H; subst. cbn in L. lia.
    + split; [exact R|]. split; [exact X|exact S].
Defined.

(** ** Closing the handle *)

(** C7 at its failing inputs.  [i2cget 1 0x48] with the user answering
    no: the handle 3 is open, the run ends with status 0 on the
    declined confirmation, and no [close] was called.  [i2cget -y 1 0x48]
    on an adapter without the receive-byte function: the handle is open,
    the run ends with status 1 on the capability failure, and no
    [close] was called.  The PEC, allocation and transaction failures do
    close the handle first. *)
Theorem handle_left_open :
  let declined := Sample.world false Sample.all_funcs Negative None 0 in
  let incapable := Sample.world false 0 Other_answer None 0 in
  main declined ["i2cget"; "1"; "0x48"]%string =
  ([Open_i2c_dev 1; Ioctl_FUNCS 3; Set_slave_addr 3 0x48 false;
    Stderr Warn_confuse_bus; Stderr (Will_read 0x48 (-1) "read byte");
    Stderr (Continue_prompt true); User_ack true;
    Stderr Aborting_on_user_request], Exit 0) /\
  closes 3 (trace_of (main declined ["i2cget"; "1"; "0x48"]%string))
  = false /\
  main incapable ["i2cget"; "-y"; "1"; "0x48"]%string =
  ([Open_i2c_dev 1; Ioctl_FUNCS 3;
    Stderr (Missing_func "SMBus receive byte")], Exit 1) /\
  closes 3 (trace_of (main incapable ["i2cget"; "-y"; "1"; "0x48"]%string))
  = false /\
  closes 3 (trace_of (main (Sample.world false Sample.all_funcs
                              Other_answer (Some []) 0)
                           ["i2cget"; "-y"; "-l"; "2"; "1"; "0x48"]%string))
  = true.
Proof. vm_compute. repeat split; reflexivity. Qed.

Lemma closes_app (file : Z) (t1 t2 : list event) :
  closes file (t1 ++ t2) = closes file t1 || closes file t2.
Proof. apply existsb_app. Qed.

Lemma transaction_outcome (e : env) (file length size daddress daddrlen : Z) :
  0 <= daddrlen ->
  (exists r, outcome_of (transaction e file length size daddress daddrlen)
             = Ret r) \/
  (outcome_of (transaction e file length size daddress daddrlen) = Exit 1 /\
   closes file (trace_of (transaction e file length size daddress daddrlen))
   = true).
Proof.
  intros Hdl. unfold transaction.
  pose proof (writeaddr_ret e file daddress daddrlen Hdl) as Hw.
  destruct (negb (length =? 0)).
  - unfold calloc, call. rewrite bind_pair_Ret.
    cbn [trace_of outcome_of fst snd].
    destruct ((to_size_t length * sizeof_int >? SIZE_MAX) || out_of_memory e).
    + right. cbn. rewrite Z.eqb_refl. auto.
    + left. rewrite (bind_Ret _ _ _ Hw). cbn [fst snd].
      rewrite bind_pair_Ret. cbn [fst snd trace_of outcome_of].
      destruct (read e file (to_size_t length)); eexists; reflexivity.
  - left. destruct (size =? I2C_SMBUS_BYTE).
    + rewrite (bind_Ret _ _ _ Hw). eexists; reflexivity.
    + destruct (size =? I2C_SMBUS_WORD_DATA); eexists; reflexivity.
Qed.

(** The runs that get past the setup do close the handle, whether the
    allocation fails, the read fails or the result is printed. *)
Lemma handle_closed_after_setup (e : env) (f : flags_t) (pos : list string)
      (rq : request) (file : Z) :
  version f = false ->
  outcome_of (parse_positional e pos) = Ret rq ->
  outcome_of (open_and_check e f rq) = Ret file ->
  closes file (trace_of (run e f pos)) = true.
Proof.
  intros Hv Hp Ho. rewrite (run_after_setup _ _ _ _ _ Hv Hp Ho).
  cbn [trace_of fst]. rewrite closes_app. apply orb_true_iff. right.
  pose proof (request_daddrlen _ _ _ Hp) as (Hdl & _ & _).
  unfold read_and_report.
  destruct (transaction_outcome e file (length f) (size rq) (daddress rq)
              (daddrlen rq) ltac:(lia)) as [[r Hr]|[Hx Hc]].
  - rewrite (trace_bind_Ret _ _ _ Hr). rewrite closes_app.
    apply orb_true_iff. right.
    unfold emit. rewrite bind_pair_Ret. cbn. now rewrite Z.eqb_refl.
  - rewrite (bind_Exit _ _ _ Hx). exact Hc.
Qed.

(** A failure to enable PEC closes the handle before the run ends. *)
Lemma handle_closed_on_pec_failure (e : env) (rq : request) (file : Z) :
  outcome_of (enable_pec e rq file) = Exit 1 ->
  closes file (trace_of (enable_pec e rq file)) = true.
Proof.
  unfold enable_pec. destruct (pec rq); [|discriminate].
  unfold call. rewrite bind_pair_Ret. cbn [trace_of outcome_of fst snd].
  destruct (ioctl_PEC e file <? 0); [|discriminate].
  intros _. cbn. now rewrite Z.eqb_refl.
Qed.

(** Opening, checking and asking never close the handle: a run that ends
    in one of these steps, with the capability check failed or the
    confirmation declined, leaves it open. *)
Lemma handle_open_until_pec (e : env) (f : flags_t) (rq : request) :
  filter is_close (trace_of (open_device e f rq)) = [] /\
  filter is_close (trace_of (ask e f rq)) = [].
Proof.
  split; [apply open_device_quiet|apply ask_quiet]; reflexivity.
Qed.

(** ** The confirmation prompt *)





















(** ** Register address 0 *)

(** C9.  A register address of 0 has inferred width 0, and on the two
    paths that write the address themselves (the raw read, and
    I2C_SMBUS_BYTE with a register address) the run issues one [write]
    of zero bytes before its read: no address byte reaches the bus
    although a register address was given. *)
Theorem zero_address_writes_nothing (e : env) (argv : list string)
        (f : flags_t) (pos : list string) (rq : request) (file : Z) :
  outcome_of (parse_flags e (tl argv) no_flags) = Ret (f, pos) ->
  version f = false ->
  outcome_of (parse_positional e pos) = Ret rq ->
  outcome_of (open_and_check e f rq) = Ret file ->
  daddress rq = 0 ->
  infer_daddrlen 4 0 0 = Width 0 /\
  daddrlen rq = 0 /\
  encoded (daddress rq) (daddrlen rq) = [] /\
  (0 < length f -> out_of_memory e = false ->
   traffic_of (trace_of (main e argv))
   = [Sys_write file []; Sys_read file (length f)]) /\
  (length f = 0 -> size rq = I2C_SMBUS_BYTE ->
   traffic_of (trace_of (main e argv))
   = [Sys_write file []; Smbus_read_byte file]).
Proof.
  intros Hflags Hv Hp Ho Hz.
  pose proof (main_length_int _ _ _ _ Hflags) as [_ Hmax].
  pose proof (request_daddrlen _ _ _ Hp) as (_ & Hdl & _).
  specialize (Hdl Hz).
  rewrite (main_run _ _ _ _ Hflags).
  rewrite (run_traffic _ _ _ _ _ Hv Hp Ho).
  rewrite Hz, Hdl.
  split; [reflexivity|]. split; [reflexivity|]. split; [reflexivity|].
  split.
  - intros Hlen Hmem.
    rewrite transaction_raw by (try assumption; lia).
    cbn [trace_of fst]. unfold traffic_of.
    cbn [filter is_traffic is_write is_read orb].
    rewrite filter_app.
    change (filter is_traffic (trace_of (writeaddr e file 0 0)))
      with (traffic_of (trace_of (writeaddr e file 0 0))).
    rewrite writeaddr_traffic by lia. reflexivity.
  - intros Hlen Hsize. rewrite Hlen, Hsize.
    rewrite transaction_structured by lia.
    cbn [Z.eqb I2C_SMBUS_BYTE Pos.eqb trace_of fst].
    unfold traffic_of. rewrite filter_app.
    change (filter is_traffic (trace_of (writeaddr e file 0 0)))
      with (traffic_of (trace_of (writeaddr e file 0 0))).
    rewrite writeaddr_traffic by lia. reflexivity.
Qed.

Lemma zero_address_writes_nothing_witness :
  let e := Sample.world false Sample.all_funcs Other_answer
             (Some [x01; x02; x03]) 0 in
  traffic_of (trace_of (main e ["i2cget"; "-y"; "-l"; "3"; "1"; "0x48";
                                "0x00"]%string))
  = [Sys_write 3 []; Sys_read 3 3] /\
  traffic_of (trace_of (main e ["i2cget"; "-y"; "1"; "0x48"; "0";
                                "c"]%string))
  = [Sys_write 3 []; Smbus_read_byte 3].
Proof.
  intros e. split.
  - destruct (zero_address_writes_nothing e
                ["i2cget"; "-y"; "-l"; "3"; "1"; "0x48"; "0x00"]%string
                {| version := false; force := false; yes := true;
                   length := 3 |}
                ["1"; "0x48"; "0x00"]%string
                {| i2cbus := 1; address := 0x48;
                   size := I2C_SMBUS_BYTE_DATA;
                   daddress := 0; daddrlen := 0; pec := false |} 3)
      as (_ & _ & _ & R & _);
      [vm_compute; reflexivity | reflexivity | vm_compute; reflexivity
      | vm_compute; reflexivity | reflexivity |].
    apply R; [cbn [length]; lia | reflexivity].
  - destruct (zero_address_writes_nothing e
                ["i2cget"; "-y"; "1"; "0x48"; "0"; "c"]%string
                {| version := false; force := false; yes := true;
                   length := 0 |}
                ["1"; "0x48"; "0"; "c"]%string
                {| i2cbus := 1; address := 0x48; size := I2C_SMBUS_BYTE;
                   daddress := 0; daddrlen := 0; pec := false |} 3)
      as (_ & _ & _ & _ & S);
      [vm_compute; reflexivity | reflexivity | vm_compute; reflexivity
      | vm_compute; reflexivity | reflexivity |].
    apply S; reflexivity.
Defined.

(** ** PEC *)

Lemma read_and_report_no_pec (e : env) (f : flags_t) (rq : request)
      (file : Z) :
  pec_calls_of (trace_of (read_and_report e f rq file)) = [].
Proof.
  unfold read_and_report, pec_calls_of.
  apply filter_bind_nil.
  { unfold transaction, calloc.
    repeat first
      [ reflexivity
      | apply writeaddr_quiet; reflexivity
      | apply filter_bind_nil; [|intros ?]
      | break_if
      | break_match ]. }
  intros t.
  apply filter_bind_nil; [reflexivity|intros _].
  apply report_quiet; reflexivity.
Qed.

Lemma enable_pec_calls (e : env) (rq : request) (file : Z) :
  pec_calls_of (trace_of (enable_pec e rq file)) =
  if pec rq then [Ioctl_PEC file] else [].
Proof.
  unfold enable_pec. destruct (pec rq); [|reflexivity].
  unfold call. rewrite bind_pair_Ret. cbn [trace_of outcome_of fst snd].
  destruct (ioctl_PEC e file <? 0); reflexivity.
Qed.

(** PEC is switched on in the kernel exactly in the runs that get past the
    safety gate with [pec] set. *)
Lemma run_pec_calls (e : env) (f : flags_t) (pos : list string)
      (rq : request) :
  version f = false ->
  outcome_of (parse_positional e pos) = Ret rq ->
  pec_calls_of (trace_of (run e f pos)) =
  match outcome_of (open_device e f rq), outcome_of (ask e f rq) with
  | Ret file, Ret _ => if pec rq then [Ioctl_PEC file] else []
  | _, _ => []
  end.
Proof.
  intros Hv Hp. rewrite (run_eq _ _ _ _ Hv Hp). unfold pec_calls_of.
  rewrite filter_bind_l by (intros; apply read_and_report_no_pec).
  unfold open_and_check.
  assert (Hod : filter is_pec_call (trace_of (open_device e f rq)) = [])
    by (apply open_device_quiet; reflexivity).
  assert (Hask : filter is_pec_call (trace_of (ask e f rq)) = [])
    by (apply ask_quiet; reflexivity).
  destruct (open_device_outcome e f rq) as [H|H]; rewrite H.
  { now rewrite (bind_Exit _ _ _ H). }
  rewrite (filter_bind_r _ _ _ _ H Hod).
  destruct (ask_outcome e f rq) as [Ha|Ha]; rewrite Ha.
  { now rewrite (bind_Exit _ _ _ Ha). }
  rewrite (filter_bind_r _ _ _ _ Ha Hask).
  rewrite filter_bind_l by reflexivity.
  apply enable_pec_calls.
Qed.

(** The mode argument is accepted on its first character alone; the
    second only sets [pec]. *)
Lemma parse_mode_accepts (d m : string) (more : list string) (sz : Z) :
  mode_known m = true ->
  parse_mode (d :: m :: more) sz
  = ([], Ret (mode_size m, Ascii.eqb (char_at m 1) "p")).
Proof.
  unfold mode_known, mode_size, parse_mode. intros H.
  destruct (Ascii.eqb (char_at m 0) "b"); [reflexivity|].
  destruct (Ascii.eqb (char_at m 0) "w"); [reflexivity|].
  destruct (Ascii.eqb (char_at m 0) "c"); [reflexivity|discriminate].
Qed.

Lemma parse_positional_accepts (e : env) (bus addr d m : string)
      (more : list string) (rq : request) :
  outcome_of (parse_positional e [bus; addr; d]) = Ret rq ->
  mode_known m = true ->
  parse_positional e (bus :: addr :: d :: m :: more)
  = ([], Ret {| i2cbus := i2cbus rq; address := address rq;
                size := mode_size m; daddress := daddress rq;
                daddrlen := daddrlen rq;
                pec := Ascii.eqb (char_at m 1) "p" |}).
Proof.
  intros Hp Hm.
  destruct (parse_positional_ret _ _ _ Hp)
    as (_ & b & a & rest & sz & Hpos & Hb & Hb0 & Ha & Ha0 & Hd & _).
  inversion Hpos; subst b a rest.
  unfold parse_positional.
  rewrite <- Hb, <- Ha.
  apply Z.ltb_ge in Hb0, Ha0. rewrite Hb0, Ha0.
  assert (Hd' : parse_daddress e (d :: m :: more)
                = ([], Ret (sz, daddress rq, daddrlen rq)))
    by exact Hd.
  rewrite Hd'. rewrite bind_pair_Ret. cbn [fst snd app].
  rewrite (parse_mode_accepts d m more sz Hm).
  reflexivity.
Qed.

(** C10.  For accepted arguments, PEC is requested exactly when there is
    a mode argument and its second character is p; no PEC call is made
    in a run unless it was requested this way, and a run that gets past
    the safety gate with PEC requested makes the call.  The mode
    argument is accepted on its first character alone: whatever the
    second character is, a mode argument that starts with b, w or c is
    taken without a diagnostic, selects the size of its first character
    and sets PEC exactly when the second character is p; so arguments
    that are accepted without a mode argument stay accepted with any
    such mode argument, with PEC off unless its second character is
    p. *)
Theorem pec_iff_second_char_p (e : env) (argv : list string) (f : flags_t)
        (pos : list string) (rq : request) :
  outcome_of (parse_flags e (tl argv) no_flags) = Ret (f, pos) ->
  version f = false ->
  outcome_of (parse_positional e pos) = Ret rq ->
  (pec rq = true <->
   exists bus addr d m more,
     pos = bus :: addr :: d :: m :: more /\ char_at m 1 = "p"%char) /\
  (forall fd, In (Ioctl_PEC fd) (trace_of (main e argv)) -> pec rq = true) /\
  (forall file,
     outcome_of (open_device e f rq) = Ret file ->
     outcome_of (ask e f rq) = Ret tt ->
     pec rq = true ->
     In (Ioctl_PEC file) (trace_of (main e argv))) /\
  (forall d m more sz,
     mode_known m = true ->
     parse_mode (d :: m :: more) sz
     = ([], Ret (mode_size m, Ascii.eqb (char_at m 1) "p"))) /\
  (forall bus addr d m more rq3,
     outcome_of (parse_positional e [bus; addr; d]) = Ret rq3 ->
     mode_known m = true ->
     parse_positional e (bus :: addr :: d :: m :: more)
     = ([], Ret {| i2cbus := i2cbus rq3; address := address rq3;
                   size := mode_size m; daddress := daddress rq3;
                   daddrlen := daddrlen rq3;
                   pec := Ascii.eqb (char_at m 1) "p" |})).
Proof.
  intros Hflags Hv Hp. rewrite (main_run _ _ _ _ Hflags).
  pose proof (request_of_args _ _ _ Hp) as (A2 & A3 & A4).
  pose proof (run_pec_calls e f pos rq Hv Hp) as Hcalls.
  split; [|split; [|split; [|split]]].
  - split.
    + intros Hpec.
      destruct (parse_positional_ret _ _ _ Hp)
        as (_ & b & a & rest & sz & Hpos & _).
      destruct rest as [|d [|m more]].
      * destruct (A2 _ _ Hpos) as (_ & _ & C). congruence.
      * destruct (A3 _ _ _ Hpos) as (_ & _ & C). congruence.
      * destruct (A4 _ _ _ _ _ Hpos) as (_ & C & _).
        exists b, a, d, m, more. split; [assumption|].
        apply Ascii.eqb_eq. congruence.
    + intros (b & a & d & m & more & Hpos & Hc).
      destruct (A4 _ _ _ _ _ Hpos) as (_ & C & _).
      rewrite C. now apply Ascii.eqb_eq.
  - intros fd Hin.
    assert (Hin' : In (Ioctl_PEC fd) (pec_calls_of (trace_of (run e f pos))))
      by (apply filter_In; split; [assumption|reflexivity]).
    rewrite Hcalls in Hin'.
    destruct (outcome_of (open_device e f rq)); try contradiction.
    destruct (outcome_of (ask e f rq)); try contradiction.
    destruct (pec rq); [reflexivity|contradiction].
  - intros file Hod Ha Hpec. rewrite Hod, Ha, Hpec in Hcalls.
    assert (Hin : In (Ioctl_PEC file)
                     (pec_calls_of (trace_of (run e f pos))))
      by (rewrite Hcalls; left; reflexivity).
    apply filter_In in Hin. tauto.
  - intros d m more sz. apply parse_mode_accepts.
  - intros bus addr d m more rq3. apply parse_positional_accepts.
Qed.

Lemma pec_iff_second_char_p_witness :
  let e := Sample.world false Sample.all_funcs Other_answer None 0xab in
  In (Ioctl_PEC 3)
     (trace_of (main e ["i2cget"; "-y"; "1"; "0x48"; "0x10"; "bp"]%string)) /\
  ~ In (Ioctl_PEC 3)
      (trace_of (main e ["i2cget"; "-y"; "1"; "0x48"; "0x10"; "bx"]%string)) /\
  parse_positional e ["1"; "0x48"; "0x10"; "wz"]%string
  = ([], Ret {| i2cbus := 1; address := 0x48; size := I2C_SMBUS_WORD_DATA;
                daddress := 0x10; daddrlen := 1; pec := false |}).
Proof.
  intros e. split; [|split].
  - destruct (pec_iff_second_char_p e
                ["i2cget"; "-y"; "1"; "0x48"; "0x10"; "bp"]%string
                {| version := false; force := false; yes := true;
                   length := 0 |}
                ["1"; "0x48"; "0x10"; "bp"]%string
                {| i2cbus := 1; address := 0x48;
                   size := I2C_SMBUS_BYTE_DATA;
                   daddress := 0x10; daddrlen := 1; pec := true |})
      as (_ & _ & C & _);
      [vm_compute; reflexivity | reflexivity | vm_compute; reflexivity |].
    apply C; [vm_compute; reflexivity | reflexivity | reflexivity].
  - destruct (pec_iff_second_char_p e
                ["i2cget"; "-y"; "1"; "0x48"; "0x10"; "bx"]%string
                {| version := false; force := false; yes := true;
                   length := 0 |}
                ["1"; "0x48"; "0x10"; "bx"]%string
                {| i2cbus := 1; address := 0x48;
                   size := I2C_SMBUS_BYTE_DATA;
                   daddress := 0x10; daddrlen := 1; pec := false |})
      as (_ & N & _ & _);
      [vm_compute; reflexivity | reflexivity | vm_compute; reflexivity |].
    intros Hin. specialize (N 3 Hin). discriminate.
  - destruct (pec_iff_second_char_p e
                ["i2cget"; "-y"; "1"; "0x48"; "0x10"; "bx"]%string
                {| version := false; force := false; yes := true;
                   length := 0 |}
                ["1"; "0x48"; "0x10"; "bx"]%string
                {| i2cbus := 1; address := 0x48;
                   size := I2C_SMBUS_BYTE_DATA;
                   daddress := 0x10; daddrlen := 1; pec := false |})
      as (_ & _ & _ & _ & A);
      [vm_compute; reflexivity | reflexivity | vm_compute; reflexivity |].
    exact (A "1" "0x48" "0x10" "wz" []
             {| i2cbus := 1; address := 0x48; size := I2C_SMBUS_BYTE_DATA;
                daddress := 0x10; daddrlen := 1; pec := false |}
             eq_refl eq_refl)%string.
Defined.

(** * Further properties *)

(** ** The option flags *)

(** What a run of the flag loop over [args] from [f0] satisfies *)
Definition flags_post (args : list string) (f0 : flags_t)
           (m : M (flags_t * list string)) : Prop :=
  match outcome_of m with
  | Ret (f, pos) =>
    trace_of m = [] /\
    (exists pre, args = pre ++ pos) /\
    match pos with
    | [] => True
    | a :: _ => char_at a 0 <> "-"%char
    end /\
    (length f = length f0 \/
     (length f <> 0 /\ INT_MIN <= length f <= INT_MAX))
  | Exit n => n = 1 /\ filter not_stderr (trace_of m) = []
  | Undefined => False
  end.

Lemma flags_post_step (a : string) (pre0 : list string) (rest : list string)
      (f0 f1 : flags_t) (m : M (flags_t * list string)) :
  length f1 = length f0
  \/ (length f1 <> 0 /\ INT_MIN <= length f1 <= INT_MAX) ->
  flags_post rest f1 m -> flags_post (a :: pre0 ++ rest) f0 m.
Proof.
  intros Hlen. unfold flags_post.
  destruct (outcome_of m) as [[f pos]| |]; auto.
  intros (Ht & (pre & Hpre) & Hhead & Hl).
  split; [assumption|]. split.
  - exists (a :: pre0 ++ pre). rewrite Hpre. cbn [app].
    now rewrite app_assoc.
  - split; [assumption|].
    destruct Hl as [Hl|Hl]; [|now right].
    rewrite Hl. exact Hlen.
Qed.

Lemma flags_post_checked (args : list string) (f0 : flags_t) (len : Z)
      (end_ : string) (k : M (flags_t * list string)) :
  (len <> 0 -> flags_post args f0 k) ->
  flags_post args f0 (length_checked len end_ ;; k).
Proof.
  intros Hk. unfold length_checked.
  destruct (negb (at_end end_) || (len =? 0)) eqn:E.
  - unfold flags_post. cbn. auto.
  - rewrite bind_ret_l. apply Hk.
    apply orb_false_iff in E. destruct E as [_ E]. now apply Z.eqb_neq.
Qed.

Lemma parse_flags_post (e : env) (args : list string) :
  forall f0, flags_post args f0 (parse_flags e args f0).
Proof.
  induction args as [args IH] using
    (well_founded_induction
       (Wf_nat.well_founded_ltof _ (@List.length string))).
  intros f0. destruct args as [|a rest].
  { unfold flags_post. cbn. repeat split; auto. now exists []. }
  assert (Hrest : Wf_nat.ltof _ (@List.length string) rest (a :: rest))
    by (unfold Wf_nat.ltof; simpl; lia).
  cbn [parse_flags].
  destruct (negb (Ascii.eqb (char_at a 0) "-")) eqn:Edash.
  { unfold flags_post. cbn. repeat split; auto.
    - now exists [].
    - apply negb_true_iff in Edash. now apply Ascii.eqb_neq. }
  destruct (Ascii.eqb (char_at a 1) "V").
  { eapply (flags_post_step a [] rest f0); [|apply IH, Hrest].
    left. reflexivity. }
  destruct (Ascii.eqb (char_at a 1) "f").
  { eapply (flags_post_step a [] rest f0); [|apply IH, Hrest].
    left. reflexivity. }
  destruct (Ascii.eqb (char_at a 1) "y").
  { eapply (flags_post_step a [] rest f0); [|apply IH, Hrest].
    left. reflexivity. }
  destruct (Ascii.eqb (char_at a 1) "l").
  2:{ unfold flags_post. cbn. auto. }
  destruct rest as [|b rest'].
  - apply flags_post_checked. intros Hne.
    unfold flags_post. cbn. repeat split; auto.
    + now exists [a].
    + right. split; [assumption|apply to_int_range].
  - destruct (at_end (snd (strtol e (str_drop 2 a)))
              && (to_int (fst (strtol e (str_drop 2 a))) =? 0)).
    + apply flags_post_checked. intros Hne.
      apply (flags_post_step a [b] rest' f0
               {| version := version f0; force := force f0; yes := yes f0;
                  length := to_int (fst (strtol e b)) |}).
      * right. cbn [length]. split; [assumption|apply to_int_range].
      * apply IH. unfold Wf_nat.ltof; simpl; lia.
    + apply flags_post_checked. intros Hne.
      apply (flags_post_step a [] (b :: rest') f0
               {| version := version f0; force := force f0; yes := yes f0;
                  length := to_int (fst (strtol e (str_drop 2 a))) |}).
      * right. cbn [length]. split; [assumption|apply to_int_range].
      * apply IH, Hrest.
Qed.

(** X1.  When the option flags of a command line parse, nothing was
    printed; the positional arguments handed on are what is left of the
    command line behind the flags, and the first of them, if there is
    one, does not start with a dash; the raw length is 0 (no length was
    given) or a nonzero [int]. *)
Theorem flags_parse_postcondition (e : env) (argv : list string)
        (f : flags_t) (pos : list string) :
  outcome_of (parse_flags e (tl argv) no_flags) = Ret (f, pos) ->
  trace_of (parse_flags e (tl argv) no_flags) = [] /\
  (exists flags, tl argv = flags ++ pos) /\
  (forall a more, pos = a :: more -> char_at a 0 <> "-"%char) /\
  (length f = 0 \/ (length f <> 0 /\ INT_MIN <= length f <= INT_MAX)).
Proof.
  intros H. pose proof (parse_flags_post e (tl argv) no_flags) as P.
  unfold flags_post in P. rewrite H in P.
  destruct P as (Ht & Hpre & Hhead & Hlen).
  repeat split; auto.
  intros a more ->. exact Hhead.
Qed.

Lemma flags_parse_postcondition_witness :
  let e := Sample.world false Sample.all_funcs Other_answer None 0 in
  let argv := ["i2cget"; "-f"; "-l"; "2"; "-y"; "1"; "0x48"; "-7"]%string in
  exists flags, tl argv = flags ++ ["1"; "0x48"; "-7"]%string.
Proof.
  intros e argv.
  exact (proj1 (proj2 (flags_parse_postcondition e argv
                         {| version := false; force := true; yes := true;
                            length := 2 |}
                         ["1"; "0x48"; "-7"]%string eq_refl))).
Defined.

(** Rejected flags end the run with status 1; the flag loop has no other
    way out. *)
Lemma parse_flags_outcome (e : env) (args : list string) (f0 : flags_t) :
  (exists r, outcome_of (parse_flags e args f0) = Ret r) \/
  (outcome_of (parse_flags e args f0) = Exit 1 /\
   filter not_stderr (trace_of (parse_flags e args f0)) = []).
Proof.
  pose proof (parse_flags_post e args f0) as P. unfold flags_post in P.
  destruct (outcome_of (parse_flags e args f0)) as [r|n|].
  - left. now exists r.
  - right. destruct P as [-> P]. auto.
  - contradiction.
Qed.

(** X2.  The two spellings of the length option agree: where [strtol]
    converts nothing of an empty string, a nonzero length given as the
    next argument ([-l n]) and the same length attached to the option
    ([-ln]) leave the flag loop in the same state, with the same
    diagnostics and the same positional arguments. *)
Theorem length_option_spellings (e : env) (n : string) (rest : list string)
        (f0 : flags_t) :
  to_int (fst (strtol e EmptyString)) = 0 ->
  at_end (snd (strtol e EmptyString)) = true ->
  to_int (fst (strtol e n)) <> 0 ->
  parse_flags e ("-l"%string :: n :: rest) f0
  = parse_flags e (String.append "-l" n :: rest) f0.
Proof.
  intros H0 Hend Hn.
  cbn [parse_flags String.append].
  change (char_at "-l" 0) with "-"%char.
  change (char_at "-l" 1) with "l"%char.
  change (char_at (String "-" (String "l" n)) 0) with "-"%char.
  change (char_at (String "-" (String "l" n)) 1) with "l"%char.
  cbn [Ascii.eqb Bool.eqb negb andb].
  change (str_drop 2 "-l") with EmptyString.
  change (str_drop 2 (String "-" (String "l" n))) with n.
  rewrite H0, Hend. cbn [Z.eqb andb].
  apply Z.eqb_neq in Hn. rewrite Hn, andb_false_r.
  destruct rest; reflexivity.
Qed.

Lemma length_option_spellings_witness :
  let e := Sample.world false Sample.all_funcs Other_answer None 0 in
  parse_flags e ["-l"; "3"; "1"; "0x48"]%string no_flags
  = parse_flags e ["-l3"; "1"; "0x48"]%string no_flags.
Proof.
  intros e.
  apply (length_option_spellings e "3" ["1"; "0x48"]%string no_flags).
  - reflexivity.
  - reflexivity.
  - vm_compute. discriminate.
Defined.

(** ** Accepted arguments *)

(** X3.  The request built from accepted positional arguments is well
    formed: bus and chip address are not negative; the size is one of
    the three SMBus sizes; either no register address was given, and then
    the address is -1 with width 0, the size is I2C_SMBUS_BYTE and PEC is
    off, or one was given, and then it lies in 0 .. 2^24-1 and the width
    is its number of bytes.  So the two sizes that read a register never
    come with a missing register address. *)
Theorem accepted_request_well_formed (e : env) (pos : list string)
        (rq : request) :
  outcome_of (parse_positional e pos) = Ret rq ->
  0 <= i2cbus rq /\ 0 <= address rq /\
  (size rq = I2C_SMBUS_BYTE \/ size rq = I2C_SMBUS_BYTE_DATA
   \/ size rq = I2C_SMBUS_WORD_DATA) /\
  ((List.length pos = 2%nat /\ daddress rq = -1 /\ daddrlen rq = 0 /\
    size rq = I2C_SMBUS_BYTE /\ pec rq = false) \/
   ((3 <= List.length pos)%nat /\ 0 <= daddress rq < 2 ^ 24 /\
    0 <= daddrlen rq <= 3 /\ daddress rq < 2 ^ (8 * daddrlen rq) /\
    (forall w, 0 <= w < daddrlen rq -> 2 ^ (8 * w) <= daddress rq))) /\
  (size rq <> I2C_SMBUS_BYTE -> 0 <= daddress rq).
Proof.
  intros H. destruct (parse_positional_ret _ _ _ H)
    as (_ & b & a & rest & sz & Hpos & _ & Hbus & _ & Haddr & Hd & Hm).
  assert (Hd' : outcome_of (parse_daddress e rest)
                = Ret (sz, daddress rq, daddrlen rq)) by now rewrite Hd.
  assert (Hm' : outcome_of (parse_mode rest sz) = Ret (size rq, pec rq))
    by now rewrite Hm.
  apply parse_daddress_ret in Hd'. apply parse_mode_ret in Hm'.
  destruct Hd' as [_ Hd']. destruct Hm' as [_ Hm'].
  split; [assumption|]. split; [assumption|].
  assert (Hsize : size rq = I2C_SMBUS_BYTE \/ size rq = I2C_SMBUS_BYTE_DATA
                  \/ size rq = I2C_SMBUS_WORD_DATA).
  { destruct Hm' as [(-> & _)|(? & ? & ? & _ & _ & Hc)].
    - destruct Hd' as [(_ & -> & _)|(? & ? & _ & -> & _)]; auto.
    - destruct Hc as [(_ & ->)|[(_ & ->)|(_ & ->)]]; auto. }
  split; [assumption|].
  assert (Hcases :
    (List.length pos = 2%nat /\ daddress rq = -1 /\ daddrlen rq = 0 /\
     size rq = I2C_SMBUS_BYTE /\ pec rq = false) \/
    ((3 <= List.length pos)%nat /\ 0 <= daddress rq < 2 ^ 24 /\
     0 <= daddrlen rq <= 3 /\ daddress rq < 2 ^ (8 * daddrlen rq) /\
     (forall w, 0 <= w < daddrlen rq -> 2 ^ (8 * w) <= daddress rq))).
  { destruct Hd' as [(-> & -> & -> & ->)|(d & rest' & -> & _ & _ & _ & Hge & Hw)].
    - left. subst pos. cbn [List.length].
      destruct Hm' as [(-> & -> & _)|(? & ? & ? & C & _)];
        [auto|discriminate].
    - right. subst pos. cbn [List.length].
      destruct (infer_daddrlen_width _ _ Hge Hw) as (Hn & H24 & Hlt & Hmin).
      repeat split; auto; lia. }
  split; [assumption|].
  intros Hne. destruct Hcases as [(_ & _ & _ & C & _)|(_ & Hr & _)];
    [contradiction|lia].
Qed.

Lemma accepted_request_well_formed_witness :
  let e := Sample.world false Sample.all_funcs Other_answer None 0 in
  let rq := {| i2cbus := 1; address := 0x48; size := I2C_SMBUS_WORD_DATA;
               daddress := 0x1234; daddrlen := 2; pec := true |} in
  outcome_of (parse_positional e ["1"; "0x48"; "0x1234"; "wp"]%string)
  = Ret rq /\
  0 <= i2cbus rq /\ 0 <= address rq /\
  (size rq = I2C_SMBUS_BYTE \/ size rq = I2C_SMBUS_BYTE_DATA
   \/ size rq = I2C_SMBUS_WORD_DATA).
Proof.
  intros e rq.
  pose proof (accepted_request_well_formed e
                ["1"; "0x48"; "0x1234"; "wp"]%string rq eq_refl)
    as (Hb & Ha & Hs & _).
  exact (conj eq_refl (conj Hb (conj Ha Hs))).
Defined.

(** ** The capability check, further *)

(** X4.  PEC is advisory in the capability check: whether PEC is
    requested never changes what [check_funcs] returns.  Requesting it
    adds at most one line, the warning, at the end of a check that
    passed, and exactly when the adapter reports neither the PEC nor the
    I2C function. *)
Theorem check_funcs_pec_is_advisory (e : env) (file size daddress : Z) :
  outcome_of (check_funcs e file size daddress true)
  = outcome_of (check_funcs e file size daddress false) /\
  trace_of (check_funcs e file size daddress true)
  = trace_of (check_funcs e file size daddress false)
    ++ match outcome_of (check_funcs e file size daddress false) with
       | Ret 0 =>
         if has_func (snd (ioctl_FUNCS e file))
                     (Z.lor I2C_FUNC_SMBUS_PEC I2C_FUNC_I2C)
         then [] else [Stderr Warn_no_pec_support]
       | _ => []
       end.
Proof.
  unfold check_funcs, check_funcs_pec, bind, call, fprintf_stderr, emit, ret,
    outcome_of, trace_of.
  cbn [fst snd andb negb app].
  destruct (fst (ioctl_FUNCS e file) <? 0); [split; reflexivity|].
  destruct (has_func (snd (ioctl_FUNCS e file))
                     (Z.lor I2C_FUNC_SMBUS_PEC I2C_FUNC_I2C));
    cbn [fst snd andb negb app];
    repeat (break_if; cbn [fst snd andb negb app]); split; reflexivity.
Qed.

Lemma has_func_lor (funcs extra flag : Z) :
  has_func funcs flag = true -> has_func (Z.lor funcs extra) flag = true.
Proof.
  unfold has_func. rewrite !negb_true_iff, !Z.eqb_neq.
  intros H C. apply H.
  rewrite Z.land_lor_distr_l in C. apply Z.lor_eq_0_iff in C. tauto.
Qed.

(** X5.  More capabilities never break the check: if [check_funcs]
    passes on an adapter, it passes on any adapter that answers the
    functionality query the same way and reports those functions and
    more. *)
Theorem check_funcs_monotone (e e' : env) (file size daddress extra : Z)
        (pec : bool) :
  ioctl_FUNCS e' file
  = (fst (ioctl_FUNCS e file), Z.lor (snd (ioctl_FUNCS e file)) extra) ->
  outcome_of (check_funcs e file size daddress pec) = Ret 0 ->
  outcome_of (check_funcs e' file size daddress pec) = Ret 0.
Proof.
  intros He' H. apply check_funcs_ok_iff in H. apply check_funcs_ok_iff.
  rewrite He'. cbn [fst snd]. destruct H as [Hq Hr]. split; [assumption|].
  revert Hr. unfold required_funcs_present.
  destruct (size =? I2C_SMBUS_BYTE).
  { rewrite !andb_true_iff, !orb_true_iff. intros [H1 [H2|H2]].
    - split; [now apply has_func_lor|now left].
    - split; [now apply has_func_lor|right; now apply has_func_lor]. }
  destruct (size =? I2C_SMBUS_BYTE_DATA); [apply has_func_lor|].
  destruct (size =? I2C_SMBUS_WORD_DATA); [apply has_func_lor|auto].
Qed.

Lemma check_funcs_monotone_witness :
  let e := Sample.world false I2C_FUNC_SMBUS_READ_BYTE Other_answer None 0 in
  let e' := Sample.world false
              (Z.lor I2C_FUNC_SMBUS_READ_BYTE I2C_FUNC_SMBUS_PEC)
              Other_answer None 0 in
  outcome_of (check_funcs e' 3 I2C_SMBUS_BYTE (-1) true) = Ret 0.
Proof.
  intros e e'.
  apply (check_funcs_monotone e e' 3 I2C_SMBUS_BYTE (-1)
           I2C_FUNC_SMBUS_PEC true); reflexivity.
Defined.

(** ** writeaddr, further *)

Lemma capped_cases (len : Z) :
  0 <= len ->
  (len = 0 /\ capped len = 0) \/ (len = 1 /\ capped len = 1)
  \/ (2 <= len /\ capped len = 2).
Proof.
  intros H. unfold capped, MAX_ADDR_LEN.
  destruct (len >? 2) eqn:E.
  - rewrite Z.gtb_ltb in E. apply Z.ltb_lt in E. right. right. lia.
  - rewrite Z.gtb_ltb in E. apply Z.ltb_ge in E. lia.
Qed.

(** X6.  [writeaddr] never stops the run.  Without a register address
    (a negative [adr]) it does nothing at all.  With one it issues
    exactly one [write], of [len] bytes but at most 2, which hold the
    low-order bytes of the address, most significant first; a [write]
    that returns another count than asked for is reported by a warning
    and by nothing else. *)
Theorem writeaddr_contract (e : env) (file adr len : Z) :
  0 <= len ->
  outcome_of (writeaddr e file adr len) = Ret tt /\
  (adr < 0 -> trace_of (writeaddr e file adr len) = []) /\
  (0 <= adr ->
   exists buf,
     traffic_of (trace_of (writeaddr e file adr len)) = [Sys_write file buf] /\
     Z.of_nat (List.length buf) = capped len /\
     decode_be buf = adr mod 2 ^ (8 * capped len) /\
     trace_of (writeaddr e file adr len)
     = Sys_write file buf
       :: (if write e file buf =? capped len then []
           else [Stderr Warn_write_failed])).
Proof.
  intros Hlen. split; [now apply writeaddr_ret|]. split.
  - intros Ha. now rewrite writeaddr_absent.
  - intros Ha. exists (encoded adr len).
    split.
    { rewrite writeaddr_traffic by assumption.
      apply Z.leb_le in Ha. now rewrite Ha. }
    split; [|split].
    + destruct (capped_cases len Hlen) as [(-> & ->)|[(-> & ->)|(H2 & ->)]].
      * reflexivity.
      * reflexivity.
      * destruct (encoded_capped adr len H2) as [_ L]. now rewrite L.
    + destruct (capped_cases len Hlen) as [(-> & ->)|[(-> & ->)|(H2 & ->)]].
      * cbn. now rewrite Z.mod_1_r.
      * destruct (encoded_1 adr) as [D _]. now rewrite D.
      * destruct (encoded_capped adr len H2) as [D _]. now rewrite D.
    + now rewrite writeaddr_eq.
Qed.

Lemma writeaddr_contract_witness :
  let e := Sample.world false Sample.all_funcs Other_answer None 0 in
  exists buf,
    traffic_of (trace_of (writeaddr e 3 0x123456 3)) = [Sys_write 3 buf] /\
    Z.of_nat (List.length buf) = 2 /\
    decode_be buf = 0x3456.
Proof.
  intros e.
  destruct (writeaddr_contract e 3 0x123456 3) as (_ & _ & W);
    [lia|].
  destruct W as (buf & T & L & D & _); [lia|].
  exists buf. split; [exact T|]. split; [exact L|exact D].
Defined.

(** ** The way to the bus *)

Lemma open_device_ret_inv (e : env) (f : flags_t) (rq : request) (file : Z) :
  outcome_of (open_device e f rq) = Ret file ->
  file = open_i2c_dev e (i2cbus rq) /\ 0 <= file /\
  outcome_of (check_funcs e file (size rq) (daddress rq) (pec rq)) = Ret 0 /\
  set_slave_addr e file (address rq) (force f) = 0 /\
  trace_of (open_device e f rq)
  = Open_i2c_dev (i2cbus rq)
    :: trace_of (check_funcs e file (size rq) (daddress rq) (pec rq))
    ++ [Set_slave_addr file (address rq) (force f)].
Proof.
  unfold open_device, call. rewrite bind_pair_Ret.
  cbn [trace_of outcome_of fst snd].
  destruct (open_i2c_dev e (i2cbus rq) <? 0) eqn:Ef; [discriminate|].
  apply Z.ltb_ge in Ef.
  destruct (check_funcs_outcome e (open_i2c_dev e (i2cbus rq)) (size rq)
              (daddress rq) (pec rq)) as [C|C];
    rewrite (bind_Ret _ _ _ C); cbn [fst snd negb Z.eqb]; [|discriminate].
  unfold bind. cbn [fst snd].
  destruct (set_slave_addr e (open_i2c_dev e (i2cbus rq)) (address rq)
              (force f) =? 0) eqn:Es; cbn [negb fst snd]; [|discriminate].
  apply Z.eqb_eq in Es.
  intros H. inversion H; subst. cbn [ret fst app].
  rewrite ?app_nil_r. repeat split; auto.
Qed.

Lemma ask_ret_inv (e : env) (f : flags_t) (rq : request) :
  outcome_of (ask e f rq) = Ret tt ->
  yes f = true \/
  outcome_of (confirm e (address rq) (size rq) (daddress rq) (pec rq))
  = Ret 1.
Proof.
  unfold ask. destruct (yes f); [auto|]. cbn [negb].
  destruct (confirm_outcome e (address rq) (size rq) (daddress rq) (pec rq))
    as [H|H]; rewrite (bind_Ret _ _ _ H); [discriminate|auto].
Qed.

Lemma enable_pec_ret_inv (e : env) (rq : request) (file : Z) :
  outcome_of (enable_pec e rq file) = Ret tt ->
  pec rq = true -> 0 <= ioctl_PEC e file.
Proof.
  unfold enable_pec. intros H Hp. rewrite Hp in H.
  unfold call in H. rewrite bind_pair_Ret in H.
  cbn [trace_of outcome_of fst snd] in H.
  destruct (ioctl_PEC e file <? 0) eqn:E; [discriminate|].
  now apply Z.ltb_ge in E.
Qed.

(** A trace of diagnostics only shows no other kind of event. *)
Lemma only_stderr_filter (p : event -> bool) (t : list event) :
  (forall d, p (Stderr d) = false) ->
  filter not_stderr t = [] -> filter p t = [].
Proof.
  intros Hp. induction t as [|ev t IH]; [reflexivity|].
  destruct ev; cbn; try discriminate. rewrite Hp. exact IH.
Qed.

Lemma main_flags_rejected (e : env) (argv : list string) :
  outcome_of (parse_flags e (tl argv) no_flags) = Exit 1 ->
  main e argv = (trace_of (parse_flags e (tl argv) no_flags), Exit 1).
Proof. intros H. unfold main. apply (bind_Exit _ _ _ H). Qed.

(** X7.  Nothing is read from the bus unless every step before it went
    through: a run that issues a read has parsed its flags and
    arguments, did not ask for the version, opened the device, passed
    the capability check, bound the chip address, was confirmed (or run
    with the assume-yes flag) and, if PEC was requested, switched it on
    successfully. *)
Theorem read_only_after_every_gate (e : env) (argv : list string) :
  reads_of (trace_of (main e argv)) <> [] ->
  exists f pos rq,
    outcome_of (parse_flags e (tl argv) no_flags) = Ret (f, pos) /\
    version f = false /\
    outcome_of (parse_positional e pos) = Ret rq /\
    let file := open_i2c_dev e (i2cbus rq) in
    0 <= file /\
    outcome_of (check_funcs e file (size rq) (daddress rq) (pec rq)) = Ret 0 /\
    set_slave_addr e file (address rq) (force f) = 0 /\
    (yes f = true \/
     outcome_of (confirm e (address rq) (size rq) (daddress rq) (pec rq))
     = Ret 1) /\
    (pec rq = true -> 0 <= ioctl_PEC e file).
Proof.
  intros Hreads.
  destruct (parse_flags_outcome e (tl argv) no_flags)
    as [[[f pos] Hflags]|[Hx Hq]].
  2:{ exfalso. apply Hreads. rewrite (main_flags_rejected _ _ Hx).
      cbn [trace_of fst]. apply only_stderr_filter; [reflexivity|exact Hq]. }
  exists f, pos. rewrite (main_run _ _ _ _ Hflags) in Hreads.
  unfold reads_of in Hreads.
  rewrite run_filter_total in Hreads by reflexivity.
  destruct (version f) eqn:Hv; [contradiction|].
  destruct (outcome_of (parse_positional e pos)) as [rq| |] eqn:Hp;
    try contradiction.
  destruct (outcome_of (open_and_check e f rq)) as [file| |] eqn:Ho;
    try contradiction.
  exists rq.
  destruct (open_and_check_ret _ _ _ _ Ho) as (Hfile & Hod & Ha & He & _).
  destruct (open_device_ret_inv _ _ _ _ Hod) as (_ & Hge & Hc & Hs & _).
  subst file.
  repeat split; auto.
  - now apply ask_ret_inv.
  - now apply enable_pec_ret_inv.
Qed.

Lemma read_only_after_every_gate_witness :
  let e := Sample.world false Sample.all_funcs Other_answer None 0xab in
  exists f pos rq,
    outcome_of (parse_flags e ["-y"; "1"; "0x48"; "0x10"; "bp"]%string
                  no_flags) = Ret (f, pos) /\
    version f = false /\
    outcome_of (parse_positional e pos) = Ret rq.
Proof.
  intros e.
  destruct (read_only_after_every_gate e
              ["i2cget"; "-y"; "1"; "0x48"; "0x10"; "bp"]%string)
    as (f & pos & rq & H1 & H2 & H3 & _).
  - vm_compute. discriminate.
  - exists f, pos, rq. split; [exact H1|]. split; [exact H2|exact H3].
Defined.

(** ** How a run ends *)

Lemma parse_daddress_outcome (e : env) (rest : list string) :
  (exists r, outcome_of (parse_daddress e rest) = Ret r) \/
  outcome_of (parse_daddress e rest) = Exit 1 \/
  parse_daddress e rest = ([], Undefined).
Proof.
  unfold parse_daddress. destruct rest as [|d rest'].
  { left. eexists; reflexivity. }
  destruct (at_end (snd (strtol e d)) && (0 <=? to_int (fst (strtol e d)))).
  - destruct (infer_daddrlen 4 (to_int (fst (strtol e d))) 0).
    + left. eexists; reflexivity.
    + right. right. reflexivity.
    + right. right. reflexivity.
  - right. left. reflexivity.
Qed.

Lemma parse_mode_outcome (rest : list string) (sz : Z) :
  (exists r, outcome_of (parse_mode rest sz) = Ret r) \/
  outcome_of (parse_mode rest sz) = Exit 1.
Proof.
  unfold parse_mode. destruct rest as [|d [|m more]];
    try (left; eexists; reflexivity).
  repeat (break_if; [left; eexists; reflexivity|]).
  right. reflexivity.
Qed.

Lemma parse_positional_outcome (e : env) (pos : list string) :
  (exists rq, outcome_of (parse_positional e pos) = Ret rq) \/
  outcome_of (parse_positional e pos) = Exit 1 \/
  parse_positional e pos = ([], Undefined).
Proof.
  unfold parse_positional.
  destruct pos as [|bus_arg [|addr_arg rest]];
    try (right; left; reflexivity).
  destruct (lookup_i2c_bus e bus_arg <? 0); [right; left; reflexivity|].
  destruct (parse_i2c_address e addr_arg <? 0); [right; left; reflexivity|].
  destruct (parse_daddress_outcome e rest) as [[[[sz da] dl] Hd]|[Hd|Hd]].
  - destruct (parse_daddress_ret _ _ _ _ _ Hd) as [-> _].
    rewrite bind_pair_Ret. cbn [fst snd app trace_of outcome_of].
    destruct (parse_mode_outcome rest sz) as [[[size' pec'] Hm]|Hm].
    + left. destruct (parse_mode_ret _ _ _ _ Hm) as [-> _].
      eexists; reflexivity.
    + right. left. now rewrite (bind_Exit _ _ _ Hm).
  - right. left. now rewrite (bind_Exit _ _ _ Hd).
  - right. right. now rewrite Hd.
Qed.

Lemma transaction_reads (e : env) (file length size daddress daddrlen : Z) :
  0 <= daddrlen ->
  match outcome_of (transaction e file length size daddress daddrlen) with
  | Ret _ =>
    List.length
      (reads_of (trace_of (transaction e file length size daddress daddrlen)))
    = 1%nat
  | Exit n =>
    n = 1 /\
    traffic_of (trace_of (transaction e file length size daddress daddrlen))
    = []
  | Undefined => False
  end.
Proof.
  intros Hdl. unfold transaction.
  pose proof (writeaddr_ret e file daddress daddrlen Hdl) as Hw.
  assert (Hq : reads_of (trace_of (writeaddr e file daddress daddrlen)) = [])
    by (apply writeaddr_quiet; reflexivity).
  destruct (negb (length =? 0)).
  - unfold calloc, call. rewrite bind_pair_Ret.
    cbn [trace_of outcome_of fst snd].
    destruct ((to_size_t length * sizeof_int >? SIZE_MAX) || out_of_memory e).
    + cbn. auto.
    + rewrite (bind_Ret _ _ _ Hw). cbn [fst snd].
      rewrite bind_pair_Ret. cbn [fst snd trace_of outcome_of].
      unfold reads_of, trace_of in *.
      destruct (read e file (to_size_t length)); cbn [fst snd ret];
        cbn [app filter is_read]; rewrite filter_app, Hq; reflexivity.
  - destruct (size =? I2C_SMBUS_BYTE).
    + rewrite (bind_Ret _ _ _ Hw). cbn [fst snd outcome_of trace_of].
      unfold reads_of, trace_of in *. rewrite filter_app, Hq. reflexivity.
    + destruct (size =? I2C_SMBUS_WORD_DATA); reflexivity.
Qed.

Lemma print_loop_ret (e : env) (length : Z) (buf : list byte) :
  outcome_of
    (if (length =? 1) || (length =? 2) || (length =? 4) || (length =? 8)
     then
       printf "0x" ;;
       print_packed e buf (Z.to_nat length) 0 ;;
       printf newline
     else
       print_separate e buf (Z.to_nat length) 0 ;;
       printf newline) = Ret tt.
Proof.
  break_if.
  - rewrite (outcome_bind_Ret _ _ tt (printf_ret _)).
    destruct (print_packed_stdout e buf (Z.to_nat length) 0%nat) as [Po _].
    now rewrite (outcome_bind_Ret _ _ tt Po).
  - destruct (print_separate_stdout e buf (Z.to_nat length)) as [Po _].
    now rewrite (outcome_bind_Ret _ _ tt Po).
Qed.

Lemma report_outcome (e : env) (length size res : Z) (buf : list byte) :
  outcome_of (report e length size res buf) = Ret 0 \/
  outcome_of (report e length size res buf) = Exit 2.
Proof.
  unfold report. destruct (negb (length =? 0)).
  - destruct (negb (length =? res)); [right; reflexivity|].
    left. now rewrite (outcome_bind_Ret _ _ tt (print_loop_ret e length buf)).
  - destruct (res <? 0); [right|left]; reflexivity.
Qed.

(** X8.  The way a run ends tells whether the bus was read.  A run
    returns 0 or exits with status 0, 1 or 2, or meets the undefined
    shift.  It returns 0 or exits with 2 only after exactly one read
    transaction; when it exits with 0 or 1, no address byte and no read
    went to the bus; and the undefined shift comes before any event. *)
Theorem exit_status_and_bus (e : env) (argv : list string) :
  match outcome_of (main e argv) with
  | Ret n =>
    n = 0 /\ List.length (reads_of (trace_of (main e argv))) = 1%nat
  | Exit n =>
    (n = 2 /\ List.length (reads_of (trace_of (main e argv))) = 1%nat) \/
    ((n = 0 \/ n = 1) /\ traffic_of (trace_of (main e argv)) = [])
  | Undefined => trace_of (main e argv) = []
  end.
Proof.
  destruct (parse_flags_outcome e (tl argv) no_flags)
    as [[[f pos] Hflags]|[Hx Hq]].
  2:{ rewrite (main_flags_rejected _ _ Hx). cbn [outcome_of trace_of fst snd].
      right. split; [auto|].
      apply only_stderr_filter; [reflexivity|exact Hq]. }
  rewrite (main_run _ _ _ _ Hflags).
  destruct (version f) eqn:Hv.
  { rewrite (run_version _ _ _ Hv). cbn. auto. }
  destruct (parse_positional_outcome e pos) as [[rq Hp]|[Hp|Hp]].
  2:{ rewrite (run_rejected _ _ _ _ Hv Hp). cbn [outcome_of trace_of fst snd].
      right. split; [auto|]. apply parse_positional_quiet. reflexivity. }
  2:{ unfold run. rewrite Hv, bind_ret_l, Hp. reflexivity. }
  pose proof (request_daddrlen _ _ _ Hp) as (Hdl & _ & _).
  destruct (open_and_check_outcome e f rq) as [Ho|[Ho|Ho]].
  { rewrite (run_setup_exit _ _ _ _ _ Hv Hp Ho).
    cbn [outcome_of trace_of fst snd]. right. split; [auto|].
    apply open_and_check_quiet; reflexivity. }
  { rewrite (run_setup_exit _ _ _ _ _ Hv Hp Ho).
    cbn [outcome_of trace_of fst snd]. right. split; [auto|].
    apply open_and_check_quiet; reflexivity. }
  rewrite (run_reads _ _ _ _ _ Hv Hp Ho), (run_traffic _ _ _ _ _ Hv Hp Ho).
  rewrite (run_after_setup _ _ _ _ _ Hv Hp Ho). cbn [outcome_of snd].
  pose proof (transaction_reads e (open_i2c_dev e (i2cbus rq)) (length f)
                (size rq) (daddress rq) (daddrlen rq) ltac:(lia)) as Ht.
  unfold read_and_report.
  destruct (outcome_of (transaction e (open_i2c_dev e (i2cbus rq)) (length f)
                          (size rq) (daddress rq) (daddrlen rq)))
    as [t|n|] eqn:Et; [| |contradiction].
  - rewrite (bind_Ret _ _ _ Et).
    unfold emit. rewrite bind_pair_Ret. unfold outcome_of. cbn [snd].
    destruct (report_outcome e (length f) (size rq) (fst t) (snd t))
      as [R|R]; unfold outcome_of in R; rewrite R; auto.
  - rewrite (bind_Exit _ _ _ Et). cbn [outcome_of snd].
    destruct Ht as [-> Ht]. auto.
Qed.

(** ** The life of the handle *)

Lemma handle_run_app (file : Z) (s : handle_state) (t1 t2 : list event) :
  handle_run file s (t1 ++ t2) =
  match handle_run file s t1 with
  | Some s1 => handle_run file s1 t2
  | None => None
  end.
Proof.
  revert s. induction t1 as [|ev t1 IH]; intros s; [reflexivity|].
  cbn [app handle_run]. destruct (handle_step file s ev); auto.
Qed.

Lemma handle_run_stderr (file : Z) (s : handle_state) (t : list event) :
  filter not_stderr t = [] -> handle_run file s t = Some s.
Proof.
  induction t as [|ev t IH]; [reflexivity|].
  destruct ev; cbn; try discriminate. destruct s; exact IH.
Qed.

(** The step [m], started with the handle in state [s], keeps to the
    order of events, and leaves the handle in state [s'] if it goes on. *)
Definition follows (file : Z) (s : handle_state) {A} (m : M A)
           (s' : handle_state) : Prop :=
  match outcome_of m with
  | Ret _ => handle_run file s (trace_of m) = Some s'
  | _ => exists s'', handle_run file s (trace_of m) = Some s''
  end.

Lemma follows_ret (file : Z) (s : handle_state) {A} (a : A) :
  follows file s (ret a) s.
Proof. reflexivity. Qed.

Lemma follows_exit (file : Z) (s s' : handle_state) {A} (n : Z) :
  follows file s (@exit A n) s'.
Proof. now exists s. Qed.

Lemma follows_stderr (file : Z) (s : handle_state) (d : diag) :
  follows file s (fprintf_stderr d) s.
Proof. unfold follows. cbn. now destruct s. Qed.

Lemma follows_call (file : Z) (s s' : handle_state) {A} (ev : event) (a : A) :
  handle_step file s ev = Some s' -> follows file s (call ev a) s'.
Proof. intros H. unfold follows. cbn. now rewrite H. Qed.

Lemma follows_bind (file : Z) (s s1 s2 : handle_state) {A B} (m : M A)
      (f : A -> M B) :
  follows file s m s1 ->
  (forall a, outcome_of m = Ret a -> follows file s1 (f a) s2) ->
  follows file s (bind m f) s2.
Proof.
  unfold follows. intros Hm Hf.
  destruct (outcome_of m) as [a| |] eqn:E.
  - rewrite (bind_Ret _ _ _ E). cbn [outcome_of trace_of fst snd].
    specialize (Hf a eq_refl). unfold outcome_of, trace_of in *.
    rewrite handle_run_app, Hm. exact Hf.
  - rewrite (bind_Exit _ _ _ E). exact Hm.
  - rewrite (bind_Undefined _ _ E). exact Hm.
Qed.

Lemma follows_quiet (file : Z) (s : handle_state) {A} (m : M A) :
  filter not_stderr (trace_of m) = [] -> follows file s m s.
Proof.
  intros H. unfold follows. rewrite (handle_run_stderr file s _ H).
  destruct (outcome_of m); eauto.
Qed.

Lemma follows_check_funcs (e : env) (file size daddress : Z) (pec : bool) :
  follows file Opened (check_funcs e file size daddress pec) Opened.
Proof.
  unfold check_funcs.
  apply (follows_bind file Opened Opened).
  { apply follows_call. cbn. now rewrite Z.eqb_refl. }
  intros r _. apply follows_quiet.
  unfold check_funcs_pec.
  repeat first
    [ reflexivity
    | apply filter_bind_nil; [|intros ?]
    | break_if ].
Qed.

Lemma follows_confirm (e : env) (file address size daddress : Z)
      (pec : bool) :
  follows file Opened (confirm e address size daddress pec) Opened.
Proof.
  unfold confirm.
  apply (follows_bind file Opened Opened); [apply follows_stderr|intros _ _].
  break_if.
  { apply (follows_bind file Opened Opened);
      [apply follows_stderr|intros _ _; apply follows_ret]. }
  apply (follows_bind file Opened Opened).
  { break_if; [apply follows_stderr|apply follows_ret]. }
  intros _ _.
  apply (follows_bind file Opened Opened); [apply follows_stderr|intros _ _].
  apply (follows_bind file Opened Opened).
  { break_if; [apply follows_stderr|apply follows_ret]. }
  intros _ _.
  apply (follows_bind file Opened Opened); [apply follows_stderr|intros _ _].
  apply (follows_bind file Opened Opened);
    [apply follows_call; reflexivity|intros ack _].
  break_if; [|apply follows_ret].
  apply (follows_bind file Opened Opened);
    [apply follows_stderr|intros _ _; apply follows_ret].
Qed.

Lemma follows_open_device (e : env) (f : flags_t) (rq : request) :
  follows (open_i2c_dev e (i2cbus rq)) Not_open (open_device e f rq) Opened.
Proof.
  unfold open_device.
  apply (follows_bind _ Not_open Opened);
    [apply follows_call; reflexivity|intros file Hfile].
  inversion Hfile; subst file. clear Hfile.
  break_if; [apply follows_exit|].
  apply (follows_bind _ Opened Opened);
    [apply follows_check_funcs|intros c _].
  break_if; [apply follows_exit|].
  apply (follows_bind _ Opened Opened).
  { apply follows_call. cbn. now rewrite Z.eqb_refl. }
  intros s _. break_if; [apply follows_exit|apply follows_ret].
Qed.

Lemma follows_ask (e : env) (f : flags_t) (rq : request) (file : Z) :
  follows file Opened (ask e f rq) Opened.
Proof.
  unfold ask. break_if; [|apply follows_ret].
  apply (follows_bind _ Opened Opened); [apply follows_confirm|intros c _].
  break_if; [apply follows_exit|apply follows_ret].
Qed.

Lemma follows_enable_pec (e : env) (rq : request) (file : Z) :
  follows file Opened (enable_pec e rq file) Opened.
Proof.
  unfold enable_pec. break_if; [|apply follows_ret].
  apply (follows_bind _ Opened Opened).
  { apply follows_call. cbn. now rewrite Z.eqb_refl. }
  intros r _. break_if; [|apply follows_ret].
  apply (follows_bind _ Opened Opened); [apply follows_stderr|intros _ _].
  apply (follows_bind _ Opened Closed).
  { apply (follows_call file Opened Closed). cbn. now rewrite Z.eqb_refl. }
  intros _ _. apply follows_exit.
Qed.

Lemma follows_writeaddr (e : env) (file adr len : Z) :
  follows file Opened (writeaddr e file adr len) Opened.
Proof.
  unfold writeaddr. break_if; [|apply follows_ret].
  break_if; [now exists Opened|].
  apply (follows_bind _ Opened Opened).
  { apply follows_call. cbn. now rewrite Z.eqb_refl. }
  intros r _. break_if; [apply follows_stderr|apply follows_ret].
Qed.

Lemma follows_transaction (e : env) (file length size daddress daddrlen : Z) :
  follows file Opened (transaction e file length size daddress daddrlen)
          Opened.
Proof.
  unfold transaction. break_if.
  - apply (follows_bind _ Opened Opened);
      [apply follows_call; reflexivity|intros p _].
    destruct p as [buf|].
    + apply (follows_bind _ Opened Opened);
        [apply follows_writeaddr|intros _ _].
      apply (follows_bind _ Opened Opened).
      { apply follows_call. cbn. now rewrite Z.eqb_refl. }
      intros r _. destruct r; apply follows_ret.
    + apply (follows_bind _ Opened Opened); [apply follows_stderr|intros _ _].
      apply (follows_bind _ Opened Closed).
      { apply (follows_call file Opened Closed). cbn. now rewrite Z.eqb_refl. }
      intros _ _. apply follows_exit.
  - break_if; [|break_if].
    + apply (follows_bind _ Opened Opened);
        [apply follows_writeaddr|intros _ _].
      apply (follows_bind _ Opened Opened).
      { apply follows_call. cbn. now rewrite Z.eqb_refl. }
      intros r _. apply follows_ret.
    + apply (follows_bind _ Opened Opened).
      { apply follows_call. cbn. now rewrite Z.eqb_refl. }
      intros r _. apply follows_ret.
    + apply (follows_bind _ Opened Opened).
      { apply follows_call. cbn. now rewrite Z.eqb_refl. }
      intros r _. apply follows_ret.
Qed.

Lemma follows_print_packed (e : env) (file : Z) (buf : list byte) (n : nat) :
  forall i, follows file Closed (print_packed e buf n i) Closed.
Proof.
  induction n as [|n IH]; intros i; [apply follows_ret|].
  cbn [print_packed].
  apply (follows_bind _ Closed Closed);
    [apply follows_call; reflexivity|intros _ _; apply IH].
Qed.

Lemma follows_print_separate (e : env) (file : Z) (buf : list byte)
      (n : nat) :
  forall i, follows file Closed (print_separate e buf n i) Closed.
Proof.
  induction n as [|n IH]; intros i; [apply follows_ret|].
  cbn [print_separate].
  apply (follows_bind _ Closed Closed).
  { break_if; [apply follows_call; reflexivity|apply follows_ret]. }
  intros _ _.
  apply (follows_bind _ Closed Closed);
    [apply follows_call; reflexivity|intros _ _; apply IH].
Qed.

Lemma follows_report (e : env) (file length size res : Z) (buf : list byte) :
  follows file Closed (report e length size res buf) Closed.
Proof.
  unfold report. break_if.
  - break_if.
    { apply (follows_bind _ Closed Closed);
        [apply follows_stderr|intros _ _; apply follows_exit]. }
    apply (follows_bind _ Closed Closed).
    { break_if.
      - apply (follows_bind _ Closed Closed);
          [apply follows_call; reflexivity|intros _ _].
        apply (follows_bind _ Closed Closed);
          [apply follows_print_packed|intros _ _].
        apply follows_call; reflexivity.
      - apply (follows_bind _ Closed Closed);
          [apply follows_print_separate|intros _ _].
        apply follows_call; reflexivity. }
    intros _ _.
    apply (follows_bind _ Closed Closed);
      [apply follows_call; reflexivity|intros _ _; apply follows_ret].
  - break_if.
    { apply (follows_bind _ Closed Closed);
        [apply follows_stderr|intros _ _; apply follows_exit]. }
    apply (follows_bind _ Closed Closed);
      [apply follows_call; reflexivity|intros _ _; apply follows_ret].
Qed.

Lemma follows_run (e : env) (f : flags_t) (pos : list string) :
  exists file, follows file Not_open (run e f pos) Closed.
Proof.
  destruct (outcome_of (parse_positional e pos)) as [rq| |] eqn:Hp.
  - exists (open_i2c_dev e (i2cbus rq)). unfold run.
    apply (follows_bind _ Not_open Not_open).
    { break_if; [|apply follows_ret].
      apply (follows_bind _ Not_open Not_open);
        [apply follows_stderr|intros _ _; apply follows_exit]. }
    intros _ _.
    apply (follows_bind _ Not_open Not_open).
    { apply follows_quiet. apply parse_positional_quiet. reflexivity. }
    intros rq' Hrq'. rewrite Hp in Hrq'. inversion Hrq'; subst rq'.
    unfold open_and_check, read_and_report.
    apply (follows_bind _ Not_open Opened).
    { apply (follows_bind _ Not_open Opened);
        [apply follows_open_device|intros file Hfile].
      destruct (open_device_outcome e f rq) as [C|C];
        rewrite C in Hfile; inversion Hfile; subst file.
      apply (follows_bind _ Opened Opened); [apply follows_ask|intros _ _].
      apply (follows_bind _ Opened Opened);
        [apply follows_enable_pec|intros _ _; apply follows_ret]. }
    intros file Hfile.
    destruct (open_and_check_ret _ _ _ _ Hfile) as (-> & _).
    apply (follows_bind _ Opened Opened);
      [apply follows_transaction|intros t _].
    apply (follows_bind _ Opened Closed).
    { apply (follows_call _ Opened Closed). cbn. now rewrite Z.eqb_refl. }
    intros _ _. apply follows_report.
  - exists 0. unfold follows.
    assert (Hq : filter not_stderr (trace_of (run e f pos)) = []).
    { unfold run. apply filter_bind_nil.
      { break_if; reflexivity. }
      intros _. rewrite (bind_Exit _ _ _ Hp).
      apply parse_positional_quiet. reflexivity. }
    rewrite (handle_run_stderr 0 Not_open _ Hq).
    assert (Ho : exists n, outcome_of (run e f pos) = Exit n).
    { unfold run. break_if.
      - now exists 0.
      - rewrite bind_ret_l, (bind_Exit _ _ _ Hp). now exists status. }
    destruct Ho as [n ->]. now exists Not_open.
  - exists 0. unfold follows.
    assert (Hq : filter not_stderr (trace_of (run e f pos)) = []).
    { unfold run. apply filter_bind_nil.
      { break_if; reflexivity. }
      intros _. rewrite (bind_Undefined _ _ Hp).
      apply parse_positional_quiet. reflexivity. }
    rewrite (handle_run_stderr 0 Not_open _ Hq).
    destruct (outcome_of (run e f pos)) eqn:Ho; eauto.
    exfalso. revert Ho. unfold run. break_if; [discriminate|].
    rewrite bind_ret_l, (bind_Undefined _ _ Hp). discriminate.
Qed.

(** X9.  Every run keeps to the life of the handle: the device is opened
    at most once; every call on it (functionality query, binding the
    address, PEC, address write, read) names the one descriptor and
    comes after the opening and before the closing, as do the prompt and
    the allocation; the handle is closed at most once; the result is
    printed and the block freed only after the closing.  A run that
    returns from [main] leaves the handle closed. *)
Theorem handle_protocol (e : env) (argv : list string) :
  exists file s,
    handle_run file Not_open (trace_of (main e argv)) = Some s /\
    (forall n, outcome_of (main e argv) = Ret n -> s = Closed).
Proof.
  destruct (parse_flags_outcome e (tl argv) no_flags)
    as [[[f pos] Hflags]|[Hx Hq]].
  - rewrite (main_run _ _ _ _ Hflags).
    destruct (follows_run e f pos) as [file H]. exists file.
    unfold follows in H.
    destruct (outcome_of (run e f pos)) as [n| |].
    + exists Closed. split; [exact H|reflexivity].
    + destruct H as [s H]. exists s. split; [exact H|discriminate].
    + destruct H as [s H]. exists s. split; [exact H|discriminate].
  - exists 0, Not_open. rewrite (main_flags_rejected _ _ Hx).
    cbn [trace_of outcome_of fst snd]. split; [|discriminate].
    now apply handle_run_stderr.
Qed.

(** ** Failures after the safety gate *)

Lemma enable_pec_closes (e : env) (rq : request) (file : Z) :
  filter is_close (trace_of (enable_pec e rq file)) =
  match outcome_of (enable_pec e rq file) with
  | Exit _ => [Close file]
  | _ => []
  end.
Proof.
  unfold enable_pec. destruct (pec rq); [|reflexivity].
  unfold call. rewrite bind_pair_Ret. cbn [trace_of outcome_of fst snd].
  destruct (ioctl_PEC e file <? 0); reflexivity.
Qed.

Lemma transaction_closes (e : env) (file length size daddress daddrlen : Z) :
  0 <= daddrlen ->
  filter is_close
    (trace_of (transaction e file length size daddress daddrlen)) =
  match outcome_of (transaction e file length size daddress daddrlen) with
  | Exit _ => [Close file]
  | _ => []
  end.
Proof.
  intros Hdl. unfold transaction.
  pose proof (writeaddr_ret e file daddress daddrlen Hdl) as Hw.
  assert (Hq : filter is_close
                 (trace_of (writeaddr e file daddress daddrlen)) = [])
    by (apply writeaddr_quiet; reflexivity).
  destruct (negb (length =? 0)).
  - unfold calloc, call. rewrite bind_pair_Ret.
    cbn [trace_of outcome_of fst snd].
    destruct ((to_size_t length * sizeof_int >? SIZE_MAX) || out_of_memory e).
    + reflexivity.
    + rewrite (bind_Ret _ _ _ Hw). cbn [fst snd].
      rewrite bind_pair_Ret. cbn [fst snd trace_of outcome_of].
      unfold trace_of in *.
      destruct (read e file (to_size_t length)); cbn [fst snd ret];
        cbn [app filter is_close]; rewrite filter_app, Hq; reflexivity.
  - destruct (size =? I2C_SMBUS_BYTE).
    + rewrite (bind_Ret _ _ _ Hw). cbn [fst snd outcome_of trace_of].
      unfold trace_of in *. rewrite filter_app, Hq. reflexivity.
    + destruct (size =? I2C_SMBUS_WORD_DATA); reflexivity.
Qed.

(** X10.  Past the safety gate the handle is closed exactly once in
    every run: when the device was opened, checked and bound and the
    confirmation did not stop the run, then however the run goes on
    (PEC cannot be switched on, the buffer cannot be allocated, the read
    fails, or the result is printed) its trace holds one [close], of the
    descriptor that was opened. *)
Theorem handle_closed_once_past_gate (e : env) (argv : list string)
        (f : flags_t) (pos : list string) (rq : request) (file : Z) :
  outcome_of (parse_flags e (tl argv) no_flags) = Ret (f, pos) ->
  version f = false ->
  outcome_of (parse_positional e pos) = Ret rq ->
  outcome_of (open_device e f rq) = Ret file ->
  outcome_of (ask e f rq) = Ret tt ->
  filter is_close (trace_of (main e argv)) = [Close file].
Proof.
  intros Hflags Hv Hp Hod Ha. rewrite (main_run _ _ _ _ Hflags).
  pose proof (request_daddrlen _ _ _ Hp) as (Hdl & _ & _).
  destruct (handle_open_until_pec e f rq) as [Qod Qa].
  pose proof (enable_pec_closes e rq file) as Hpec.
  destruct (enable_pec_outcome e rq file) as [He|He]; rewrite He in Hpec.
  - assert (Hoc : open_and_check e f rq =
                  (trace_of (open_device e f rq) ++ trace_of (ask e f rq)
                   ++ trace_of (enable_pec e rq file), Exit 1)).
    { unfold open_and_check. rewrite (bind_Ret _ _ _ Hod).
      rewrite (bind_Ret _ _ _ Ha). rewrite (bind_Exit _ _ _ He). reflexivity. }
    rewrite (run_setup_exit e f pos rq 1 Hv Hp) by now rewrite Hoc.
    rewrite Hoc. cbn [trace_of fst]. unfold trace_of in *.
    now rewrite !filter_app, Qod, Qa, Hpec.
  - assert (Ho : outcome_of (open_and_check e f rq) = Ret file).
    { unfold open_and_check. rewrite (bind_Ret _ _ _ Hod).
      cbn [outcome_of snd]. rewrite (bind_Ret _ _ _ Ha).
      cbn [outcome_of snd]. now rewrite (bind_Ret _ _ _ He). }
    destruct (open_and_check_ret _ _ _ _ Ho) as (_ & _ & _ & _ & Htr).
    rewrite (run_after_setup _ _ _ _ _ Hv Hp Ho).
    change (trace_of (?a, ?b)) with a.
    rewrite filter_app, Htr, !filter_app, Qod, Qa, Hpec. cbn [app].
    pose proof (transaction_closes e file (length f) (size rq) (daddress rq)
                  (daddrlen rq) ltac:(lia)) as Ht.
    pose proof (transaction_reads e file (length f) (size rq) (daddress rq)
                  (daddrlen rq) ltac:(lia)) as Hr.
    unfold read_and_report.
    destruct (outcome_of (transaction e file (length f) (size rq)
                            (daddress rq) (daddrlen rq)))
      as [t|n|] eqn:Et; [| |contradiction].
    + rewrite (trace_bind_Ret _ _ _ Et), filter_app, Ht. cbn [app].
      unfold emit. rewrite bind_pair_Ret.
      change (trace_of (?a, ?b)) with a. cbn [app filter is_close].
      f_equal. apply (report_quiet is_close); reflexivity.
    + rewrite (bind_Exit _ _ _ Et). exact Ht.
Qed.

Lemma handle_closed_once_past_gate_witness :
  let e := with_pec_failure
             (Sample.world false Sample.all_funcs Other_answer None 0) in
  filter is_close
    (trace_of (main e ["i2cget"; "-y"; "1"; "0x48"; "0x10"; "bp"]%string))
  = [Close 3].
Proof.
  intros e.
  apply (handle_closed_once_past_gate e _
           {| version := false; force := false; yes := true; length := 0 |}
           ["1"; "0x48"; "0x10"; "bp"]%string
           {| i2cbus := 1; address := 0x48; size := I2C_SMBUS_BYTE_DATA;
              daddress := 0x10; daddrlen := 1; pec := true |} 3);
    vm_compute; reflexivity.
Defined.

(** X11.  When PEC is requested and cannot be switched on, the run
    prints the diagnostic, closes the handle and exits with status 1;
    nothing else happens after the safety gate: no allocation, no
    address byte, no read. *)
Theorem pec_failure_ends_run (e : env) (argv : list string)
        (f : flags_t) (pos : list string) (rq : request) (file : Z) :
  outcome_of (parse_flags e (tl argv) no_flags) = Ret (f, pos) ->
  version f = false ->
  outcome_of (parse_positional e pos) = Ret rq ->
  outcome_of (open_device e f rq) = Ret file ->
  outcome_of (ask e f rq) = Ret tt ->
  pec rq = true ->
  ioctl_PEC e file < 0 ->
  main e argv =
  (trace_of (open_device e f rq) ++ trace_of (ask e f rq)
   ++ [Ioctl_PEC file; Stderr Err_could_not_set_pec; Close file], Exit 1).
Proof.
  intros Hflags Hv Hp Hod Ha Hpec Hfail. rewrite (main_run _ _ _ _ Hflags).
  assert (He : enable_pec e rq file =
               ([Ioctl_PEC file; Stderr Err_could_not_set_pec; Close file],
                Exit 1)).
  { unfold enable_pec. rewrite Hpec. unfold call. rewrite bind_pair_Ret.
    cbn [trace_of outcome_of fst snd].
    apply Z.ltb_lt in Hfail. now rewrite Hfail. }
  assert (Hoc : open_and_check e f rq =
                (trace_of (open_device e f rq) ++ trace_of (ask e f rq)
                 ++ [Ioctl_PEC file; Stderr Err_could_not_set_pec;
                     Close file], Exit 1)).
  { unfold open_and_check. rewrite (bind_Ret _ _ _ Hod).
    rewrite (bind_Ret _ _ _ Ha). now rewrite He. }
  rewrite (run_setup_exit e f pos rq 1 Hv Hp) by now rewrite Hoc.
  now rewrite Hoc.
Qed.

Lemma pec_failure_ends_run_witness :
  let e := with_pec_failure
             (Sample.world false Sample.all_funcs Other_answer None 0) in
  main e ["i2cget"; "-y"; "1"; "0x48"; "0x10"; "bp"]%string =
  ([Open_i2c_dev 1; Ioctl_FUNCS 3; Set_slave_addr 3 0x48 false;
    Ioctl_PEC 3; Stderr Err_could_not_set_pec; Close 3], Exit 1).
Proof.
  intros e.
  apply (pec_failure_ends_run e _
           {| version := false; force := false; yes := true; length := 0 |}
           ["1"; "0x48"; "0x10"; "bp"]%string
           {| i2cbus := 1; address := 0x48; size := I2C_SMBUS_BYTE_DATA;
              daddress := 0x10; daddrlen := 1; pec := true |} 3);
    vm_compute; reflexivity.
Defined.

(** X12.  When the buffer of a raw read cannot be allocated, because
    memory is short or because the raw length is negative, the run
    prints the diagnostic, closes the handle and exits with status 1
    right after the one [calloc]: no address byte and no read go to the
    bus. *)
Theorem allocation_failure_ends_run (e : env) (argv : list string)
        (f : flags_t) (pos : list string) (rq : request) (file : Z) :
  outcome_of (parse_flags e (tl argv) no_flags) = Ret (f, pos) ->
  version f = false ->
  outcome_of (parse_positional e pos) = Ret rq ->
  outcome_of (open_and_check e f rq) = Ret file ->
  length f <> 0 ->
  out_of_memory e = true \/ length f < 0 ->
  main e argv =
  (trace_of (open_and_check e f rq)
   ++ [Calloc (to_size_t (length f)) sizeof_int; Stderr Err_alloc;
       Close file], Exit 1).
Proof.
  intros Hflags Hv Hp Ho Hlen Hcause.
  pose proof (main_length_int _ _ _ _ Hflags) as [Hmin _].
  rewrite (main_run _ _ _ _ Hflags).
  assert (Ht : transaction e file (length f) (size rq) (daddress rq)
                 (daddrlen rq) =
               ([Calloc (to_size_t (length f)) sizeof_int; Stderr Err_alloc;
                 Close file], Exit 1)).
  { apply transaction_no_memory; [assumption|].
    destruct Hcause as [Hm|Hneg].
    - rewrite Hm. apply orb_true_r.
    - rewrite negative_length_no_memory by lia. reflexivity. }
  rewrite (run_after_setup _ _ _ _ _ Hv Hp Ho).
  unfold read_and_report. rewrite Ht. reflexivity.
Qed.

Lemma allocation_failure_ends_run_witness :
  let e := with_no_memory
             (Sample.world false Sample.all_funcs Other_answer None 0) in
  main e ["i2cget"; "-y"; "-l"; "16"; "1"; "0x48"; "0x10"]%string =
  ([Open_i2c_dev 1; Ioctl_FUNCS 3; Set_slave_addr 3 0x48 false;
    Calloc 16 4; Stderr Err_alloc; Close 3], Exit 1).
Proof.
  intros e.
  apply (allocation_failure_ends_run e _
           {| version := false; force := false; yes := true; length := 16 |}
           ["1"; "0x48"; "0x10"]%string
           {| i2cbus := 1; address := 0x48; size := I2C_SMBUS_BYTE_DATA;
              daddress := 0x10; daddrlen := 1; pec := false |} 3);
    try (vm_compute; reflexivity).
  - cbn [length]. lia.
  - left. reflexivity.
Defined.

(** ** Hexadecimal numerals *)

Lemma hex_digit_value_digit (upper : bool) (d : Z) :
  0 <= d < 16 -> hex_digit_value (hex_digit upper d) = Some d.
Proof.
  intros H.
  assert (d = 0 \/ d = 1 \/ d = 2 \/ d = 3 \/ d = 4 \/ d = 5 \/ d = 6 \/ d = 7
          \/ d = 8 \/ d = 9 \/ d = 10 \/ d = 11 \/ d = 12 \/ d = 13 \/ d = 14
          \/ d = 15) as C by lia.
  repeat (destruct C as [->|C]; [destruct upper; reflexivity|]).
  subst d. destruct upper; reflexivity.
Qed.

Lemma hex_value_append (s1 s2 : string) :
  forall acc,
    hex_value (String.append s1 s2) acc =
    match hex_value s1 acc with
    | Some v => hex_value s2 v
    | None => None
    end.
Proof.
  induction s1 as [|c s1 IH]; intros acc; [reflexivity|].
  cbn [String.append hex_value]. destruct (hex_digit_value c); auto.
Qed.

Lemma hex_digits_acc (upper : bool) (fuel : nat) :
  forall n acc,
    hex_digits fuel upper n acc
    = String.append (hex_digits fuel upper n EmptyString) acc.
Proof.
  induction fuel as [|fuel IH]; intros n acc; [reflexivity|].
  cbn [hex_digits]. destruct (n / 16 =? 0); [reflexivity|].
  rewrite (IH (n / 16) (String (hex_digit upper (n mod 16)) acc)).
  rewrite (IH (n / 16) (String (hex_digit upper (n mod 16)) EmptyString)).
  now rewrite append_assoc.
Qed.

Lemma hex_digits_step (upper : bool) (fuel : nat) (n : Z) :
  hex_digits (S fuel) upper n EmptyString =
  if n / 16 =? 0
  then String (hex_digit upper (n mod 16)) EmptyString
  else String.append (hex_digits fuel upper (n / 16) EmptyString)
                     (String (hex_digit upper (n mod 16)) EmptyString).
Proof.
  cbn [hex_digits]. destruct (n / 16 =? 0); [reflexivity|].
  apply hex_digits_acc.
Qed.

Lemma div16_zero (n : Z) : 0 <= n -> (n / 16 =? 0) = (n <? 16).
Proof.
  intros H. destruct (n <? 16) eqn:E.
  - apply Z.ltb_lt in E. apply Z.eqb_eq. apply Z.div_small. lia.
  - apply Z.ltb_ge in E. apply Z.eqb_neq. intros C.
    apply Z.div_small_iff in C; lia.
Qed.

(** The digits printed for [n] read back as [n]. *)
Lemma hex_digits_value (upper : bool) (fuel : nat) :
  forall n, 0 <= n < 16 ^ Z.of_nat fuel ->
            hex_value (hex_digits fuel upper n EmptyString) 0 = Some n.
Proof.
  induction fuel as [|fuel IH]; intros n Hn.
  { cbn in Hn. cbn. f_equal. lia. }
  rewrite hex_digits_step, div16_zero by lia.
  pose proof (Z.mod_pos_bound n 16 ltac:(lia)) as Hm.
  destruct (n <? 16) eqn:E.
  - apply Z.ltb_lt in E. cbn [hex_value].
    rewrite hex_digit_value_digit by assumption.
    rewrite Z.mod_small by lia. reflexivity.
  - apply Z.ltb_ge in E.
    rewrite hex_value_append, IH.
    + cbn [hex_value]. rewrite hex_digit_value_digit by assumption.
      f_equal. pose proof (Z.div_mod n 16 ltac:(lia)). lia.
    + split; [apply Z.div_pos; lia|].
      apply Z.div_lt_upper_bound; [lia|].
      rewrite Nat2Z.inj_succ, Z.pow_succ_r in Hn by lia. lia.
Qed.

(** A number below [16^k] takes at most [k] digits, and at least one. *)
Lemma hex_digits_length (upper : bool) (fuel : nat) :
  forall k n, (1 <= k <= fuel)%nat -> 0 <= n < 16 ^ Z.of_nat k ->
    (1 <= String.length (hex_digits fuel upper n EmptyString) <= k)%nat.
Proof.
  induction fuel as [|fuel IH]; intros k n Hk Hn; [lia|].
  rewrite hex_digits_step, div16_zero by lia.
  destruct (n <? 16) eqn:E.
  - cbn [String.length]. lia.
  - apply Z.ltb_ge in E.
    destruct k as [|k]; [lia|].
    destruct k as [|k].
    { change (16 ^ Z.of_nat 1) with 16 in Hn. lia. }
    assert (Hlen : forall s c,
               String.length (String.append s (String c EmptyString))
               = S (String.length s)).
    { clear. induction s as [|c' s IHs]; intros c; cbn; [reflexivity|].
      now rewrite IHs. }
    rewrite Hlen.
    assert (Hq : 0 <= n / 16 < 16 ^ Z.of_nat (S k)).
    { split; [apply Z.div_pos; lia|].
      apply Z.div_lt_upper_bound; [lia|].
      rewrite (Nat2Z.inj_succ (S k)), Z.pow_succ_r in Hn by lia. lia. }
    specialize (IH (S k) (n / 16) ltac:(lia) Hq). lia.
Qed.

Lemma zeros_length (k : nat) : String.length (zeros k) = k.
Proof. induction k as [|k IH]; cbn; [reflexivity|now rewrite IH]. Qed.

Lemma string_length_append (s1 s2 : string) :
  String.length (String.append s1 s2)
  = (String.length s1 + String.length s2)%nat.
Proof. induction s1 as [|c s1 IH]; cbn; [reflexivity|now rewrite IH]. Qed.

Lemma hex_value_zeros (k : nat) (s : string) :
  hex_value (String.append (zeros k) s) 0 = hex_value s 0.
Proof. induction k as [|k IH]; [reflexivity|exact IH]. Qed.

(** What [%0<width>x] prints for an [unsigned int] reads back as the
    number, and has exactly [width] digits when the number fits them. *)
Lemma fmt_hex_reads_back (upper : bool) (width : nat) (n : Z) :
  0 <= n < 2 ^ 32 ->
  hex_value (fmt_hex upper width n) 0 = Some n /\
  ((1 <= width <= 8)%nat -> n < 16 ^ Z.of_nat width ->
   String.length (fmt_hex upper width n) = width).
Proof.
  intros Hn. unfold fmt_hex. split.
  - rewrite hex_value_zeros. apply hex_digits_value.
    change (16 ^ Z.of_nat 8) with (2 ^ 32). exact Hn.
  - intros Hw Hfit.
    pose proof (hex_digits_length upper 8 width n ltac:(lia) ltac:(lia)).
    rewrite string_length_append, zeros_length. lia.
Qed.

(** ** What is printed *)

Lemma transaction_no_stdout (e : env) (file length size daddress daddrlen : Z) :
  filter is_stdout
    (trace_of (transaction e file length size daddress daddrlen)) = [].
Proof.
  unfold transaction, calloc.
  repeat first
    [ reflexivity
    | apply writeaddr_quiet; reflexivity
    | apply filter_bind_nil; [|intros ?]
    | break_if
    | break_match ].
Qed.

(** Past the setup and the transaction, the run ends as the report does
    and stdout holds what the report printed. *)
Lemma run_report (e : env) (f : flags_t) (pos : list string) (rq : request)
      (file : Z) (t : Z * list byte) :
  version f = false ->
  outcome_of (parse_positional e pos) = Ret rq ->
  outcome_of (open_and_check e f rq) = Ret file ->
  outcome_of (transaction e file (length f) (size rq) (daddress rq)
                (daddrlen rq)) = Ret t ->
  outcome_of (run e f pos)
  = outcome_of (report e (length f) (size rq) (fst t) (snd t)) /\
  stdout_of (trace_of (run e f pos))
  = stdout_of (trace_of (report e (length f) (size rq) (fst t) (snd t))) /\
  (forall d,
     In (Stderr d) (trace_of (report e (length f) (size rq) (fst t) (snd t)))
     -> In (Stderr d) (trace_of (run e f pos))).
Proof.
  intros Hv Hp Ho Ht. rewrite (run_after_setup _ _ _ _ _ Hv Hp Ho).
  unfold read_and_report. rewrite (bind_Ret _ _ _ Ht).
  unfold emit. rewrite bind_pair_Ret.
  assert (H1 : stdout_of (trace_of (open_and_check e f rq)) = EmptyString)
    by (apply stdout_of_filter, open_and_check_quiet; reflexivity).
  assert (H2 : stdout_of
                 (trace_of (transaction e file (length f) (size rq)
                              (daddress rq) (daddrlen rq))) = EmptyString)
    by apply stdout_of_filter, transaction_no_stdout.
  unfold trace_of, outcome_of in *. cbn [fst snd].
  split; [reflexivity|]. split.
  - rewrite !stdout_of_app, H1, H2. reflexivity.
  - intros d Hin. apply in_or_app. right. apply in_or_app. right.
    apply in_or_app. right. exact Hin.
Qed.

Lemma structured_transaction (e : env) (file size daddress daddrlen : Z) :
  0 <= daddrlen ->
  outcome_of (transaction e file 0 size daddress daddrlen)
  = Ret (structured_result e file size daddress, []).
Proof.
  intros Hdl. rewrite transaction_structured by assumption.
  unfold structured_result.
  destruct (size =? I2C_SMBUS_BYTE); [reflexivity|].
  destruct (size =? I2C_SMBUS_WORD_DATA); reflexivity.
Qed.

(** X13.  The structured reads end in one of two ways.  A negative
    return of the SMBus primitive ends the run with status 2 after the
    read-failure diagnostic, with nothing on stdout.  Any other return
    makes [main] return 0 after printing one line: 0x, the value in
    lower-case hexadecimal digits that read back as the value, and a
    newline; the numeral has exactly 4 digits for a word that fits
    them, and exactly 2 for a byte. *)
Theorem structured_read_result (e : env) (argv : list string) (f : flags_t)
        (pos : list string) (rq : request) (file : Z) :
  outcome_of (parse_flags e (tl argv) no_flags) = Ret (f, pos) ->
  version f = false ->
  outcome_of (parse_positional e pos) = Ret rq ->
  outcome_of (open_and_check e f rq) = Ret file ->
  length f = 0 ->
  let res := structured_result e file (size rq) (daddress rq) in
  let width := if size rq =? I2C_SMBUS_WORD_DATA then 4%nat else 2%nat in
  (res < 0 ->
   outcome_of (main e argv) = Exit 2 /\
   In (Stderr Err_read_failed) (trace_of (main e argv)) /\
   stdout_of (trace_of (main e argv)) = EmptyString) /\
  (0 <= res ->
   outcome_of (main e argv) = Ret 0 /\
   exists digits,
     stdout_of (trace_of (main e argv))
     = String.append "0x" (String.append digits newline) /\
     hex_value digits 0 = Some res /\
     (res < 16 ^ Z.of_nat width -> String.length digits = width)).
Proof.
  intros Hflags Hv Hp Ho Hlen res width.
  rewrite (main_run _ _ _ _ Hflags).
  pose proof (request_daddrlen _ _ _ Hp) as (Hdl & _ & _).
  pose proof (structured_transaction e file (size rq) (daddress rq)
                (daddrlen rq) ltac:(lia)) as Ht.
  rewrite <- Hlen in Ht.
  destruct (run_report e f pos rq file _ Hv Hp Ho Ht) as (Ro & Rs & Rd).
  rewrite Ro, Rs. cbn [fst snd]. fold res.
  assert (Hres : INT_MIN <= res <= INT_MAX).
  { unfold res, structured_result. repeat break_if; apply to_int_range. }
  unfold report. rewrite Hlen. cbn [Z.eqb negb].
  split.
  - intros Hneg. apply Z.ltb_lt in Hneg. rewrite Hneg.
    split; [reflexivity|]. split; [|reflexivity].
    apply Rd. cbn [fst snd]. fold res.
    unfold report. rewrite Hlen. cbn [Z.eqb negb]. rewrite Hneg.
    left. reflexivity.
  - intros Hpos. assert (E : (res <? 0) = false) by now apply Z.ltb_ge.
    rewrite E. split; [reflexivity|].
    exists (fmt_hex false width res).
    destruct (fmt_hex_reads_back false width res) as [Hval Hw].
    { unfold INT_MAX in Hres. lia. }
    split; [|split].
    + cbn [trace_of fst bind printf emit snd app ret stdout_of].
      now rewrite append_nil_r.
    + exact Hval.
    + apply Hw. unfold width. break_if; lia.
Qed.

Lemma structured_read_result_witness :
  let e := Sample.world false Sample.all_funcs Other_answer None 0xbeef in
  let argv := ["i2cget"; "-y"; "1"; "0x48"; "0x10"; "w"]%string in
  outcome_of (main e argv) = Ret 0 /\
  exists digits,
    stdout_of (trace_of (main e argv))
    = String.append "0x" (String.append digits newline) /\
    hex_value digits 0 = Some 0xbeef /\
    String.length digits = 4%nat.
Proof.
  intros e argv.
  destruct (structured_read_result e argv
              {| version := false; force := false; yes := true; length := 0 |}
              ["1"; "0x48"; "0x10"; "w"]%string
              {| i2cbus := 1; address := 0x48; size := I2C_SMBUS_WORD_DATA;
                 daddress := 0x10; daddrlen := 1; pec := false |} 3)
    as [_ P]; try (vm_compute; reflexivity).
  destruct P as (O & digits & S & V & L).
  - vm_compute. discriminate.
  - split; [exact O|]. exists digits. split; [exact S|]. split; [exact V|].
    apply L. vm_compute. reflexivity.
Defined.

Lemma fmt_02X_printed (e : env) (b : byte) : fmt_02X e b = printed_byte e b.
Proof.
  unfold printed_byte.
  destruct (char_is_signed e) eqn:Es; cbn [andb].
  - destruct (128 <=? Z.of_N (Byte.to_N b)) eqn:Eb.
    + apply fmt_02X_sign_extended; [assumption|now apply Z.leb_le].
    + apply fmt_02X_two_digits. right. now apply Z.leb_gt.
  - apply fmt_02X_two_digits. now left.
Qed.

Lemma hex2_reads_back (b : byte) :
  hex_value (hex2 b) 0 = Some (Z.of_N (Byte.to_N b)).
Proof. destruct b; reflexivity. Qed.

(** X14.  A raw read that returned the requested number of bytes makes
    [main] return 0 after printing one line.  For the lengths 1, 2, 4
    and 8 the line is 0x followed by what is printed for each byte, in
    read order and without separators; for any other length it is, per
    byte and separated by single blanks, 0x followed by what is printed
    for the byte.  What is printed for a byte is its two upper-case hex
    digits, which read back as the byte, after FFFFFF where plain [char]
    is signed and the byte is 0x80 or more. *)
Theorem raw_output_per_byte (e : env) (argv : list string) (f : flags_t)
        (pos : list string) (rq : request) (file : Z) (d : list byte) :
  outcome_of (parse_flags e (tl argv) no_flags) = Ret (f, pos) ->
  version f = false ->
  outcome_of (parse_positional e pos) = Ret rq ->
  outcome_of (open_and_check e f rq) = Ret file ->
  0 < length f ->
  out_of_memory e = false ->
  read e file (length f) = Some d ->
  Z.of_nat (List.length d) = length f ->
  outcome_of (main e argv) = Ret 0 /\
  stdout_of (trace_of (main e argv)) =
  (if packed_length (length f) then
     String.append "0x"
       (String.append (String.concat "" (map (printed_byte e) d)) newline)
   else
     String.append
       (String.concat " "
          (map (fun b => String.append "0x" (printed_byte e b)) d))
       newline) /\
  (forall b, hex_value (hex2 b) 0 = Some (Z.of_N (Byte.to_N b))).
Proof.
  intros Hflags Hv Hp Ho Hlen Hmem Hread Hd.
  pose proof (main_length_int _ _ _ _ Hflags) as [_ Hmax].
  pose proof (request_daddrlen _ _ _ Hp) as (Hdl & _ & _).
  rewrite (main_run _ _ _ _ Hflags).
  assert (Ht : outcome_of (transaction e file (length f) (size rq)
                             (daddress rq) (daddrlen rq))
               = Ret (length f,
                      store d (repeat x00
                                 (Z.to_nat (length f * sizeof_int))))).
  { rewrite transaction_raw by (auto; lia).
    cbn [outcome_of snd]. unfold read_result. rewrite Hread, Hd.
    rewrite to_int_id by (unfold INT_MIN; lia). reflexivity. }
  destruct (run_report e f pos rq file _ Hv Hp Ho Ht) as (Ro & Rs & _).
  rewrite Ro, Rs. cbn [fst snd].
  destruct (report_raw_stdout e (length f) (size rq)
              (store d (repeat x00 (Z.to_nat (length f * sizeof_int))))
              Hlen) as [Po Ps].
  split; [exact Po|]. split; [|apply hex2_reads_back].
  rewrite Ps.
  replace (Z.to_nat (length f)) with (List.length d) by lia.
  rewrite bytes_from_store.
  rewrite (map_ext _ _ (fmt_02X_printed e)).
  rewrite (map_ext (fun b => String.append "0x" (fmt_02X e b))
                   (fun b => String.append "0x" (printed_byte e b)))
    by (intros b; now rewrite fmt_02X_printed).
  reflexivity.
Qed.

Lemma raw_output_per_byte_witness :
  let e := Sample.world true Sample.all_funcs Other_answer
             (Some [x7f; x80; xff]) 0 in
  let argv := ["i2cget"; "-y"; "-l"; "3"; "1"; "0x48"]%string in
  outcome_of (main e argv) = Ret 0 /\
  stdout_of (trace_of (main e argv))
  = String.append "0x7F 0xFFFFFF80 0xFFFFFFFF" newline.
Proof.
  intros e argv.
  destruct (raw_output_per_byte e argv
              {| version := false; force := false; yes := true; length := 3 |}
              ["1"; "0x48"]%string
              {| i2cbus := 1; address := 0x48; size := I2C_SMBUS_BYTE;
                 daddress := -1; daddrlen := 0; pec := false |} 3
              [x7f; x80; xff])
    as (O & S & _); try (vm_compute; reflexivity).
  split; [exact O|]. rewrite S. vm_compute. reflexivity.
Defined.

(** ** What goes to the bus *)

(** X15.  In a run that gets to its transaction (with memory at hand on
    the raw path), the bus sees at most one address write followed by
    exactly one read.  The address is written by the program itself
    exactly when a register address was given and the read is a raw
    read or the I2C_SMBUS_BYTE read; the bytes are those of the encoder
    for the inferred width.  The two register reads (byte data, word
    data) are never preceded by a write of the program's own. *)
Theorem address_write_then_read (e : env) (argv : list string) (f : flags_t)
        (pos : list string) (rq : request) (file : Z) :
  outcome_of (parse_flags e (tl argv) no_flags) = Ret (f, pos) ->
  version f = false ->
  outcome_of (parse_positional e pos) = Ret rq ->
  outcome_of (open_and_check e f rq) = Ret file ->
  length f = 0 \/ (0 < length f /\ out_of_memory e = false) ->
  traffic_of (trace_of (main e argv)) =
  (if (negb (length f =? 0) || (size rq =? I2C_SMBUS_BYTE))
      && (0 <=? daddress rq)
   then [Sys_write file (encoded (daddress rq) (daddrlen rq))]
   else [])
  ++ reads_of (trace_of (main e argv)) /\
  List.length (reads_of (trace_of (main e argv))) = 1%nat.
Proof.
  intros Hflags Hv Hp Ho Hcase.
  pose proof (main_length_int _ _ _ _ Hflags) as [_ Hmax].
  pose proof (request_daddrlen _ _ _ Hp) as (Hdl & _ & _).
  rewrite (main_run _ _ _ _ Hflags).
  rewrite (run_traffic _ _ _ _ _ Hv Hp Ho), (run_reads _ _ _ _ _ Hv Hp Ho).
  assert (Hwt := writeaddr_traffic e file (daddress rq) (daddrlen rq)
                   ltac:(lia)).
  assert (Hwr : reads_of (trace_of (writeaddr e file (daddress rq)
                                      (daddrlen rq))) = [])
    by (apply writeaddr_quiet; reflexivity).
  unfold traffic_of, reads_of in *.
  destruct Hcase as [Hlen|[Hlen Hmem]].
  - rewrite Hlen. cbn [Z.eqb negb orb].
    rewrite transaction_structured by lia.
    destruct (size rq =? I2C_SMBUS_BYTE).
    + cbn [trace_of fst andb]. unfold trace_of in *.
      rewrite !filter_app, Hwt, Hwr. cbn.
      destruct (0 <=? daddress rq); split; reflexivity.
    + cbn [andb]. destruct (size rq =? I2C_SMBUS_WORD_DATA);
        split; reflexivity.
  - assert (E : (length f =? 0) = false) by (apply Z.eqb_neq; lia).
    rewrite E. cbn [negb orb andb].
    rewrite transaction_raw by (auto; lia).
    cbn [trace_of fst]. unfold trace_of in *.
    cbn [filter is_traffic is_read is_write orb].
    rewrite !filter_app, Hwt, Hwr. cbn.
    destruct (0 <=? daddress rq); split; reflexivity.
Qed.

Lemma address_write_then_read_witness :
  let e := Sample.world false Sample.all_funcs Other_answer None 0xab in
  traffic_of
    (trace_of (main e ["i2cget"; "-y"; "1"; "0x48"; "0x1234"; "c"]%string))
  = [Sys_write 3 [x12; x34]; Smbus_read_byte 3].
Proof.
  intros e.
  destruct (address_write_then_read e
              ["i2cget"; "-y"; "1"; "0x48"; "0x1234"; "c"]%string
              {| version := false; force := false; yes := true; length := 0 |}
              ["1"; "0x48"; "0x1234"; "c"]%string
              {| i2cbus := 1; address := 0x48; size := I2C_SMBUS_BYTE;
                 daddress := 0x1234; daddrlen := 2; pec := false |} 3)
    as [T _];
    [vm_compute; reflexivity | reflexivity | vm_compute; reflexivity
    | vm_compute; reflexivity | left; reflexivity |].
  rewrite T. vm_compute. reflexivity.
Defined.
